(** * loadsStores: thread roles, clock offsets and timing protocols

    A shallow embedding of [microBM/loadsStores.cc] (LOMP micro-benchmarks).
    The OpenMP team is modelled by its observable data flow: barriers order
    the phases of a sample, so what each phase writes is a function of the
    thread's role and of the clock readings, which are inputs of the model. *)

From Stdlib Require Import ZArith QArith Qround Qabs Qpower Lia String Ascii
  Permutation.
From stdpp Require Import base list list_numbers.

Local Open Scope Z_scope.

(** ** Machine integers *)

(** [#define MAX_THREADS 512] *)
Definition MAX_THREADS : Z := 512.

(** Two's-complement reduction of a value to a 32-bit [int]. *)
Definition int_wrap (z : Z) : Z := (z + 2 ^ 31) mod 2 ^ 32 - 2 ^ 31.

(** The same for an [int64_t]. *)
Definition int64_wrap (z : Z) : Z := (z + 2 ^ 63) mod 2 ^ 64 - 2 ^ 63.

(** ** Logical positions *)

(** [int logicalPos = (me + nThreads - from) % nThreads;]
    (lines 252 and 541).  C's [%] truncates, which is [Z.rem]. *)
Definition logicalPos (me nThreads from : Z) : Z :=
  Z.rem (me + nThreads - from) nThreads.

(** The same expression with every intermediate [int] reduced to 32 bits. *)
Definition logicalPos_int (me nThreads from : Z) : Z :=
  Z.rem (int_wrap (int_wrap (me + nThreads) - from)) nThreads.


(** The thread that sits at a given logical position (the inverse map). *)
Definition threadAt (p nThreads from : Z) : Z := Z.rem (p + from) nThreads.

(** Thread [t] belongs to a team of [nThreads] threads. *)
Definition inTeam (nThreads t : Z) : bool := (0 <=? t) && (t <? nThreads).

(** ** Role tables *)

(** The anonymous [enum] and the conditional expression of
    [measureSharingFrom] (lines 254-263). *)
Module Sharing.
Inductive role : Set := active | setup | setupOwner | nothing.

Definition whatIDo (logicalPos sharing : Z) : role :=
  if logicalPos =? 0 then active
  else if logicalPos <? sharing then setup
  else if logicalPos =? sharing then setupOwner
  else nothing.

(** The role of every thread of the team, in thread order. *)
Definition teamRoles (nThreads from sharing : Z) : list role :=
  (fun me => whatIDo (logicalPos me nThreads from) sharing)
    <$> seqZ 0 nThreads.

(** The same roles listed by logical position. *)
Definition rolesInLogicalOrder (nThreads from sharing : Z) : list role :=
  (fun p => whatIDo (logicalPos (threadAt p nThreads from) nThreads from)
              sharing) <$> seqZ 0 nThreads.
End Sharing.

#[global] Instance sharing_role_eq_dec : EqDecision Sharing.role.
Proof. solve_decision. Defined.

(** How many threads of a team hold role [r]. *)
Definition countRole (r : Sharing.role) (l : list Sharing.role) : nat :=
  length (filter (fun x => x = r) l).

(** The [enum] of [measureVisibilityFrom] (lines 551-558). *)
Module Visibility.
Inductive role : Set := active | polling | nothing.

Definition whatIDo (logicalPos sharing : Z) : role :=
  if logicalPos =? 0 then active
  else if logicalPos <=? sharing then polling
  else nothing.
End Visibility.

(** ** The statistics sink *)

(** Modelled from the spec: [lomp::statistic] is declared in
    [stats-timing.h], which is not among the sources.  The spec describes it
    as an append-only sample collection with reducible min/mean/max, written
    through [addSample], [scaleDown] and [reset].  Samples are [double]s in
    the source; they are taken as exact rationals here. *)
Record statistic : Set := mkStat { samples : list Q }.

Definition reset : statistic := mkStat [].

Definition addSample (x : Q) (s : statistic) : statistic :=
  mkStat (samples s ++ [x]).

Definition scaleDown (d : Z) (s : statistic) : statistic :=
  mkStat ((fun x => x / inject_Z d)%Q <$> samples s).

Definition Qsum (l : list Q) : Q := fold_right Qplus 0%Q l.

Definition getMean (s : statistic) : Q :=
  (Qsum (samples s) / inject_Z (Z.of_nat (length (samples s))))%Q.

(** [int64_t(x)] of a [double]: the fraction is dropped, towards zero. *)
Definition Qtrunc (q : Q) : Z := Z.quot (Qnum q) (Z.pos (Qden q)).

(** Modelled from the spec: [lomp::BlockTimer] (stats-timing.h) is not among
    the sources.  It reads the clock when the block is entered and when it is
    left, and adds the difference to its statistic. *)
Definition BlockTimer (elapsed : Z) (s : statistic) : statistic :=
  addSample (inject_Z elapsed) s.

(** Apply [F i] to cell [i] of an array for each index of a loop. *)
Definition forEachIndex {A : Type} (F : Z -> A -> A) (idxs : list Z)
    (l : list A) : list A :=
  fold_left (fun st i => alter (F i) (Z.to_nat i) st) idxs l.

(** ** Clock offsets: [computeClockOffset] (lines 461-524) *)

(** The three clock readings of one trial: thread zero's [start], the peer's
    reply [Tother] and thread zero's [end]. *)
Record trial : Set := mkTrial { Tstart : Z; Tother : Z; Tend : Z }.

(** [int const NumTests = 5000;] *)
Definition NumTests : Z := 5000.

(** *** Double precision

    Lines 508-510 compute in [double].  A finite [double] is [m * 2^e] with
    [|m| < 2^53] and [e >= -1074]; a conversion from [int64_t] and every
    arithmetic operation give the exact result rounded to the nearest such
    number, to the one with an even [m] in a tie.  Tick counts are far from
    the largest finite [double], so overflow to infinity is left out. *)

(** The exponent [k] with [2^k <= |q| < 2^(k+1)], for [q] other than 0. *)
Definition binade (q : Q) : Z :=
  let a := Qabs q in
  if Qle_bool 1 a then Z.log2 (Qfloor a) else - Z.log2_up (Qceiling (/ a)).

(** The nearest integer, the even one in a tie. *)
Definition roundEven (q : Q) : Z :=
  let f := Qfloor q in
  match (q - inject_Z f ?= 1 # 2)%Q with
  | Lt => f
  | Gt => f + 1
  | Eq => if Z.even f then f else f + 1
  end.

(** Rounding of an exact value to a [double]. *)
Definition double (q : Q) : Q :=
  let e := Z.max (- 1074) (binade q - 52) in
  (inject_Z (roundEven (q / 2 ^ e)) * 2 ^ e)%Q.

(** Lines 506-510.  [Tend - Tstart] is a difference of [int64_t] values,
    converted to [double] for the division by [2.0]; [Tother] and [Tstart]
    are converted for the two subtractions. *)
Definition offsetSample (t : trial) : Q :=
  let Tcomms :=
    double (double (inject_Z (int64_wrap (Tend t - Tstart t))) / 2) in
  let TOtherStart := double (double (inject_Z (Tother t)) - Tcomms) in
  double (double (inject_Z (Tstart t)) - TOtherStart).

(** Readings for which lines 508-510 round nothing: every intermediate
    value is a multiple of [1/2] below [2^52] in size. *)
Definition smallReadings (t : trial) : Prop :=
  Z.abs (Tstart t) < 2 ^ 51 /\ Z.abs (Tother t) < 2 ^ 51 /\
  Z.abs (Tend t) < 2 ^ 51.

(** Thread zero's loop over the trials with one peer (lines 473-512);
    [obs i] gives the readings of trial [i]. *)
Definition clockTrials (obs : Z -> trial) : statistic :=
  fold_left
    (fun stat i => if i =? 0 then stat else addSample (offsetSample (obs i)) stat)
    (seqZ 0 NumTests) reset.

(** An [int64_t] array together with the log of the stores made into it. *)
Record tracedArray : Set := mkTraced { cells : list Z; writes : list (Z * Z) }.

Definition storeAt (i v : Z) (a : tracedArray) : tracedArray :=
  mkTraced (<[Z.to_nat i := v]> (cells a)) (writes a ++ [(i, v)]).

(** The stores into one cell, picked out of a log. *)
Definition storesTo (t : Z) (log : list (Z * Z)) : list (Z * Z) :=
  filter (fun w => w.1 = t) log.

Definition computeClockOffset (nThreads : Z) (obs : Z -> Z -> trial)
    (offsets : list Z) : tracedArray :=
  fold_left
    (fun a other =>
       storeAt other (Qtrunc (getMean (clockTrials (obs other)))) a)
    (seqZ 1 (nThreads - 1))
    (storeAt 0 0 (mkTraced offsets [])).

(** ** Visibility: [measureVisibilityFrom] (lines 531-614) *)

(** Modelled from the spec: [lomp::tsc_tick_count] (stats-timing.h) is not
    among the sources.  A tick count is an integer reading of the cycle
    counter, [later] picks the later of two readings and the difference of
    two readings is an interval. *)
Definition later (a b : Z) : Z := Z.max a b.

(** Lines 448-456. *)
Definition longestInterval (array : list Z) (n : Z) : Z :=
  let maxVal :=
    fold_left (fun maxVal i => later maxVal (array !!! Z.to_nat i))
      (seqZ 2 (n - 2)) (array !!! 1%nat) in
  maxVal - array !!! 0%nat.

(** What the specification describes: the latest of the corrected arrival times of
    the pollers at positions [1 .. sharing]. *)
Definition latestArrival (array : list Z) (sharing : Z) : Z :=
  fold_left (fun m p => Z.max m (array !!! Z.to_nat p))
    (seqZ 2 (sharing - 1)) (array !!! 1%nat).

Record visState : Set := mkVis {
  stats : list statistic;
  threadTimes : list Z;
  errOut : list string
}.

(** [array[i] = v] for an [int] index: a cell of the array is written only
    when the index is one of the array.  A store at a negative index goes to
    the memory below the array and makes the behaviour of the program
    undefined; [belowArray] tells when a run has such a store. *)
Definition storeCell (i v : Z) (array : list Z) : list Z :=
  if i <? 0 then array else <[Z.to_nat i := v]> array.

(** Some thread of the team has a negative logical position.  Such a thread
    is [polling] for every poller count (line 557) and stores at
    [threadTimes[logicalPos]] (line 578). *)
Definition belowArray (nThreads from : Z) : bool :=
  existsb (fun me => logicalPos me nThreads from <? 0) (seqZ 0 nThreads).

(** First phase of a sample (lines 563-583): [now me] is the reading thread
    [me] takes of its own clock. *)
Definition observePhase (nThreads from sharing : Z) (clockOffset : list Z)
    (now : Z -> Z) (threadTimes : list Z) : list Z :=
  fold_left
    (fun tt me =>
       let logicalPos := logicalPos me nThreads from in
       let myOffset := clockOffset !!! Z.to_nat me in
       match Visibility.whatIDo logicalPos sharing with
       | Visibility.active => <[0%nat := now me]> tt
       | Visibility.polling => storeCell logicalPos (now me + myOffset) tt
       | Visibility.nothing => tt
       end)
    (seqZ 0 nThreads) threadTimes.

(** Second phase, run by the active thread (lines 585-599). *)
Definition recordPhase (sharing : Z) (st : visState) : visState :=
  let elapsed := longestInterval (threadTimes st) sharing in
  if 0 <? elapsed
  then mkVis (alter (addSample (inject_Z elapsed)) (Z.to_nat sharing) (stats st))
             (threadTimes st) (errOut st)
  else st.

Definition visSample (nThreads from sharing : Z) (clockOffset : list Z)
    (now : Z -> Z) (st : visState) : visState :=
  recordPhase sharing
    (mkVis (stats st)
           (observePhase nThreads from sharing clockOffset now (threadTimes st))
           (errOut st)).

(** The sweep over the poller counts, up to the end of the parallel region;
    [now sharing i me] is the reading of thread [me] in sample [i]. *)
Definition visSweep (NumSamples nThreads from : Z) (clockOffset : list Z)
    (now : Z -> Z -> Z -> Z) (st : visState) : visState :=
  fold_left
    (fun st sharing =>
       let st' :=
         fold_left
           (fun st i => visSample nThreads from sharing clockOffset
                          (now sharing i) st)
           (seqZ 0 NumSamples) st in
       mkVis (stats st') (threadTimes st') (errOut st' ++ ["."%string]))
    (seqZ 1 (nThreads - 1)) st.

Section WithMeasurementArraySize.
(** [measurementArraySize] comes from [rawLoadsStores.h], which is not among
    the sources. *)
Variable measurementArraySize : Z.

(** Lines 531-614: the statistics, [threadTimes] and the marks on the
    error output.  (When [belowArray nThreads from] holds the behaviour of
    the code is undefined; what is given then is what the stores that do
    fall into the arrays leave.) *)
Definition measureVisibilityFrom (NumSamples nThreads from : Z)
    (obs : Z -> Z -> trial) (now : Z -> Z -> Z -> Z)
    (threadTimes0 clockOffset0 : list Z) (stats0 : list statistic)
    : visState :=
  let clockOffset := cells (computeClockOffset nThreads obs clockOffset0) in
  let st := visSweep NumSamples nThreads from clockOffset now
              (mkVis stats0 threadTimes0 []) in
  mkVis (forEachIndex (fun _ => scaleDown measurementArraySize)
           (seqZ 1 (nThreads - 1)) (stats st))
        (threadTimes st)
        (errOut st ++ ["\n"%string]).
End WithMeasurementArraySize.

(** ** Round trips: [measureRoundtripFrom] (lines 322-367) *)

Inductive chanOp : Set := release | wait | waitFor (required : bool).

(** A thread as far as timing goes: its clock and the channel operations it
    has completed. *)
Record thread : Set := mkThread { clock : Z; completed : list chanOp }.

(** An operation that takes [d] ticks. *)
Definition perform (d : Z) (o : chanOp) (t : thread) : thread :=
  mkThread (clock t + d) (completed t ++ [o]).

(** What a [BlockTimer] block did, and the ticks it took. *)
Record timedBlock : Set := mkBlock { body : list chanOp; elapsed : Z }.

(** Modelled from the spec: a [lomp::BlockTimer] reads the clock when the
    block is entered and when it is left; [elapsed] is the difference and
    [body] what the thread completed in between. *)
Definition timed (block : thread -> thread) (t : thread)
    : thread * timedBlock :=
  let t' := block t in
  (t', mkBlock (drop (length (completed t)) (completed t'))
               (clock t' - clock t)).

(** The source thread during a call: itself, the timed blocks it has run,
    each with the peer it was run for, and the statistics. *)
Record sourceRun : Set := mkRun {
  self : thread;
  timedBlocks : list (Z * timedBlock);
  runStats : list statistic
}.

(** What the specification calls the raw burst elapsed time: the time the
    [K] calls of [release] and the call of [waitFor] take together, when
    operation [j] of the burst takes [dur j] ticks. *)
Definition burstTime (K : Z) (dur : Z -> Z) : Z :=
  foldr Z.add 0 (dur <$> seqZ 0 (K + 1)).

Section WithInnerReps.
(** [int const innerReps = 20;] in [measureRoundtripFrom]. *)
Variable innerReps : Z.

(** Lines 345-347: the burst of the source thread; operation [j] takes
    [dur j] ticks, the [waitFor] being operation [innerReps]. *)
Definition pingBurst (dur : Z -> Z) (t : thread) : thread :=
  perform (dur innerReps) (waitFor false)
    (fold_left (fun t j => perform (dur j) release t) (seqZ 0 innerReps) t).

(** Lines 353-354: the peer consumes the burst. *)
Definition pongBurst (dur : Z -> Z) (t : thread) : thread :=
  fold_left (fun t j => perform (dur j) wait t) (seqZ 0 innerReps) t.

(** Lines 343-347: one sample with peer [other]. *)
Definition sample (other : Z) (dur : Z -> Z) (r : sourceRun) : sourceRun :=
  let '(t, b) := timed (pingBurst dur) (self r) in
  mkRun t (timedBlocks r ++ [(other, b)])
    (alter (BlockTimer (elapsed b)) (Z.to_nat other) (runStats r)).

(** Lines 337-358, in the thread whose number is [source]:
    [dur other i j] is the time operation [j] of sample [i] with peer
    [other] takes. *)
Definition roundtripSamples (NumSamples nThreads source : Z)
    (dur : Z -> Z -> Z -> Z) (r : sourceRun) : sourceRun :=
  fold_left
    (fun r other =>
       if other =? source then r
       else fold_left (fun r i => sample other (dur other i) r)
              (seqZ 0 NumSamples) r)
    (seqZ 0 nThreads) r.

(** Lines 322-367.  When no thread of the team is [source], nobody
    allocates the channel: [chanp] stays null and thread 0, which is
    [other] in the first turn of the loop, calls [chan->wait()] through it
    (line 354).  The behaviour is then undefined and there is no result. *)
Definition measureRoundtripFrom (NumSamples nThreads source : Z)
    (dur : Z -> Z -> Z -> Z) (stats : list statistic) : option sourceRun :=
  let start := mkRun (mkThread 0 []) [] stats in
  let finish r :=
    mkRun (self r) (timedBlocks r)
      (forEachIndex (fun _ => scaleDown (2 * innerReps)) (seqZ 0 nThreads)
         (runStats r)) in
  if inTeam nThreads source
  then Some (finish (roundtripSamples NumSamples nThreads source dur start))
  else if (0 <? nThreads) && (0 <? NumSamples) && (0 <? innerReps)
  then None
  else Some (finish start).
End WithInnerReps.

(** ** The process: output, allocation and termination *)

Local Open Scope string_scope.
Local Open Scope Z_scope.

Inductive stream : Set := Stdout | Stderr.

Inductive operation : Set := doLoads | doStores | doAtomicIncs.
Inductive channelClass : Set := syncOnlyChannel | atomicSyncOnlyChannel.

(** One configuration of a measurement: its [NumSamples] samples are taken. *)
Inductive measurement : Set :=
| MMemory (op : operation) (thread : Z)
| MWrites (d : Z)
| MPlacement (op : operation) (modified : bool) (from placement : Z)
    (allocateInT0 : bool)
| MSharing (op : operation) (modified : bool) (from sharing : Z)
| MRoundtrip (chan : channelClass) (source other : Z)
| MLinePlacement (otherThread chanIdx : Z)
| MVisibility (from sharing : Z).

(** Arguments of a [printf]: numbers, strings, the machine's name, the date
    and a formatted statistic. *)
Inductive arg : Set :=
| AInt (z : Z)
| AStr (s : string)
| ATargetName
| ADateTime
| AStat (line : bool) (i : Z).

Inductive event : Set :=
| Print (s : stream) (fmt : string) (args : list arg)
| Help
| Samples (m : measurement).

(** How the process ends: [main] returns, [exit] is called, or an exception
    nobody catches ([std::bad_alloc] of [new]) reaches [std::terminate]; or
    how it fails to end: a thread waits for a release that nobody makes
    ([Hang]), or the program leaves the language, by a call through a null
    pointer or a store outside an array ([Undefined]). *)
Inductive termination : Set :=
| Return (status : Z)
| Exit (status : Z)
| Terminate
| Hang
| Undefined.

Inductive allocSite : Set :=
| MeasurementArray | PlacementArray | RoundtripChannel | BroadcastLine.

(** What the platform decides. *)
Record Env : Set := mkEnv {
  affinityFails : Z -> bool;      (* [sched_setaffinity] fails for a thread *)
  newFails : allocSite -> bool;   (* [new] throws at this site *)
  misaligned : allocSite -> Z -> bool;
  mallocFails : bool;             (* [malloc(2 * PAGE_SIZE)] returns null *)
  numChannels : Z                 (* [PAGE_SIZE / sizeof(syncOnlyChannel)] *)
}.

(** Computations that write output and may end the process. *)
Definition M (A : Type) : Type := (list event * (A + termination))%type.

#[global] Instance M_ret : MRet M := fun A a => ([], inl a).

#[global] Instance M_bind : MBind M := fun A B f m =>
  match m with
  | (out, inl a) => let '(out', r) := f a in ((out ++ out')%list, r)
  | (out, inr t) => (out, inr t)
  end.

Definition emit (e : event) : M unit := ([e], inl tt).
Definition halt {A : Type} (t : termination) : M A := ([], inr t).
Definition printf (fmt : string) (args : list arg) : M unit :=
  emit (Print Stdout fmt args).
Definition eprintf (fmt : string) (args : list arg) : M unit :=
  emit (Print Stderr fmt args).
Definition when (b : bool) (m : M unit) : M unit := if b then m else mret tt.

Fixpoint forM_ {A : Type} (l : list A) (f : A -> M unit) : M unit :=
  match l with
  | [] => mret tt
  | x :: l => f x ;; forM_ l f
  end.

(** [s[i]] of a C string: the terminating NUL sits at index [length s]. *)
Definition charAt (s : string) (i : nat) : ascii :=
  match String.get i s with Some c => c | None => "000"%char end.

Definition isspace (c : ascii) : bool :=
  let n := nat_of_ascii c in (n =? 32)%nat || ((9 <=? n)%nat && (n <=? 13)%nat).

Definition isdigit (c : ascii) : bool :=
  let n := nat_of_ascii c in (48 <=? n)%nat && (n <=? 57)%nat.

Fixpoint skipSpace (s : string) : string :=
  match s with
  | String c r => if isspace c then skipSpace r else s
  | EmptyString => s
  end.

Fixpoint digitsValue (acc : Z) (s : string) : Z :=
  match s with
  | String c r =>
      if isdigit c
      then digitsValue (10 * acc + (Z.of_nat (nat_of_ascii c) - 48)) r
      else acc
  | EmptyString => acc
  end.

(** [strtol(s, NULL, 10)] of the C library: the value of the digits, kept
    within the range of a 64-bit [long]. *)
Definition strtol (s : string) : Z :=
  let v := match skipSpace s with
           | String "-" r => - digitsValue 0 r
           | String "+" r => digitsValue 0 r
           | r => digitsValue 0 r
           end in
  Z.max (- 2 ^ 63) (Z.min (2 ^ 63 - 1) v).

(** [atoi] as the C library of the Linux target has it:
    [(int) strtol(s, NULL, 10)], the conversion keeping the low 32 bits. *)
Definition atoi (s : string) : Z := int_wrap (strtol s).

Module Driver.

(** Lines 35-46, once per thread of the team. *)
Definition forceAffinity (env : Env) (nThreads : Z) : M unit :=
  forM_ (seqZ 0 nThreads) (fun me =>
    when (affinityFails env me)
      (eprintf "Failed to force affinity for thread %d\n" [AInt me])).

(** A [new] expression: on failure the exception is not caught. *)
Definition new_ (env : Env) (site : allocSite) : M unit :=
  if newFails env site then halt Terminate else mret tt.

(** Lines 93-98. *)
Definition checkCacheAligned (env : Env) (site : allocSite) (i : Z) : M unit :=
  when (misaligned env site i)
    (eprintf "Array is not aligned as required\n" [] ;; halt (Exit 1)).

Definition printHelp : M unit := emit Help.

(** Lines 661-669; [line] tells which array of statistics is printed. *)
Definition printStats (line : bool) (base count offset : Z) : M unit :=
  forM_ (seqZ 0 count) (fun i =>
    printf "%6d, %s\n" [AInt (i + offset); AStat line (base + i)]).

Definition measureMemory (op : operation) (thread : Z) : M unit :=
  emit (Samples (MMemory op thread)).

Definition measureWrites : M unit :=
  forM_ (seqZ 1 31) (fun d =>
    emit (Samples (MWrites d)) ;; eprintf "." []) ;;
  eprintf "\n" [].

(** Lines 174-243.  When no thread of the team is [from], nobody allocates
    and nobody is the active thread: in the first turn of the loop thread 0
    is [placement] and waits in [activeToPassive.wait()] (line 221) for a
    release that no thread makes, so the call never returns.  ([NumSamples]
    is 10000 or 2500, and a team has a thread 0.) *)
Definition measurePlacementFrom (env : Env) (nThreads : Z) (op : operation)
    (modified : bool) (from : Z) (allocateInT0 : bool) : M unit :=
  if negb (inTeam nThreads from) then halt Hang
  else
    when (negb allocateInT0)
      (new_ env PlacementArray ;; checkCacheAligned env PlacementArray 0) ;;
    forM_ (seqZ 0 nThreads) (fun placement =>
      when (negb (placement =? from))
        (emit (Samples (MPlacement op modified from placement allocateInT0)) ;;
         eprintf "." [])) ;;
    eprintf "\n" [].

Definition measureSharingFrom (env : Env) (nThreads : Z) (op : operation)
    (modified : bool) (from : Z) (_ : bool) : M unit :=
  forM_ (seqZ 1 (nThreads - 1)) (fun sharing =>
    emit (Samples (MSharing op modified from sharing)) ;; eprintf "." []) ;;
  eprintf "\n" [].

(** Lines 322-367.  When no thread of the team is [source], [chanp] stays
    null and thread 0 calls [chan->wait()] through it (line 354). *)
Definition measureRoundtripFrom (chan : channelClass) (env : Env)
    (nThreads source : Z) : M unit :=
  if negb (inTeam nThreads source) then halt Undefined
  else
    new_ env RoundtripChannel ;;
    forM_ (seqZ 0 nThreads) (fun other =>
      when (negb (other =? source))
        (emit (Samples (MRoundtrip chan source other)) ;; eprintf "." [])) ;;
    eprintf "\n" [].

(** Lines 369-383; the result tells whether a page was obtained. *)
Definition allocatePageOfChannels (env : Env) : M bool :=
  if mallocFails env
  then eprintf "Cannot allocate a page\n" [] ;; mret false
  else mret true.

(** Lines 392-437.  [page] is the function's [static] pointer: [true] once
    it holds a page; the result is its value when the function returns. *)
Definition measureLinePlacement (env : Env) (page : bool) (otherThread : Z)
    : M bool :=
  page ← (if page then mret true else allocatePageOfChannels env) ;
  if negb page then mret false
  else
    forM_ (reverse (seqZ 0 (numChannels env))) (fun chanIdx =>
      emit (Samples (MLinePlacement otherThread chanIdx)) ;;
      eprintf "." []) ;;
    eprintf "\n" [] ;;
    mret true.

(** Lines 531-614.  The line is allocated by the thread at position 0,
    which every [from] gives one.  A thread at a negative position then
    stores below [threadTimes] in the first sample (line 578). *)
Definition measureVisibilityFrom (env : Env) (nThreads from : Z) : M unit :=
  new_ env BroadcastLine ;;
  if belowArray nThreads from then halt Undefined
  else
    forM_ (seqZ 1 (nThreads - 1)) (fun sharing =>
      emit (Samples (MVisibility from sharing)) ;; eprintf "." []) ;;
    eprintf "\n" [].

End Driver.

(** ** [main] (lines 677-1018) *)

(** [argv[i]]. *)
Definition argvAt (argv : list string) (i : nat) : string :=
  nth i argv EmptyString.

Definition opName (op : operation) : string :=
  match op with
  | doLoads => "Load"
  | doStores => "Store"
  | doAtomicIncs => "Atomic Inc"
  end.

Definition placementSharingHeader : string :=
  "%s\n%s, %s, %s, %s, Active %d\n# %s\n%s,  Samples,       Min,      Mean,       Max,        SD\n".

Definition roundtripHeader : string :=
  "Half Round Trip\nFrom %d, %s, %s, %s\n# %s\nPosition,  Samples,       Min,      Mean,       Max,        SD\n".

Definition visibilityHeader : string :=
  "Visibility\nFrom %d, %s\n# %s\nPollers,  Samples,       Min,      Mean,       Max,        SD\n".

Definition linePlacementHeader : string :=
  "Line Placement (half round trip)\n%s,run %d\n# %s# Pinging core %d\nLine Index,  Samples,       Min,      Mean,       Max,        SD\n".

Definition memoryHeader : string :=
  "Memory Latency\n%s\n# %s\nOperation, Samples,       Min,      Mean,       Max,        SD\n".

Definition writesHeader : string :=
  "Time for N writes\n%s\n# %s\nNumber of writes, Samples,       Min,      Mean,       Max,        SD\n".

(** [case 'L'] (lines 746-768): one warm-up run, then five printed runs.  The
    [static] page pointer of [measureLinePlacement] is threaded through. *)
Fixpoint linePlacementRuns (env : Env) (testThread : Z) (runs : list Z)
    (page : bool) : M unit :=
  match runs with
  | [] => mret tt
  | i :: runs =>
      page ← Driver.measureLinePlacement env page testThread ;
      when (negb (i =? 0)) (printf "### NEW EXPERIMENT ###\n" []) ;;
      printf linePlacementHeader
        [ATargetName; AInt (i + 1); ADateTime; AInt testThread] ;;
      Driver.printStats true 0 (numChannels env) 0 ;;
      linePlacementRuns env testThread runs page
  end.

Definition caseL (env : Env) (nThreads : Z) : M (Z * Z) :=
  let testThread := nThreads - 1 in
  page ← Driver.measureLinePlacement env false testThread ;
  linePlacementRuns env testThread (seqZ 0 5) page ;;
  halt (Return 0).

(** [case 'M'] (lines 770-794). *)
Definition caseM (nThreads : Z) : M (Z * Z) :=
  Driver.measureMemory doLoads 0 ;;
  Driver.measureMemory doStores 0 ;;
  Driver.measureMemory doLoads (nThreads - 1) ;;
  Driver.measureMemory doStores (nThreads - 1) ;;
  printf memoryHeader [ATargetName; ADateTime] ;;
  printf "Load,  %s\n" [AStat false 0] ;;
  printf "Store, %s\n" [AStat false 1] ;;
  printf "Remote Load, %s\n" [AStat false 2] ;;
  printf "Remote Store, %s\n" [AStat false 3] ;;
  halt (Return 0).

(** [case 'N'] (lines 796-807). *)
Definition caseN : M (Z * Z) :=
  eprintf "###BEWARE the write test doesn't seem to work###\n" [] ;;
  printf writesHeader [ATargetName; ADateTime] ;;
  Driver.measureWrites ;;
  mret (1, 31).

(** [case 'P': case 'S':] (lines 809-909). *)
Definition casePS (env : Env) (nThreads : Z) (argv : list string)
    : M (Z * Z) :=
  let argc := Z.of_nat (length argv) in
  let argv1 := argvAt argv 1 in
  let isPlacement := Ascii.eqb (charAt argv1 0) "P" in
  let ExperimentName := if isPlacement then "Placement" else "Sharing" in
  let measureFn :=
    if isPlacement then Driver.measurePlacementFrom
    else Driver.measureSharingFrom in
  op ← (let c := charAt argv1 1 in
        if Ascii.eqb c "r" then mret doLoads
        else if Ascii.eqb c "w" then mret doStores
        else if Ascii.eqb c "a" then mret doAtomicIncs
        else printf "*** Unknown second character in %s\n" [AStr argv1] ;;
             Driver.printHelp ;; halt (Return 1)) ;
  modified ← (let c := charAt argv1 2 in
              if Ascii.eqb c "u" then mret false
              else if Ascii.eqb c "m" then mret true
              else printf "*** Unkown third character in %s\n" [AStr argv1] ;;
                   Driver.printHelp ;; halt (Return 1)) ;
  let allocateInT0 :=
    isPlacement && (4 <=? String.length argv1)%nat
    && Ascii.eqb (charAt argv1 3) "0" in
  let from := if 2 <? argc then atoi (argvAt argv 2) else 0 in
  let header from :=
    printf placementSharingHeader
      [AStr ExperimentName; ATargetName; AStr (opName op);
       AStr (if modified : bool then "modified" else "unmodified");
       AStr (if allocateInT0 then "allocate(0)" else "allocate(n)");
       AInt from; ADateTime; AStr ExperimentName] in
  if from <? 0 then
    forM_ (seqZ 0 nThreads) (fun from =>
      measureFn env nThreads op modified from allocateInT0 ;;
      when (negb (from =? 0)) (printf "### NEW EXPERIMENT ###\n" []) ;;
      header from ;;
      forM_ (seqZ 0 nThreads) (fun i =>
        when (negb (if isPlacement then i =? from else i =? 0))
          (printf "%d, %s\n" [AInt i; AStat false i]))) ;;
    halt (Return 0)
  else
    measureFn env nThreads op modified from allocateInT0 ;;
    header from ;;
    mret (1, nThreads - 1).

(** [case 'R'] (lines 911-965). *)
Definition caseR (env : Env) (nThreads : Z) (argv : list string)
    : M (Z * Z) :=
  let argc := Z.of_nat (length argv) in
  let argv1 := argvAt argv 1 in
  let from := if 2 <? argc then atoi (argvAt argv 2) else 0 in
  let atomic := Ascii.eqb (charAt argv1 1) "a" in
  let chan := if atomic then atomicSyncOnlyChannel else syncOnlyChannel in
  let storeName := if atomic then "Atomic" else "Write" in
  let header from :=
    printf roundtripHeader
      [AInt from; ATargetName; AStr storeName; AStr "Yield"; ADateTime] in
  if from <? 0 then
    forM_ (seqZ 0 nThreads) (fun from =>
      Driver.measureRoundtripFrom chan env nThreads from ;;
      when (negb (from =? 0)) (printf "### NEW EXPERIMENT ###\n" []) ;;
      header from ;;
      forM_ (seqZ 0 nThreads) (fun i =>
        when (negb (i =? from)) (printf "%d, %s\n" [AInt i; AStat false i]))) ;;
    halt (Return 0)
  else
    Driver.measureRoundtripFrom chan env nThreads from ;;
    header from ;;
    mret (0, nThreads).

(** [case 'V'] (lines 967-1010). *)
Definition caseV (env : Env) (nThreads : Z) (argv : list string)
    : M (Z * Z) :=
  let argc := Z.of_nat (length argv) in
  let from := if 2 <? argc then atoi (argvAt argv 2) else 0 in
  let header from :=
    printf visibilityHeader [AInt from; ATargetName; ADateTime] in
  if from <? 0 then
    forM_ (seqZ 0 nThreads) (fun from =>
      Driver.measureVisibilityFrom env nThreads from ;;
      when (negb (from =? 0)) (printf "### NEW EXPERIMENT ###\n" []) ;;
      header from ;;
      forM_ (seqZ 1 (nThreads - 1)) (fun i =>
        printf "%d, %s\n" [AInt i; AStat false i])) ;;
    halt (Return 0)
  else
    Driver.measureVisibilityFrom env nThreads from ;;
    header from ;;
    mret (1, nThreads - 1).

(** [main] up to the [switch] (lines 678-735): the checks of the thread
    count and of the argument count, the binding of the threads and the
    allocation of the measurement array.  [nThreads] is
    [omp_get_max_threads()] and [argv] holds the [argc] arguments, the
    program's name first. *)
Definition startup (env : Env) (nThreads : Z) (argv : list string) : M unit :=
  let argc := Z.of_nat (length argv) in
  when (MAX_THREADS <? nThreads)
    (printf "%d threads available, increase MAX_THREADS (%d)\n"
       [AInt nThreads; AInt MAX_THREADS] ;;
     halt (Return 1)) ;;
  when (nThreads <? 2)
    (printf "Need more than one thread\n" [] ;; halt (Return 1)) ;;
  when (argc <? 2)
    (printf "Need an argument\n" [] ;; Driver.printHelp ;; halt (Return 1)) ;;
  Driver.forceAffinity env nThreads ;;
  Driver.new_ env MeasurementArray ;;
  Driver.checkCacheAligned env MeasurementArray 0 ;;
  Driver.checkCacheAligned env MeasurementArray 1.

(** The [switch (argv[1][0])] (lines 745-1015); a case that leaves the
    [switch] yields [IdxOffset] and [numStats]. *)
Definition experiment (env : Env) (nThreads : Z) (argv : list string)
    : M (Z * Z) :=
  let c := charAt (argvAt argv 1) 0 in
  if Ascii.eqb c "L" then caseL env nThreads
  else if Ascii.eqb c "M" then caseM nThreads
  else if Ascii.eqb c "N" then caseN
  else if Ascii.eqb c "P" || Ascii.eqb c "S" then casePS env nThreads argv
  else if Ascii.eqb c "R" then caseR env nThreads argv
  else if Ascii.eqb c "V" then caseV env nThreads argv
  else printf "Unknown experiment\n" [] ;;
       Driver.printHelp ;; halt (Return 1).

Definition mainBody (env : Env) (nThreads : Z) (argv : list string) : M unit :=
  startup env nThreads argv ;;
  '(IdxOffset, numStats) ← experiment env nThreads argv ;
  Driver.printStats false IdxOffset numStats IdxOffset ;;
  halt (Return 0).

(** What the process wrote and how it ended. *)
Definition main (env : Env) (nThreads : Z) (argv : list string)
    : list event * termination :=
  match mainBody env nThreads argv with
  | (out, inr t) => (out, t)
  | (out, inl _) => (out, Return 0)
  end.

(** A platform on which threads bind, [new] succeeds and arrays are aligned;
    a page holds 64 channels. *)
Definition plainEnv (mallocFails : bool) : Env :=
  mkEnv (fun _ => false) (fun _ => false) (fun _ _ => false) mallocFails 64.

(** ** Reading a run *)

(** [m] returns [a] having written only events that satisfy [P]. *)
Definition returns {A : Type} (P : event -> Prop) (m : M A) (a : A) : Prop :=
  exists out, m = (out, inl a) /\ Forall P out.

(** [m] ends the process with [t] having written only events that satisfy
    [P]. *)
Definition ends {A : Type} (P : event -> Prop) (m : M A) (t : termination)
    : Prop :=
  exists out, m = (out, inr t) /\ Forall P out.

(** The warning of [forceAffinity]. *)
Definition affinityWarning (e : event) : Prop :=
  exists me, e = Print Stderr "Failed to force affinity for thread %d\n" [AInt me].

(** The messages [main] prints for a configuration it rejects. *)
Definition configDiagnostics : list string :=
  ["%d threads available, increase MAX_THREADS (%d)\n";
   "Need more than one thread\n";
   "Need an argument\n";
   "Unknown experiment\n";
   "*** Unknown second character in %s\n";
   "*** Unkown third character in %s\n"].

(** Selectors that [main] does not know. *)
Definition unknownExperiment (c : ascii) : Prop :=
  ~ In c ["L"; "M"; "N"; "P"; "S"; "R"; "V"]%char.

Definition unknownOperation (c : ascii) : Prop := ~ In c ["r"; "w"; "a"]%char.

Definition unknownLineState (c : ascii) : Prop := ~ In c ["u"; "m"]%char.

(** The configurations [main] rejects: a thread count out of range, no
    argument, an experiment letter it does not know and, for placement and
    sharing, an operation or line-state letter it does not know. *)
Definition configError (nThreads : Z) (argv : list string) : Prop :=
  let argv1 := argvAt argv 1 in
  MAX_THREADS < nThreads \/ nThreads < 2 \/ (length argv < 2)%nat \/
  unknownExperiment (charAt argv1 0) \/
  (In (charAt argv1 0) ["P"; "S"]%char /\
   (unknownOperation (charAt argv1 1) \/ unknownLineState (charAt argv1 2))).

(** The errors [main] finds before it binds threads or allocates. *)
Definition earlyError (nThreads : Z) (argv : list string) : Prop :=
  MAX_THREADS < nThreads \/ nThreads < 2 \/ (length argv < 2)%nat.

(** The measurement array is allocated and aligned, so that [main] reaches
    its [switch]. *)
Definition startupOk (env : Env) : Prop :=
  newFails env MeasurementArray = false /\
  misaligned env MeasurementArray 0 = false /\
  misaligned env MeasurementArray 1 = false.

(** No sample is taken by this event. *)
Definition notSamples (e : event) : Prop := forall m, e <> Samples m.

(** The process ended for a reason other than success. *)
Definition fatal (t : termination) : Prop := t <> Return 0.

(** Tactics that settle comparisons of characters. *)
Ltac decide_eqb :=
  repeat match goal with
    | |- context [Ascii.eqb ?x ?y] =>
        first [ rewrite (proj2 (Ascii.eqb_neq x y)) by discriminate
              | rewrite (Ascii.eqb_refl x) ]
    end.

Ltac absent_eqb c H :=
  repeat match goal with
    | |- context [Ascii.eqb c ?x] =>
        rewrite (proj2 (Ascii.eqb_neq c x))
          by (let Heq := fresh in intros Heq; apply H; rewrite Heq; simpl; tauto)
    end.

(** * Further parts of the program *)

Local Close Scope string_scope.

(** ** Cache-line cells: [alignedUint32] (lines 53-78) *)

Definition uint32_wrap (z : Z) : Z := z mod 2 ^ 32.

(** The [std::atomic<uint32_t>] a cell holds. *)
Record alignedUint32 : Set := mkCell { value : Z }.

Module Cell.
(** [alignedUint32() : value(0) {}] *)
Definition init : alignedUint32 := mkCell 0.

Definition load (c : alignedUint32) : Z := value c.

(** [store], [storeRelease] and [operator=] differ in their memory order
    only; the argument is converted to [uint32_t]. *)
Definition store (v : Z) (c : alignedUint32) : alignedUint32 :=
  mkCell (uint32_wrap v).

(** [value += 1] *)
Definition atomicInc (c : alignedUint32) : alignedUint32 :=
  mkCell (uint32_wrap (value c + 1)).
End Cell.

(** ** Addresses: [checkCacheAligned] and [allocatePageOfChannels] *)

(** Reduction of a value to a [uintptr_t] (64 bits). *)
Definition uintptr_wrap (z : Z) : Z := z mod 2 ^ 64.

(** Line 94: [(uintptr_t(p) & (CACHELINE_SIZE - 1)) != 0] is the failure of
    this test.  [CACHELINE_SIZE] comes from [target.h], which is not among the
    sources. *)
Definition cacheAligned (CACHELINE_SIZE p : Z) : bool :=
  Z.land (uintptr_wrap p) (CACHELINE_SIZE - 1) =? 0.

(** Lines 93-98, on the address itself. *)
Definition checkCacheAligned (CACHELINE_SIZE p : Z) : M unit :=
  when (negb (cacheAligned CACHELINE_SIZE p))
    (eprintf "Array is not aligned as required\n" [] ;; halt (Exit 1)).

(** Lines 375-376: [(space + PAGE_SIZE - 1) & ~(PAGE_SIZE - 1)] in
    [uintptr_t].  [PAGE_SIZE] comes from [target.h], which is not among the
    sources; it is taken to be a constant of type [int], [long] or a 64-bit
    unsigned type, so that the complement reaches all 64 bits. *)
Definition pageOf (PAGE_SIZE space : Z) : Z :=
  Z.land (uintptr_wrap (space + PAGE_SIZE - 1))
         (uintptr_wrap (Z.lnot (PAGE_SIZE - 1))).

(** Lines 378-380: the addresses of the channels that are initialised;
    [channelSize] is [sizeof(syncOnlyChannel)] ([channel.h] is not among the
    sources). *)
Definition channelsOfPage (PAGE_SIZE channelSize page : Z) : list Z :=
  (fun i => page + i * channelSize) <$> seqZ 0 (PAGE_SIZE / channelSize).

(** Lines 369-383: [space] is what [malloc(2 * PAGE_SIZE)] returned, 0 for a
    null pointer; the result is the page and the channels initialised. *)
Definition allocatePageOfChannels (PAGE_SIZE channelSize space : Z)
    : M (option (Z * list Z)) :=
  if space =? 0
  then eprintf "Cannot allocate a page\n" [] ;; mret None
  else let page := pageOf PAGE_SIZE space in
       mret (Some (page, channelsOfPage PAGE_SIZE channelSize page)).

(** ** [delay] (lines 439-445) *)

(** The [while] loop: [readings] are the successive values of
    [tsc_tick_count::now()]; the result is the reading at which the loop
    ends and the readings not yet consumed, or nothing when the readings run
    out first. *)
Fixpoint delayLoop (end_ : Z) (readings : list Z) : option (Z * list Z) :=
  match readings with
  | [] => None
  | r :: readings =>
      if r <? end_ then delayLoop end_ readings else Some (r, readings)
  end.

Definition delay (ticks : Z) (readings : list Z) : option (Z * list Z) :=
  match readings with
  | [] => None
  | start :: readings => delayLoop (start + uint32_wrap ticks) readings
  end.

(** ** The phases of a sharing sample (lines 265-307) *)

Inductive cacheOp : Set :=
| Flush                       (* [flushMeasurementArray] *)
| Touch (op : operation)      (* [doStores] or [doLoads], untimed *)
| Timed (op : operation).     (* the operation under a [BlockTimer] *)

(** What a thread does between the barriers of one sample, by its role. *)
Definition sharingPhases (modified : bool) (op : operation)
    (whatIDo : Sharing.role) : list (option cacheOp) :=
  [ match whatIDo with Sharing.active => Some Flush | _ => None end;
    match whatIDo with
    | Sharing.setupOwner => Some (Touch (if modified then doStores else doLoads))
    | _ => None
    end;
    match whatIDo with Sharing.setup => Some (Touch doLoads) | _ => None end;
    match whatIDo with Sharing.active => Some (Timed op) | _ => None end ].

(** The phases of thread [me]. *)
Definition sharingThread (nThreads from sharing : Z) (modified : bool)
    (op : operation) (me : Z) : list (option cacheOp) :=
  sharingPhases modified op
    (Sharing.whatIDo (logicalPos me nThreads from) sharing).

(** The thread brings the array into its cache in a set-up phase. *)
Definition touches (phases : list (option cacheOp)) : bool :=
  match phases with
  | [_; Some (Touch _); _; _] | [_; _; Some (Touch _); _] => true
  | _ => false
  end.

Section Protocols.
Variable measurementArraySize : Z.

(** [measureMemory] (lines 123-134): [ticks i] is what the clock gives for
    sample [i]. *)
Definition measureMemory (NumSamples : Z) (ticks : Z -> Z) (stat : statistic)
    : statistic :=
  scaleDown measurementArraySize
    (fold_left (fun st i => BlockTimer (ticks i) st) (seqZ 0 NumSamples) stat).

(** [measureSharingFrom] (lines 245-319): the samples are timed by the
    active thread; [ticks sharing i] is what the clock gives for sample
    [i]. *)
Definition sharingSamples (NumSamples nThreads : Z) (ticks : Z -> Z -> Z)
    (stats : list statistic) : list statistic :=
  fold_left
    (fun st sharing =>
       fold_left
         (fun st i => alter (BlockTimer (ticks sharing i)) (Z.to_nat sharing) st)
         (seqZ 0 NumSamples) st)
    (seqZ 1 (nThreads - 1)) stats.

Definition measureSharingFrom (NumSamples nThreads : Z) (ticks : Z -> Z -> Z)
    (stats : list statistic) : list statistic :=
  forEachIndex (fun _ => scaleDown measurementArraySize) (seqZ 0 nThreads)
    (sharingSamples NumSamples nThreads ticks stats).

(** Lines 199-232, in the thread whose number is [from]. *)
Definition placementSamples (NumSamples nThreads from : Z)
    (ticks : Z -> Z -> Z) (stats : list statistic) : list statistic :=
  fold_left
    (fun st placement =>
       if placement =? from then st
       else fold_left
              (fun st i =>
                 alter (BlockTimer (ticks placement i)) (Z.to_nat placement) st)
              (seqZ 0 NumSamples) st)
    (seqZ 0 nThreads) stats.

(** [measurePlacementFrom] (lines 174-243).  When no thread of the team is
    [from], thread 0 waits in [activeToPassive.wait()] (line 221) for a
    release that no thread makes: the call does not return and there is no
    result. *)
Definition measurePlacementFrom (NumSamples nThreads from : Z)
    (ticks : Z -> Z -> Z) (stats : list statistic)
    : option (list statistic) :=
  let finish :=
    forEachIndex (fun _ => scaleDown measurementArraySize) (seqZ 0 nThreads) in
  if inTeam nThreads from
  then Some (finish (placementSamples NumSamples nThreads from ticks stats))
  else if (0 <? nThreads) && (0 <? NumSamples) then None
  else Some (finish stats).
End Protocols.

(** [measureLinePlacement] (lines 402-436), once the page is there: thread 0
    goes through the channels from the last to the first, resets the
    statistic of each and times [NumSamples] bursts on it.
    [int const innerReps = 10;] *)
Definition lineInnerReps : Z := 10.

Definition lineSamples (NumSamples numChannels : Z) (ticks : Z -> Z -> Z)
    (stats : list statistic) : list statistic :=
  fold_left
    (fun st chanIdx =>
       fold_left
         (fun st i => alter (BlockTimer (ticks chanIdx i)) (Z.to_nat chanIdx) st)
         (seqZ 0 NumSamples)
         (alter (fun _ => reset) (Z.to_nat chanIdx) st))
    (reverse (seqZ 0 numChannels)) stats.

(** Lines 392-437.  [page] is the function's [static] pointer as the call
    finds it and [space] what [malloc] returns if it is called; the result
    is the pointer as the call leaves it and the statistics. *)
Definition measureLinePlacement (PAGE_SIZE channelSize NumSamples : Z)
    (ticks : Z -> Z -> Z) (page space : Z) (stats : list statistic)
    : M (Z * list statistic) :=
  page ← (if page =? 0
          then got ← allocatePageOfChannels PAGE_SIZE channelSize space ;
               mret (match got with Some (p, _) => p | None => 0 end)
          else mret page) ;
  if page =? 0 then mret (page, stats)
  else
    let numChannels := PAGE_SIZE / channelSize in
    forM_ (reverse (seqZ 0 numChannels)) (fun _ => eprintf "." []) ;;
    eprintf "\n" [] ;;
    mret (page,
          forEachIndex (fun _ => scaleDown (2 * lineInnerReps))
            (seqZ 0 numChannels)
            (lineSamples NumSamples numChannels ticks stats)).

(** ** Reading the visibility protocol *)

(** What thread [me] does in the first phase of a sample: the body of the
    loop of [observePhase]. *)
Definition observeStep (nThreads from sharing : Z) (clockOffset : list Z)
    (now : Z -> Z) (tt : list Z) (me : Z) : list Z :=
  let logicalPos := logicalPos me nThreads from in
  let myOffset := clockOffset !!! Z.to_nat me in
  match Visibility.whatIDo logicalPos sharing with
  | Visibility.active => <[0%nat := now me]> tt
  | Visibility.polling => storeCell logicalPos (now me + myOffset) tt
  | Visibility.nothing => tt
  end.

(** Statistic [k] of [new] is that of [old] with at most [n] samples added,
    all of them strictly positive; the other statistics are those of
    [old]. *)
Definition grewBy (n k : nat) (old new : list statistic) : Prop :=
  length new = length old /\
  (forall j, j <> k -> new !! j = old !! j) /\
  (forall s, old !! k = Some s ->
     exists extra, new !! k = Some (mkStat (samples s ++ extra)) /\
       Forall (fun x => 0 < x)%Q extra /\ (length extra <= n)%nat).

(** ** Reading the events of a run *)

(** Every allocation with [new] succeeds and the local placement array is
    aligned. *)
Definition allocationsOk (env : Env) : Prop :=
  (forall site, newFails env site = false) /\
  misaligned env PlacementArray 0 = false.

(** The measurements of this run use channel class [chan] and nothing but
    round trips is measured. *)
Definition roundtripOn (chan : channelClass) (e : event) : Prop :=
  match e with
  | Samples (MRoundtrip c _ _) => c = chan
  | Samples _ => False
  | _ => True
  end.

(** The run does not fail: it returns a value or ends with status 0. *)
Definition succeeds {A : Type} (m : M A) : Prop :=
  (exists out a, m = (out, inl a)) \/ (exists out, m = (out, inr (Return 0))).

(** Any event. *)
Definition anyEvent (e : event) : Prop := True.

(** A line of the final report: [printStats] prints statistic [i] under the
    number [i]. *)
Definition reportLine (i : Z) : event :=
  Print Stdout "%6d, %s\n" [AInt i; AStat false i].

(** The run takes samples with active thread [from] and the array placed
    by thread [placement]. *)
Definition sampledPlacement (out : list event) (from placement : Z) : Prop :=
  exists op modified allocateInT0,
    Samples (MPlacement op modified from placement allocateInT0) ∈ out.

(** * Results *)

Local Close Scope string_scope.

(** ** Results about logical positions *)

Lemma int_wrap_small (z : Z) : - 2 ^ 31 <= z < 2 ^ 31 -> int_wrap z = z.
Proof.
  intros Hz. unfold int_wrap.
  rewrite Z.mod_small by lia. lia.
Qed.

(** With the thread counts [main] accepts, no intermediate value leaves the
    range of [int]: the machine expression is the mathematical one. *)
Lemma logicalPos_int_exact (me nThreads from : Z) :
  0 <= me < nThreads -> 0 <= from < nThreads -> nThreads <= MAX_THREADS ->
  logicalPos_int me nThreads from = logicalPos me nThreads from.
Proof.
  unfold MAX_THREADS. intros Hme Hfrom Hmax.
  unfold logicalPos_int, logicalPos.
  rewrite (int_wrap_small (me + nThreads)) by lia.
  rewrite int_wrap_small by lia. reflexivity.
Qed.

Lemma logicalPos_cases (me nThreads from : Z) :
  0 <= me < nThreads -> 0 <= from < nThreads ->
  logicalPos me nThreads from =
    if from <=? me then me - from else me + nThreads - from.
Proof.
  intros Hme Hfrom. unfold logicalPos.
  rewrite Z.rem_mod_nonneg by lia.
  destruct (Z.leb_spec from me) as [Hle | Hlt].
  - replace (me + nThreads - from) with (me - from + 1 * nThreads) by lia.
    rewrite Z.mod_add by lia. apply Z.mod_small. lia.
  - apply Z.mod_small. lia.
Qed.

Lemma logicalPos_range (me nThreads from : Z) :
  0 <= me < nThreads -> 0 <= from < nThreads ->
  0 <= logicalPos me nThreads from < nThreads.
Proof.
  intros Hme Hfrom. rewrite logicalPos_cases by assumption.
  destruct (Z.leb_spec from me); lia.
Qed.

Lemma logicalPos_inj (me1 me2 nThreads from : Z) :
  0 <= me1 < nThreads -> 0 <= me2 < nThreads -> 0 <= from < nThreads ->
  logicalPos me1 nThreads from = logicalPos me2 nThreads from -> me1 = me2.
Proof.
  intros H1 H2 Hfrom. rewrite !logicalPos_cases by assumption.
  destruct (Z.leb_spec from me1), (Z.leb_spec from me2); lia.
Qed.

Lemma threadAt_range (p nThreads from : Z) :
  0 <= p < nThreads -> 0 <= from < nThreads ->
  0 <= threadAt p nThreads from < nThreads.
Proof.
  intros Hp Hfrom. unfold threadAt.
  rewrite Z.rem_mod_nonneg by lia. apply Z.mod_pos_bound. lia.
Qed.

Lemma logicalPos_threadAt (p nThreads from : Z) :
  0 <= p < nThreads -> 0 <= from < nThreads ->
  logicalPos (threadAt p nThreads from) nThreads from = p.
Proof.
  intros Hp Hfrom.
  rewrite logicalPos_cases by (auto using threadAt_range).
  unfold threadAt. rewrite Z.rem_mod_nonneg by lia.
  destruct (Z_lt_ge_dec (p + from) nThreads) as [Hlt | Hge].
  - rewrite Z.mod_small by lia.
    destruct (Z.leb_spec from (p + from)); lia.
  - replace (p + from) with (p + from - nThreads + 1 * nThreads) by lia.
    rewrite Z.mod_add by lia. rewrite Z.mod_small by lia.
    destruct (Z.leb_spec from (p + from - nThreads)); lia.
Qed.

(** C3: for [nThreads > 0] and [0 <= from < nThreads] the logical-position
    map [me |-> (me + nThreads - from) mod nThreads] sends [0, nThreads)
    into [0, nThreads), is injective and surjective there (a bijection),
    and sends the source thread [from] to position 0. *)
Theorem logicalPos_bijection (nThreads from : Z) :
  0 < nThreads -> 0 <= from < nThreads ->
  (forall me, 0 <= me < nThreads ->
     0 <= logicalPos me nThreads from < nThreads) /\
  (forall me1 me2, 0 <= me1 < nThreads -> 0 <= me2 < nThreads ->
     logicalPos me1 nThreads from = logicalPos me2 nThreads from ->
     me1 = me2) /\
  (forall p, 0 <= p < nThreads ->
     exists me, 0 <= me < nThreads /\ logicalPos me nThreads from = p) /\
  logicalPos from nThreads from = 0.
Proof.
  intros Hn Hfrom. repeat split.
  - apply logicalPos_range; assumption.
  - apply logicalPos_range; assumption.
  - intros me1 me2 H1 H2. apply logicalPos_inj; assumption.
  - intros p Hp. exists (threadAt p nThreads from).
    split; [apply threadAt_range | apply logicalPos_threadAt]; assumption.
  - rewrite logicalPos_cases by lia. rewrite Z.leb_refl. lia.
Qed.


Lemma logicalPos_bijection_witness :
  (forall me, 0 <= me < 4 -> 0 <= logicalPos me 4 1 < 4) /\
  (forall me1 me2, 0 <= me1 < 4 -> 0 <= me2 < 4 ->
     logicalPos me1 4 1 = logicalPos me2 4 1 -> me1 = me2) /\
  (forall p, 0 <= p < 4 -> exists me, 0 <= me < 4 /\ logicalPos me 4 1 = p) /\
  logicalPos 1 4 1 = 0.
Proof. apply (logicalPos_bijection 4 1); lia. Defined.

(** ** The sharing role table *)

Lemma seqZ_split (m n k : Z) :
  0 <= k <= n -> seqZ m n = seqZ m k ++ seqZ (m + k) (n - k).
Proof.
  intros Hk. rewrite <- seqZ_app by lia. f_equal. lia.
Qed.

Lemma logicalPos_seqZ (nThreads from : Z) :
  0 <= from < nThreads ->
  (fun me => logicalPos me nThreads from) <$> seqZ 0 nThreads
  = seqZ (nThreads - from) from ++ seqZ 0 (nThreads - from).
Proof.
  intros Hfrom.
  rewrite (seqZ_split 0 nThreads from), Z.add_0_l, fmap_app by lia. f_equal.
  - replace (seqZ (nThreads - from) from)
      with (seqZ (nThreads - from + 0) from) by (f_equal; lia).
    rewrite <- fmap_add_seqZ.
    apply Forall_fmap_ext_1, Forall_seqZ. intros me Hme.
    rewrite logicalPos_cases by lia.
    destruct (Z.leb_spec from me); lia.
  - replace (seqZ 0 (nThreads - from))
      with (seqZ (- from + from) (nThreads - from)) by (f_equal; lia).
    rewrite <- fmap_add_seqZ.
    apply Forall_fmap_ext_1, Forall_seqZ. intros me Hme.
    rewrite logicalPos_cases by lia.
    destruct (Z.leb_spec from me); lia.
Qed.

(** Over the whole team the logical positions are the numbers below
    [nThreads], each once. *)
Lemma logicalPos_team_perm (nThreads from : Z) :
  0 <= from < nThreads ->
  (fun me => logicalPos me nThreads from) <$> seqZ 0 nThreads
  ≡ₚ seqZ 0 nThreads.
Proof.
  intros Hfrom. rewrite logicalPos_seqZ by assumption.
  rewrite Permutation_app_comm.
  rewrite (seqZ_split 0 nThreads (nThreads - from)), Z.add_0_l by lia.
  replace (nThreads - (nThreads - from)) with from by lia. reflexivity.
Qed.

Lemma teamRoles_perm (nThreads from sharing : Z) :
  0 <= from < nThreads ->
  Sharing.teamRoles nThreads from sharing
  ≡ₚ (fun p => Sharing.whatIDo p sharing) <$> seqZ 0 nThreads.
Proof.
  intros Hfrom. unfold Sharing.teamRoles.
  change (fun me => Sharing.whatIDo (logicalPos me nThreads from) sharing)
    with ((fun p => Sharing.whatIDo p sharing)
            ∘ (fun me => logicalPos me nThreads from)).
  rewrite list_fmap_compose.
  apply fmap_Permutation, logicalPos_team_perm. assumption.
Qed.

Lemma countRole_perm (r : Sharing.role) (l1 l2 : list Sharing.role) :
  l1 ≡ₚ l2 -> countRole r l1 = countRole r l2.
Proof. intros Hp. unfold countRole. rewrite Hp. reflexivity. Qed.

Lemma countRole_app (r : Sharing.role) (l1 l2 : list Sharing.role) :
  countRole r (l1 ++ l2) = (countRole r l1 + countRole r l2)%nat.
Proof. unfold countRole. rewrite filter_app, length_app. reflexivity. Qed.

(** A stretch of positions that all get the same role. *)
Lemma countRole_stretch (r r' : Sharing.role) (sharing m n : Z) :
  (forall p, m <= p < m + n -> Sharing.whatIDo p sharing = r') ->
  countRole r ((fun p => Sharing.whatIDo p sharing) <$> seqZ m n)
  = if decide (r' = r) then Z.to_nat n else 0%nat.
Proof.
  intros Hall. unfold countRole.
  assert (Hconst : (fun p => Sharing.whatIDo p sharing) <$> seqZ m n
                   = replicate (Z.to_nat n) r').
  { rewrite <- (length_seqZ m n). apply const_fmap.
    intros i p Hp. apply Hall. apply lookup_seqZ in Hp. lia. }
  rewrite Hconst. clear Hconst Hall.
  induction (Z.to_nat n) as [| k IH]; simpl.
  - destruct (decide (r' = r)); reflexivity.
  - destruct (decide (r' = r)) as [Heq | Hne].
    + rewrite filter_cons_True by assumption. simpl. rewrite IH. reflexivity.
    + rewrite filter_cons_False by assumption. exact IH.
Qed.

Lemma whatIDo_table (p sharing : Z) :
  1 <= sharing ->
  (p = 0 -> Sharing.whatIDo p sharing = Sharing.active) /\
  (1 <= p <= sharing - 1 -> Sharing.whatIDo p sharing = Sharing.setup) /\
  (p = sharing -> Sharing.whatIDo p sharing = Sharing.setupOwner) /\
  (sharing < p -> Sharing.whatIDo p sharing = Sharing.nothing).
Proof.
  intros Hs. unfold Sharing.whatIDo.
  repeat split; intros Hp;
    destruct (Z.eqb_spec p 0), (Z.ltb_spec p sharing), (Z.eqb_spec p sharing);
    (reflexivity || lia).
Qed.

Lemma logical_table_split (nThreads sharing : Z) :
  1 <= sharing < nThreads ->
  seqZ 0 nThreads
  = seqZ 0 1 ++ seqZ 1 (sharing - 1) ++ seqZ sharing 1
      ++ seqZ (sharing + 1) (nThreads - sharing - 1).
Proof.
  intros Hs.
  rewrite (seqZ_split 0 nThreads 1), Z.add_0_l by lia. f_equal.
  rewrite (seqZ_split 1 (nThreads - 1) (sharing - 1)) by lia. f_equal.
  replace (1 + (sharing - 1)) with sharing by lia.
  rewrite (seqZ_split sharing (nThreads - 1 - (sharing - 1)) 1) by lia.
  do 2 f_equal. lia.
Qed.

Lemma countRole_team (r : Sharing.role) (nThreads from sharing : Z) :
  0 <= from < nThreads -> 1 <= sharing < nThreads ->
  countRole r (Sharing.teamRoles nThreads from sharing)
  = match r with
    | Sharing.active => 1%nat
    | Sharing.setup => Z.to_nat (sharing - 1)
    | Sharing.setupOwner => 1%nat
    | Sharing.nothing => Z.to_nat (nThreads - sharing - 1)
    end.
Proof.
  intros Hfrom Hs.
  rewrite (countRole_perm _ _ _ (teamRoles_perm nThreads from sharing Hfrom)).
  rewrite (logical_table_split nThreads sharing Hs), !fmap_app, !countRole_app.
  rewrite (countRole_stretch r Sharing.active)
    by (intros p Hp; apply whatIDo_table; lia).
  rewrite (countRole_stretch r Sharing.setup)
    by (intros p Hp; apply whatIDo_table; lia).
  rewrite (countRole_stretch r Sharing.setupOwner)
    by (intros p Hp; apply whatIDo_table; lia).
  rewrite (countRole_stretch r Sharing.nothing)
    by (intros p Hp; apply whatIDo_table; lia).
  destruct r; repeat case_decide; try congruence; lia.
Qed.

(** C2: in [measureSharingFrom], for [nThreads >= 2], [0 <= from < nThreads]
    and [1 <= sharing < nThreads], the thread at logical position 0 is
    active, those at positions [1 .. sharing - 1] are setup, the one at
    position [sharing] is setupOwner and those beyond are nothing; so the
    team has exactly one active thread, one setupOwner, [sharing - 1] setup
    threads, the rest nothing, the counts add up to [nThreads]; and for
    [nThreads = 4], [from = 0], [sharing = 2] the roles in logical order are
    [active; setup; setupOwner; nothing]. *)
Theorem sharing_role_assignment (nThreads from sharing : Z) :
  2 <= nThreads -> 0 <= from < nThreads -> 1 <= sharing < nThreads ->
  (forall me, 0 <= me < nThreads ->
     let p := logicalPos me nThreads from in
     let whatIDo := Sharing.whatIDo p sharing in
     (p = 0 -> whatIDo = Sharing.active) /\
     (1 <= p <= sharing - 1 -> whatIDo = Sharing.setup) /\
     (p = sharing -> whatIDo = Sharing.setupOwner) /\
     (sharing < p -> whatIDo = Sharing.nothing)) /\
  (let team := Sharing.teamRoles nThreads from sharing in
   countRole Sharing.active team = 1%nat /\
   countRole Sharing.setupOwner team = 1%nat /\
   countRole Sharing.setup team = Z.to_nat (sharing - 1) /\
   countRole Sharing.nothing team = Z.to_nat (nThreads - sharing - 1) /\
   Z.of_nat (countRole Sharing.active team + countRole Sharing.setupOwner team
             + countRole Sharing.setup team + countRole Sharing.nothing team)
   = nThreads) /\
  Sharing.rolesInLogicalOrder 4 0 2
  = [Sharing.active; Sharing.setup; Sharing.setupOwner; Sharing.nothing].
Proof.
  intros Hn Hfrom Hs. split; [| split].
  - intros me Hme p whatIDo. apply whatIDo_table. lia.
  - cbv zeta. rewrite !countRole_team by assumption.
    repeat split; lia.
  - reflexivity.
Qed.

Lemma sharing_role_assignment_witness :
  (forall me, 0 <= me < 5 ->
     let p := logicalPos me 5 3 in
     let whatIDo := Sharing.whatIDo p 2 in
     (p = 0 -> whatIDo = Sharing.active) /\
     (1 <= p <= 2 - 1 -> whatIDo = Sharing.setup) /\
     (p = 2 -> whatIDo = Sharing.setupOwner) /\
     (2 < p -> whatIDo = Sharing.nothing)) /\
  (let team := Sharing.teamRoles 5 3 2 in
   countRole Sharing.active team = 1%nat /\
   countRole Sharing.setupOwner team = 1%nat /\
   countRole Sharing.setup team = Z.to_nat (2 - 1) /\
   countRole Sharing.nothing team = Z.to_nat (5 - 2 - 1) /\
   Z.of_nat (countRole Sharing.active team + countRole Sharing.setupOwner team
             + countRole Sharing.setup team + countRole Sharing.nothing team)
   = 5) /\
  Sharing.rolesInLogicalOrder 4 0 2
  = [Sharing.active; Sharing.setup; Sharing.setupOwner; Sharing.nothing].
Proof. apply (sharing_role_assignment 5 3 2); lia. Defined.

(** ** Arrays of statistics *)

Lemma forEachIndex_cons {A : Type} (F : Z -> A -> A) (i : Z) (idxs : list Z)
    (l : list A) :
  forEachIndex F (i :: idxs) l
  = forEachIndex F idxs (alter (F i) (Z.to_nat i) l).
Proof. reflexivity. Qed.

Lemma forEachIndex_untouched {A : Type} (F : Z -> A -> A) (idxs : list Z)
    (l : list A) (k : nat) :
  Forall (fun i => 0 <= i) idxs -> Z.of_nat k ∉ idxs ->
  forEachIndex F idxs l !! k = l !! k.
Proof.
  revert l. induction idxs as [| i idxs IH]; intros l Hpos Hk; [reflexivity |].
  rewrite forEachIndex_cons.
  apply Forall_cons in Hpos as [Hi Hpos]. apply not_elem_of_cons in Hk as [Hne Hk].
  rewrite IH by assumption.
  apply list_lookup_alter_ne. lia.
Qed.

(** A loop that visits each index once applies its function once. *)
Lemma forEachIndex_visited {A : Type} (F : Z -> A -> A) (idxs : list Z)
    (l : list A) (k : nat) :
  Forall (fun i => 0 <= i) idxs -> NoDup idxs -> Z.of_nat k ∈ idxs ->
  forEachIndex F idxs l !! k = F (Z.of_nat k) <$> l !! k.
Proof.
  revert l. induction idxs as [| i idxs IH]; intros l Hpos Hnd Hk.
  - apply elem_of_nil in Hk. contradiction.
  - rewrite forEachIndex_cons.
    apply Forall_cons in Hpos as [Hi Hpos]. apply NoDup_cons in Hnd as [Hni Hnd].
    apply elem_of_cons in Hk as [Heq | Hin].
    + subst i. rewrite forEachIndex_untouched by assumption.
      rewrite Nat2Z.id. apply list_lookup_alter_eq.
    + rewrite IH by assumption. f_equal.
      apply list_lookup_alter_ne. intros Heq. apply Hni.
      rewrite <- Heq, Z2Nat.id in Hin by assumption. exact Hin.
Qed.

Lemma fold_left_pointwise {A B : Type} (f g : A -> B -> A) (l : list B) (a : A) :
  (forall a x, f a x = g a x) -> fold_left f l a = fold_left g l a.
Proof.
  intros Hfg. revert a. induction l as [| x l IH]; intros a; simpl.
  - reflexivity.
  - rewrite Hfg. apply IH.
Qed.

(** Repeated updates of one cell are one update of that cell. *)
Lemma fold_alter_cell {A B : Type} (g : B -> A -> A) (k : nat) (bs : list B)
    (st : list A) :
  fold_left (fun st b => alter (g b) k st) bs st
  = alter (fun s => fold_left (fun s b => g b s) bs s) k st.
Proof.
  revert st. induction bs as [| b bs IH]; intros st; simpl.
  - symmetry. apply list_alter_id. reflexivity.
  - rewrite IH, list_alter_alter_eq. reflexivity.
Qed.

Lemma fold_addSample {B : Type} (f : B -> Q) (bs : list B) (s : statistic) :
  fold_left (fun s b => addSample (f b) s) bs s
  = mkStat (samples s ++ (f <$> bs)).
Proof.
  revert s. induction bs as [| b bs IH]; intros s; simpl.
  - rewrite app_nil_r. destruct s. reflexivity.
  - rewrite IH. simpl. rewrite <- app_assoc. reflexivity.
Qed.

(** The samples of one configuration, timed into one cell. *)
Lemma timed_samples_cell (ticks : Z -> Z) (k : nat) (NumSamples : Z)
    (st : list statistic) :
  fold_left (fun st i => alter (BlockTimer (ticks i)) k st) (seqZ 0 NumSamples) st
  = alter (fun s => mkStat (samples s ++
                      ((fun i => inject_Z (ticks i)) <$> seqZ 0 NumSamples)))
      k st.
Proof.
  rewrite (fold_alter_cell (fun i => BlockTimer (ticks i))).
  apply list_alter_ext; [| reflexivity].
  intros s _. unfold BlockTimer.
  apply (fold_addSample (fun i => inject_Z (ticks i))).
Qed.

(** ** Visibility: the filter on samples and the final scaling *)

Lemma recordPhase_keeps (sharing : Z) (st : visState) :
  threadTimes (recordPhase sharing st) = threadTimes st /\
  errOut (recordPhase sharing st) = errOut st.
Proof.
  unfold recordPhase.
  destruct (0 <? longestInterval (threadTimes st) sharing); split; reflexivity.
Qed.

(** C7: in a sample of [measureVisibilityFrom] the elapsed value is added to
    the statistic of the poller count exactly when it is strictly positive;
    otherwise the statistics stay as they were, and in both cases nothing is
    reported: the error output is unchanged and the run goes on. *)
Theorem visibility_sample_filter (nThreads from sharing : Z)
    (clockOffset : list Z) (now : Z -> Z) (st : visState) (s : statistic) :
  stats st !! Z.to_nat sharing = Some s ->
  let times := observePhase nThreads from sharing clockOffset now
                 (threadTimes st) in
  let elapsed := longestInterval times sharing in
  let st' := visSample nThreads from sharing clockOffset now st in
  (stats st' !! Z.to_nat sharing = Some (addSample (inject_Z elapsed) s)
   <-> 0 < elapsed) /\
  (0 < elapsed ->
   stats st' = <[Z.to_nat sharing := addSample (inject_Z elapsed) s]> (stats st)) /\
  (elapsed <= 0 -> stats st' = stats st) /\
  errOut st' = errOut st.
Proof.
  intros Hs times elapsed st'.
  assert (Hlt : (Z.to_nat sharing < length (stats st))%nat)
    by (eapply lookup_lt_Some; exact Hs).
  subst st'. unfold visSample, recordPhase. cbn [threadTimes stats errOut].
  fold times. fold elapsed.
  destruct (Z.ltb_spec 0 elapsed) as [Hpos | Hneg]; cbn [stats errOut].
  - repeat split; try lia.
    + rewrite list_lookup_alter_eq, Hs. reflexivity.
    + intros _. rewrite list_insert_alter.
      apply list_alter_ext; [| reflexivity].
      intros x Hx. rewrite Hs in Hx. injection Hx as <-. reflexivity.
  - repeat split; try lia.
    intros Habs. rewrite Hs in Habs. injection Habs as Habs.
    apply (f_equal (fun x => length (samples x))) in Habs.
    simpl in Habs. rewrite length_app in Habs. simpl in Habs. lia.
Qed.

Lemma visibility_sample_filter_witness :
  let st := mkVis [reset; reset; reset] [0; 0; 0] [] in
  let times := observePhase 3 0 1 [0; 0; 0] (fun me => 100 + 10 * me)
                 (threadTimes st) in
  let elapsed := longestInterval times 1 in
  let st' := visSample 3 0 1 [0; 0; 0] (fun me => 100 + 10 * me) st in
  (stats st' !! Z.to_nat 1 = Some (addSample (inject_Z elapsed) reset)
   <-> 0 < elapsed) /\
  (0 < elapsed ->
   stats st' = <[Z.to_nat 1 := addSample (inject_Z elapsed) reset]> (stats st)) /\
  (elapsed <= 0 -> stats st' = stats st) /\
  errOut st' = errOut st.
Proof.
  apply (visibility_sample_filter 3 0 1 [0; 0; 0] (fun me => 100 + 10 * me)
           (mkVis [reset; reset; reset] [0; 0; 0] []) reset).
  reflexivity.
Defined.



(** ** Round trips *)

Lemma sum_snoc (l : list Z) (x : Z) :
  foldr Z.add 0 (l ++ [x]) = foldr Z.add 0 l + x.
Proof. induction l as [| y l IH]; simpl; lia. Qed.

(** A run of operations advances the clock by the time they take and adds
    them to what the thread has completed. *)
Lemma perform_fold (f : Z -> Z) (o : chanOp) (l : list Z) (t : thread) :
  fold_left (fun t j => perform (f j) o t) l t
  = mkThread (clock t + foldr Z.add 0 (f <$> l))
      (completed t ++ replicate (length l) o).
Proof.
  revert t. induction l as [| j l IH]; intros t; simpl.
  - rewrite Z.add_0_r, app_nil_r. destruct t. reflexivity.
  - rewrite IH. unfold perform. cbn [clock completed].
    rewrite <- app_assoc, Z.add_assoc. reflexivity.
Qed.

Lemma pingBurst_spec (innerReps : Z) (dur : Z -> Z) (t : thread) :
  0 <= innerReps ->
  pingBurst innerReps dur t
  = mkThread (clock t + burstTime innerReps dur)
      (completed t ++ replicate (Z.to_nat innerReps) release ++ [waitFor false]).
Proof.
  intros HK. unfold pingBurst, burstTime.
  rewrite perform_fold. unfold perform. cbn [clock completed].
  rewrite length_seqZ, (seqZ_app 0 innerReps 1) by lia.
  change (seqZ (0 + innerReps) 1) with [innerReps].
  rewrite fmap_app. change (dur <$> [innerReps]) with [dur innerReps].
  rewrite sum_snoc, <- app_assoc, Z.add_assoc. reflexivity.
Qed.

(** The timed block of a sample is the burst, and it takes the time of the
    burst. *)
Lemma sample_spec (innerReps other : Z) (dur : Z -> Z) (r : sourceRun) :
  0 <= innerReps ->
  sample innerReps other dur r
  = mkRun (pingBurst innerReps dur (self r))
      (timedBlocks r
       ++ [(other,
            mkBlock (replicate (Z.to_nat innerReps) release ++ [waitFor false])
              (burstTime innerReps dur))])
      (alter (BlockTimer (burstTime innerReps dur)) (Z.to_nat other) (runStats r)).
Proof.
  intros HK. unfold sample, timed.
  rewrite pingBurst_spec by assumption. cbn [clock completed elapsed].
  rewrite drop_app_length.
  replace (clock (self r) + burstTime innerReps dur - clock (self r))
    with (burstTime innerReps dur) by lia.
  reflexivity.
Qed.

Lemma samples_loop (innerReps other : Z) (dur : Z -> Z -> Z) (l : list Z)
    (r : sourceRun) :
  0 <= innerReps ->
  let r' := fold_left (fun r i => sample innerReps other (dur i) r) l r in
  timedBlocks r'
  = timedBlocks r
    ++ ((fun i =>
           (other,
            mkBlock (replicate (Z.to_nat innerReps) release ++ [waitFor false])
              (burstTime innerReps (dur i)))) <$> l) /\
  runStats r'
  = fold_left
      (fun st i =>
         alter (BlockTimer (burstTime innerReps (dur i))) (Z.to_nat other) st)
      l (runStats r).
Proof.
  intros HK. revert r. induction l as [| i l IH]; intros r; cbn [fold_left].
  - split; [rewrite app_nil_r |]; reflexivity.
  - destruct (IH (sample innerReps other (dur i) r)) as (Hb & Hs).
    cbv zeta. rewrite Hb, Hs, sample_spec by assumption.
    cbn [timedBlocks runStats]. rewrite <- app_assoc. split; reflexivity.
Qed.

(** The blocks and the statistics the sampling loops leave. *)
Lemma roundtripSamples_spec (innerReps NumSamples source : Z)
    (dur : Z -> Z -> Z -> Z) (l : list Z) (r : sourceRun) :
  0 <= innerReps ->
  let blocksOf := fun other =>
    (fun i =>
       (other,
        mkBlock (replicate (Z.to_nat innerReps) release ++ [waitFor false])
          (burstTime innerReps (dur other i)))) <$> seqZ 0 NumSamples in
  let F := fun other (s : statistic) =>
    if other =? source then s
    else mkStat (samples s ++
           ((fun i => inject_Z (burstTime innerReps (dur other i)))
              <$> seqZ 0 NumSamples)) in
  let r' :=
    fold_left
      (fun r other =>
         if other =? source then r
         else fold_left (fun r i => sample innerReps other (dur other i) r)
                (seqZ 0 NumSamples) r)
      l r in
  timedBlocks r'
  = timedBlocks r
    ++ (l ≫= fun other => if other =? source then [] else blocksOf other) /\
  runStats r' = forEachIndex F l (runStats r).
Proof.
  intros HK blocksOf F. revert r.
  induction l as [| o l IH]; intros r; cbn [fold_left].
  - split; [rewrite app_nil_r |]; reflexivity.
  - cbv zeta in IH |- *. rewrite forEachIndex_cons, bind_cons.
    destruct (IH (if o =? source then r
                  else fold_left (fun r i => sample innerReps o (dur o i) r)
                         (seqZ 0 NumSamples) r)) as (Hb & Hs).
    rewrite Hb, Hs. destruct (o =? source) eqn:Hos.
    + split; [reflexivity |]. f_equal. symmetry.
      apply list_alter_id. intros x. unfold F. rewrite Hos. reflexivity.
    + destruct (samples_loop innerReps o (dur o) (seqZ 0 NumSamples) r HK)
        as (Hb1 & Hs1).
      cbv zeta in Hb1, Hs1. rewrite Hb1, Hs1, <- app_assoc.
      split; [reflexivity |]. f_equal.
      rewrite (timed_samples_cell (fun i => burstTime innerReps (dur o i))).
      apply list_alter_ext; [| reflexivity].
      intros x _. unfold F. rewrite Hos. reflexivity.
Qed.

(** The blocks of one peer, picked out of those of the team. *)
Lemma blocks_of_peer {B : Type} (source other n : Z) (g : Z -> list (Z * B)) :
  0 <= other < n -> other <> source ->
  (forall o, Forall (fun b => b.1 = o) (g o)) ->
  filter (fun b => b.1 = other)
    (seqZ 0 n ≫= fun o => if o =? source then [] else g o)
  = g other.
Proof.
  intros Ho Hne Hg.
  assert (Hmiss : forall l : list Z, other ∉ l ->
            filter (fun b : Z * B => b.1 = other)
              (l ≫= fun o => if o =? source then [] else g o) = []).
  { induction l as [| o l IH]; intros Hin; [reflexivity |].
    apply not_elem_of_cons in Hin as (Hoo & Hin).
    rewrite bind_cons, filter_app, (IH Hin), app_nil_r.
    destruct (o =? source); [reflexivity |].
    specialize (Hg o). induction Hg as [| b bs Hb _ IHb]; [reflexivity |].
    rewrite filter_cons_False by (rewrite Hb; congruence). exact IHb. }
  rewrite (seqZ_split 0 n other) by lia. rewrite Z.add_0_l.
  rewrite (seqZ_cons other) by lia.
  rewrite bind_app, bind_cons, !filter_app.
  rewrite !Hmiss by (rewrite elem_of_seqZ; lia).
  destruct (Z.eqb_spec other source) as [Heq | _]; [contradiction |].
  rewrite app_nil_r. cbn [app].
  specialize (Hg other). induction Hg as [| b bs Hb _ IHb]; [reflexivity |].
  rewrite filter_cons_True by exact Hb. f_equal. exact IHb.
Qed.

(** Twice the ticks over twice the repetitions is the same rational. *)
Lemma scale_double (x : Z) (innerReps : Z) :
  0 < innerReps ->
  (inject_Z (2 * x) / inject_Z (2 * (2 * innerReps))
   == inject_Z x / inject_Z (2 * innerReps))%Q.
Proof.
  intros Hk. unfold Qeq, Qdiv, Qmult, Qinv, inject_Z. simpl.
  destruct innerReps as [| k | k]; try lia. simpl. lia.
Qed.

(** What a call leaves for one peer, for a source thread of the team. *)
Lemma measureRoundtripFrom_peer (innerReps NumSamples nThreads source : Z)
    (dur : Z -> Z -> Z -> Z) (stats : list statistic) (other : Z) :
  0 <= innerReps -> 0 <= source < nThreads -> 0 <= other < nThreads ->
  other <> source ->
  exists run,
    measureRoundtripFrom innerReps NumSamples nThreads source dur stats
    = Some run /\
    filter (fun b => b.1 = other) (timedBlocks run)
    = (fun i =>
         (other,
          mkBlock (replicate (Z.to_nat innerReps) release ++ [waitFor false])
            (burstTime innerReps (dur other i)))) <$> seqZ 0 NumSamples /\
    runStats run !! Z.to_nat other
    = (fun s => mkStat ((fun x => x / inject_Z (2 * innerReps))%Q <$>
                 (samples s ++
                  ((fun i => inject_Z (burstTime innerReps (dur other i)))
                     <$> seqZ 0 NumSamples))))
        <$> stats !! Z.to_nat other.
Proof.
  intros HK Hsource Hother Hne. unfold measureRoundtripFrom.
  assert (Hteam : inTeam nThreads source = true)
    by (unfold inTeam; apply andb_true_intro; split; lia).
  rewrite Hteam. eexists. split; [reflexivity |].
  cbn [timedBlocks runStats]. unfold roundtripSamples.
  destruct (roundtripSamples_spec innerReps NumSamples source dur
              (seqZ 0 nThreads) (mkRun (mkThread 0 []) [] stats) HK)
    as (Hb & Hs).
  cbv zeta in Hb, Hs. rewrite Hb, Hs. cbn [timedBlocks runStats app].
  split.
  - apply (blocks_of_peer source other nThreads
             (fun o =>
                (fun i =>
                   (o, mkBlock (replicate (Z.to_nat innerReps) release
                                ++ [waitFor false])
                         (burstTime innerReps (dur o i))))
                  <$> seqZ 0 NumSamples)); try assumption.
    intros o. apply Forall_fmap, Forall_forall. intros i _. reflexivity.
  - assert (H0 : Forall (fun i => 0 <= i) (seqZ 0 nThreads))
      by (apply Forall_seqZ; lia).
    rewrite forEachIndex_visited, forEachIndex_visited;
      try assumption; try apply NoDup_seqZ;
      try (rewrite Z2Nat.id by lia; apply elem_of_seqZ; lia).
    rewrite Z2Nat.id by lia.
    destruct (Z.eqb_spec other source) as [Heq | _]; [contradiction |].
    destruct (stats !! Z.to_nat other); reflexivity.
Qed.

(** C5: in [measureRoundtripFrom] the source thread runs one timed block per
    sample with each peer; the block covers [innerReps] calls of [release]
    followed by [waitFor(false)] and nothing else, and takes the time these
    operations take; the reported statistic of the peer holds each of these
    raw burst times divided by [2 * innerReps].  Hence with twice the
    repetitions and bursts that take twice the time the reported values are
    the same. *)
Theorem roundtrip_scaling (innerReps NumSamples nThreads source : Z)
    (dur : Z -> Z -> Z -> Z) (stats : list statistic) (other : Z) (s : statistic) :
  0 < innerReps -> 0 <= source < nThreads -> 0 <= other < nThreads ->
  other <> source -> stats !! Z.to_nat other = Some s ->
  let raw := fun i => burstTime innerReps (dur other i) in
  exists run,
    measureRoundtripFrom innerReps NumSamples nThreads source dur stats
    = Some run /\
    filter (fun b => b.1 = other) (timedBlocks run)
    = (fun i =>
         (other,
          mkBlock (replicate (Z.to_nat innerReps) release ++ [waitFor false])
            (raw i))) <$> seqZ 0 NumSamples /\
    runStats run !! Z.to_nat other
    = Some (mkStat ((fun x => x / inject_Z (2 * innerReps))%Q <$>
              (samples s ++ ((fun i => inject_Z (raw i)) <$> seqZ 0 NumSamples)))) /\
    (forall dur2 : Z -> Z -> Z -> Z,
       samples s = [] ->
       (forall i, 0 <= i < NumSamples ->
          burstTime (2 * innerReps) (dur2 other i) = 2 * raw i) ->
       exists run2 s1 s2,
         measureRoundtripFrom (2 * innerReps) NumSamples nThreads source dur2
           stats = Some run2 /\
         runStats run !! Z.to_nat other = Some s1 /\
         runStats run2 !! Z.to_nat other = Some s2 /\
         Forall2 Qeq (samples s2) (samples s1)).
Proof.
  intros HK Hsource Hother Hne Hs raw.
  destruct (measureRoundtripFrom_peer innerReps NumSamples nThreads source dur
              stats other ltac:(lia) Hsource Hother Hne)
    as (run & Hrun & Hblocks & Hstat).
  rewrite Hs in Hstat. cbn [fmap option_fmap option_map] in Hstat.
  exists run. split; [exact Hrun |]. split; [exact Hblocks |].
  split; [exact Hstat |].
  intros dur2 Hempty Hdouble.
  destruct (measureRoundtripFrom_peer (2 * innerReps) NumSamples nThreads source
              dur2 stats other ltac:(lia) Hsource Hother Hne)
    as (run2 & Hrun2 & _ & Hstat2).
  rewrite Hs in Hstat2. cbn [fmap option_fmap option_map] in Hstat2.
  do 3 eexists. split; [exact Hrun2 |]. split; [exact Hstat |].
  split; [exact Hstat2 |].
  cbn [samples]. rewrite Hempty. cbn [app].
  rewrite <- !list_fmap_compose.
  apply Forall2_fmap, Forall_Forall2_diag, Forall_forall.
  intros i Hi. apply elem_of_seqZ in Hi. cbn.
  rewrite Hdouble by lia. apply scale_double. assumption.
Qed.

Lemma roundtrip_scaling_witness :
  let dur := fun o i j : Z => 1000 * o + 10 * i + j in
  let stats := [reset; reset; reset] in
  let raw := fun i => burstTime 20 (dur 2 i) in
  exists run,
    measureRoundtripFrom 20 4 3 0 dur stats = Some run /\
    filter (fun b => b.1 = 2) (timedBlocks run)
    = (fun i =>
         (2, mkBlock (replicate (Z.to_nat 20) release ++ [waitFor false])
               (raw i))) <$> seqZ 0 4 /\
    runStats run !! Z.to_nat 2
    = Some (mkStat ((fun x => x / inject_Z (2 * 20))%Q <$>
              (samples reset ++ ((fun i => inject_Z (raw i)) <$> seqZ 0 4)))) /\
    (forall dur2 : Z -> Z -> Z -> Z,
       samples reset = [] ->
       (forall i, 0 <= i < 4 -> burstTime (2 * 20) (dur2 2 i) = 2 * raw i) ->
       exists run2 s1 s2,
         measureRoundtripFrom (2 * 20) 4 3 0 dur2 stats = Some run2 /\
         runStats run !! Z.to_nat 2 = Some s1 /\
         runStats run2 !! Z.to_nat 2 = Some s2 /\
         Forall2 Qeq (samples s2) (samples s1)).
Proof.
  apply (roundtrip_scaling 20 4 3 0 (fun o i j => 1000 * o + 10 * i + j)
           [reset; reset; reset] 2 reset).
  - lia.
  - lia.
  - lia.
  - lia.
  - reflexivity.
Defined.

(** ** Clock offsets *)

(** The value thread zero stores for a peer. *)
Lemma computeClockOffset_unfold (nThreads : Z) (obs : Z -> Z -> trial)
    (offsets : list Z) :
  let v := fun other => Qtrunc (getMean (clockTrials (obs other))) in
  computeClockOffset nThreads obs offsets
  = mkTraced
      (fold_left (fun c other => <[Z.to_nat other := v other]> c)
         (seqZ 1 (nThreads - 1)) (<[0%nat := 0]> offsets))
      ((0, 0) :: ((fun other => (other, v other)) <$> seqZ 1 (nThreads - 1))).
Proof.
  intros v. unfold computeClockOffset.
  change (storeAt 0 0 (mkTraced offsets []))
    with (mkTraced (<[0%nat := 0]> offsets) [(0, 0)]).
  generalize (<[0%nat := 0]> offsets) as c.
  change ((0, 0) :: ((fun other => (other, v other)) <$> seqZ 1 (nThreads - 1)))
    with ([(0, 0)] ++ ((fun other => (other, v other)) <$> seqZ 1 (nThreads - 1))).
  generalize [(0, 0)] as log.
  induction (seqZ 1 (nThreads - 1)) as [| o l IH]; intros log c; simpl.
  - rewrite app_nil_r. reflexivity.
  - fold (v o). unfold storeAt at 2. cbn [cells writes].
    rewrite IH, <- app_assoc. reflexivity.
Qed.

Lemma fold_insert_untouched (v : Z -> Z) (idxs : list Z) (c : list Z) (k : nat) :
  Forall (fun i => 0 <= i) idxs -> Z.of_nat k ∉ idxs ->
  fold_left (fun c i => <[Z.to_nat i := v i]> c) idxs c !! k = c !! k.
Proof.
  revert c. induction idxs as [| i idxs IH]; intros c Hpos Hk; [reflexivity |].
  apply Forall_cons in Hpos as [Hi Hpos]. apply not_elem_of_cons in Hk as [Hne Hk].
  simpl. rewrite IH by assumption.
  apply list_lookup_insert_ne. lia.
Qed.

Lemma fold_insert_length (v : Z -> Z) (idxs : list Z) (c : list Z) :
  length (fold_left (fun c i => <[Z.to_nat i := v i]> c) idxs c) = length c.
Proof.
  revert c. induction idxs as [| i idxs IH]; intros c; simpl; [reflexivity |].
  rewrite IH. apply length_insert.
Qed.

Lemma fold_insert_visited (v : Z -> Z) (idxs : list Z) (c : list Z) (k : nat) :
  Forall (fun i => 0 <= i) idxs -> NoDup idxs -> Z.of_nat k ∈ idxs ->
  (k < length c)%nat ->
  fold_left (fun c i => <[Z.to_nat i := v i]> c) idxs c !! k
  = Some (v (Z.of_nat k)).
Proof.
  revert c. induction idxs as [| i idxs IH]; intros c Hpos Hnd Hk Hlen.
  - apply elem_of_nil in Hk. contradiction.
  - apply Forall_cons in Hpos as [Hi Hpos]. apply NoDup_cons in Hnd as [Hni Hnd].
    simpl. apply elem_of_cons in Hk as [Heq | Hin].
    + subst i. rewrite fold_insert_untouched by assumption.
      rewrite Nat2Z.id. apply list_lookup_insert_eq. assumption.
    + apply IH; try assumption. rewrite length_insert. assumption.
Qed.

Lemma storesTo_elsewhere (v : Z -> Z) (t : Z) (idxs : list Z) :
  t ∉ idxs -> filter (fun w => w.1 = t) ((fun o => (o, v o)) <$> idxs) = [].
Proof.
  intros Ht.
  induction idxs as [| o l IH]; [reflexivity |].
  apply not_elem_of_cons in Ht as [Hne Ht].
  rewrite fmap_cons, filter_cons_False by (simpl; congruence).
  apply IH. assumption.
Qed.

Lemma storesTo_peer (v : Z -> Z) (t n : Z) :
  1 <= t < 1 + n ->
  filter (fun w => w.1 = t) ((fun o => (o, v o)) <$> seqZ 1 n) = [(t, v t)].
Proof.
  intros Ht.
  rewrite (seqZ_split 1 n (t - 1)) by lia.
  replace (1 + (t - 1)) with t by lia.
  rewrite (seqZ_cons t) by lia.
  rewrite fmap_app, fmap_cons.
  rewrite filter_app, filter_cons_True by reflexivity.
  rewrite !storesTo_elsewhere by (rewrite elem_of_seqZ; lia).
  reflexivity.
Qed.

(** C10: [computeClockOffset] sets [offsets[0]] to 0 and stores a value in
    [offsets[t]] for every [t] in [1, nThreads); each of these cells is
    written exactly once in a pass, and no other cell is written. *)
Theorem computeClockOffset_stores (nThreads : Z) (obs : Z -> Z -> trial)
    (offsets : list Z) :
  nThreads <= Z.of_nat (length offsets) -> (0 < length offsets)%nat ->
  let result := computeClockOffset nThreads obs offsets in
  cells result !! 0%nat = Some 0 /\
  storesTo 0 (writes result) = [(0, 0)] /\
  (forall t, 1 <= t < nThreads ->
     exists v, cells result !! Z.to_nat t = Some v /\
       storesTo t (writes result) = [(t, v)]) /\
  (forall t, ~ 0 <= t < Z.max 1 nThreads -> storesTo t (writes result) = []) /\
  (forall k, ~ Z.of_nat k < Z.max 1 nThreads ->
     cells result !! k = offsets !! k).
Proof.
  intros Hlen Hpos result. subst result.
  rewrite computeClockOffset_unfold. cbn [cells writes].
  set (v := fun other => Qtrunc (getMean (clockTrials (obs other)))).
  assert (Hidx : Forall (fun i => 0 <= i) (seqZ 1 (nThreads - 1)))
    by (apply Forall_seqZ; lia).
  repeat split.
  - rewrite fold_insert_untouched.
    + apply list_lookup_insert_eq. assumption.
    + assumption.
    + rewrite elem_of_seqZ. lia.
  - unfold storesTo. rewrite filter_cons_True by reflexivity.
    rewrite storesTo_elsewhere by (rewrite elem_of_seqZ; lia). reflexivity.
  - intros t Ht. exists (v t). split.
    + rewrite fold_insert_visited.
      * rewrite Z2Nat.id by lia. reflexivity.
      * assumption.
      * apply NoDup_seqZ.
      * rewrite Z2Nat.id by lia. apply elem_of_seqZ. lia.
      * rewrite length_insert. lia.
    + unfold storesTo. rewrite filter_cons_False by (simpl; lia).
      apply storesTo_peer. lia.
  - intros t Ht. unfold storesTo.
    rewrite filter_cons_False by (simpl; lia).
    apply storesTo_elsewhere. rewrite elem_of_seqZ. lia.
  - intros k Hk. rewrite fold_insert_untouched.
    + apply list_lookup_insert_ne. lia.
    + assumption.
    + rewrite elem_of_seqZ. lia.
Qed.

Lemma computeClockOffset_stores_witness :
  let result := computeClockOffset 3 (fun _ _ => mkTrial 20 30 30) [7; 7; 7; 7] in
  cells result !! 0%nat = Some 0 /\
  storesTo 0 (writes result) = [(0, 0)] /\
  (forall t, 1 <= t < 3 ->
     exists v, cells result !! Z.to_nat t = Some v /\
       storesTo t (writes result) = [(t, v)]) /\
  (forall t, ~ 0 <= t < Z.max 1 3 -> storesTo t (writes result) = []) /\
  (forall k, ~ Z.of_nat k < Z.max 1 3 ->
     cells result !! k = [7; 7; 7; 7] !! k).
Proof.
  assert (Hlen : 3 <= Z.of_nat (length [7; 7; 7; 7])) by (simpl; lia).
  assert (Hpos : (0 < length [7; 7; 7; 7])%nat) by (simpl; lia).
  exact (computeClockOffset_stores 3 (fun _ _ => mkTrial 20 30 30) [7; 7; 7; 7]
           Hlen Hpos).
Defined.

Lemma fold_trials (f : Z -> Q) (l : list Z) (s : statistic) :
  Forall (fun i => i <> 0) l ->
  fold_left (fun stat i => if i =? 0 then stat else addSample (f i) stat) l s
  = mkStat (samples s ++ (f <$> l)).
Proof.
  intros Hl. revert s. induction Hl as [| i l Hi Hl IH]; intros s; simpl.
  - rewrite app_nil_r. destruct s. reflexivity.
  - destruct (Z.eqb_spec i 0) as [Heq | _]; [contradiction |].
    rewrite IH. simpl. rewrite <- app_assoc. reflexivity.
Qed.

(** The first trial adds nothing; every later trial adds its sample. *)
Lemma trials_loop (f : Z -> Q) (n : Z) :
  0 < n ->
  fold_left (fun stat i => if i =? 0 then stat else addSample (f i) stat)
    (seqZ 0 n) reset
  = mkStat (f <$> seqZ 1 (n - 1)).
Proof.
  intros Hn. rewrite (seqZ_cons 0 n) by assumption.
  cbn [fold_left]. change (0 =? 0) with true. cbv iota.
  rewrite fold_trials by (apply Forall_seqZ; lia).
  replace (Z.pred n) with (n - 1) by lia. reflexivity.
Qed.

Lemma clockTrials_samples (obs : Z -> trial) :
  samples (clockTrials obs)
  = (fun i => offsetSample (obs i)) <$> seqZ 1 (NumTests - 1).
Proof.
  unfold clockTrials.
  rewrite (trials_loop (fun i => offsetSample (obs i)) NumTests) by reflexivity.
  reflexivity.
Qed.

(** *** Double precision: values that are not rounded *)

#[global] Instance roundEven_comp : Proper (Qeq ==> eq) roundEven.
Proof.
  intros x y Hxy. unfold roundEven. cbv zeta.
  assert (Hf : Qfloor x = Qfloor y) by (apply Qfloor_comp; exact Hxy).
  assert (Hc : (x - inject_Z (Qfloor x) ?= 1 # 2)%Q
               = (y - inject_Z (Qfloor y) ?= 1 # 2)%Q).
  { apply Qcompare_comp; [| reflexivity]. rewrite Hf, Hxy. reflexivity. }
  rewrite Hc, Hf. reflexivity.
Qed.

#[global] Instance binade_comp : Proper (Qeq ==> eq) binade.
Proof.
  intros x y Hxy. unfold binade. cbv zeta.
  assert (Ha : (Qabs x == Qabs y)%Q) by (rewrite Hxy; reflexivity).
  assert (Hb : Qle_bool 1 (Qabs x) = Qle_bool 1 (Qabs y))
    by (apply Qleb_comp; [reflexivity | exact Ha]).
  assert (Hf : Qfloor (Qabs x) = Qfloor (Qabs y))
    by (apply Qfloor_comp; exact Ha).
  assert (Hc : Qceiling (/ Qabs x) = Qceiling (/ Qabs y))
    by (apply Qceiling_comp; rewrite Ha; reflexivity).
  rewrite Hb, Hf, Hc. reflexivity.
Qed.

#[global] Instance double_comp : Proper (Qeq ==> Qeq) double.
Proof.
  intros x y Hxy. unfold double. cbv zeta.
  rewrite (binade_comp x y Hxy).
  assert (Hr : roundEven (x / 2 ^ Z.max (- 1074) (binade y - 52))
               = roundEven (y / 2 ^ Z.max (- 1074) (binade y - 52)))
    by (apply roundEven_comp; rewrite Hxy; reflexivity).
  rewrite Hr. reflexivity.
Qed.

Lemma roundEven_Z (z : Z) : roundEven (inject_Z z) = z.
Proof.
  unfold roundEven. rewrite Qfloor_Z.
  assert (H : (inject_Z z - inject_Z z ?= 1 # 2)%Q = Lt).
  { apply Qlt_alt. assert (H : (inject_Z z - inject_Z z == 0)%Q) by ring.
    rewrite H. reflexivity. }
  rewrite H. reflexivity.
Qed.

Lemma Qpow2_pos (e : Z) : (0 < 2 ^ e)%Q.
Proof. apply Qpower_0_lt. reflexivity. Qed.

Lemma Qpow2_Z (n : Z) : 0 <= n -> (2 ^ n == inject_Z (2 ^ n))%Q.
Proof. intros Hn. rewrite Zpower_Qpower by assumption. reflexivity. Qed.

(** [binade q] is not above the exponent of [q]. *)
Lemma binade_le (q : Q) : ~ (q == 0)%Q -> (2 ^ binade q <= Qabs q)%Q.
Proof.
  intros Hq. unfold binade. cbv zeta.
  assert (Ha : (0 < Qabs q)%Q).
  { destruct (Qle_lt_or_eq _ _ (Qabs_nonneg q)) as [H | H]; [exact H |].
    exfalso. apply Hq. symmetry in H.
    destruct (Qabs_Qle_condition q 0) as [Hc _].
    destruct Hc as [H1 H2]; [rewrite H; apply Qle_refl |].
    apply Qle_antisym; assumption. }
  set (a := Qabs q) in *.
  destruct (Qle_bool 1 a) eqn:Hone.
  - apply Qle_bool_iff in Hone.
    assert (Hf : 1 <= Qfloor a).
    { change 1 with (Qfloor 1). apply Qfloor_resp_le. exact Hone. }
    rewrite Qpow2_Z by apply Z.log2_nonneg.
    apply Qle_trans with (inject_Z (Qfloor a)); [| apply Qfloor_le].
    rewrite <- Zle_Qle. apply Z.log2_spec. lia.
  - assert (Hlt : (a < 1)%Q).
    { apply Qnot_le_lt. intros H. apply Qle_bool_iff in H. congruence. }
    set (c := Qceiling (/ a)).
    assert (Hc : (/ a <= inject_Z c)%Q) by apply Qle_ceiling.
    assert (Hinv : (1 < / a)%Q).
    { apply Qlt_shift_inv_l; [exact Ha |]. rewrite Qmult_1_l. exact Hlt. }
    assert (Hc1 : 1 < c).
    { rewrite Zlt_Qlt. eapply Qlt_le_trans; [exact Hinv | exact Hc]. }
    pose proof (Z.log2_up_spec c Hc1) as (_ & Hup).
    pose proof (Z.log2_up_nonneg c) as Hnn.
    rewrite Qpower_opp, Qpow2_Z by assumption.
    assert (Hb : (/ a <= inject_Z (2 ^ Z.log2_up c))%Q).
    { eapply Qle_trans; [exact Hc |]. rewrite <- Zle_Qle. exact Hup. }
    apply Qle_shift_inv_r.
    + rewrite <- (Qpow2_Z _ Hnn). apply Qpow2_pos.
    + apply (Qmult_le_l _ _ a Ha) in Hb.
      rewrite Qmult_inv_r in Hb by (intros H; rewrite H in Ha; discriminate Ha).
      exact Hb.
Qed.

(** A number with a significand below [2^53] is a [double]: rounding leaves
    it as it is. *)
Lemma double_exact (m e0 : Z) :
  Z.abs m < 2 ^ 53 -> - 1074 <= e0 ->
  (double (inject_Z m * 2 ^ e0) == inject_Z m * 2 ^ e0)%Q.
Proof.
  intros Hm He0.
  destruct (Z.eq_dec m 0) as [-> | Hne].
  { assert (H0 : (inject_Z 0 * 2 ^ e0 == 0)%Q) by ring.
    rewrite H0. reflexivity. }
  set (q := (inject_Z m * 2 ^ e0)%Q).
  assert (Hq : ~ (q == 0)%Q).
  { unfold q. intros H. apply Qmult_integral in H as [H | H].
    - apply Hne. unfold Qeq in H. simpl in H. lia.
    - pose proof (Qpow2_pos e0) as Hp. rewrite H in Hp. discriminate Hp. }
  assert (Habs : (Qabs q < 2 ^ (53 + e0))%Q).
  { unfold q. rewrite Qabs_Qmult, (Qabs_pos (2 ^ e0))
      by (apply Qlt_le_weak, Qpow2_pos).
    rewrite Qpower_plus by discriminate.
    apply Qmult_lt_r; [apply Qpow2_pos |].
    rewrite Qpow2_Z by lia.
    assert (Hz : (Qabs (inject_Z m) == inject_Z (Z.abs m))%Q).
    { unfold Qabs, inject_Z. reflexivity. }
    rewrite Hz, <- Zlt_Qlt. exact Hm. }
  assert (Hk : binade q < 53 + e0).
  { apply (Qpower_lt_compat_l_inv 2); [| reflexivity].
    eapply Qle_lt_trans; [apply binade_le; exact Hq | exact Habs]. }
  unfold double. cbv zeta.
  set (e := Z.max (- 1074) (binade q - 52)).
  assert (He : e <= e0) by lia.
  assert (Hscaled : (q / 2 ^ e == inject_Z (m * 2 ^ (e0 - e)))%Q).
  { unfold q. rewrite inject_Z_mult, <- Qpow2_Z by lia.
    unfold Z.sub. rewrite Qpower_plus, Qpower_opp by discriminate.
    field. intros H. pose proof (Qpow2_pos e) as Hp. rewrite H in Hp.
    discriminate Hp. }
  rewrite Hscaled, roundEven_Z.
  rewrite inject_Z_mult, <- Qpow2_Z by lia.
  unfold q, Z.sub. rewrite Qpower_plus, Qpower_opp by discriminate.
  field. intros H. pose proof (Qpow2_pos e) as Hp. rewrite H in Hp.
  discriminate Hp.
Qed.

Lemma double_integer (z : Z) :
  Z.abs z < 2 ^ 53 -> (double (inject_Z z) == inject_Z z)%Q.
Proof.
  intros Hz. pose proof (double_exact z 0 Hz ltac:(lia)) as H.
  assert (E : (inject_Z z * 2 ^ 0 == inject_Z z)%Q) by (simpl; ring).
  rewrite E in H. exact H.
Qed.

Lemma double_half (h : Z) :
  Z.abs h < 2 ^ 53 -> (double (inject_Z h / 2) == inject_Z h / 2)%Q.
Proof.
  intros Hh. pose proof (double_exact h (- 1) Hh ltac:(lia)) as H.
  assert (E : (inject_Z h * 2 ^ (- 1) == inject_Z h / 2)%Q) by reflexivity.
  rewrite E in H. exact H.
Qed.

Lemma int64_wrap_small (z : Z) : - 2 ^ 63 <= z < 2 ^ 63 -> int64_wrap z = z.
Proof.
  intros Hz. unfold int64_wrap. rewrite Z.mod_small by lia. lia.
Qed.

(** With small readings lines 508-510 round nothing. *)
Lemma offsetSample_exact (t : trial) :
  smallReadings t ->
  (offsetSample t == inject_Z (2 * Tstart t - 2 * Tother t + (Tend t - Tstart t)) / 2)%Q.
Proof.
  intros (Hs & Ho & He). unfold offsetSample. cbv zeta.
  rewrite int64_wrap_small by lia.
  rewrite (double_integer (Tend t - Tstart t)) by lia.
  rewrite (double_half (Tend t - Tstart t)) by lia.
  rewrite (double_integer (Tother t)) by lia.
  assert (E1 : (inject_Z (Tother t) - inject_Z (Tend t - Tstart t) / 2
                == inject_Z (2 * Tother t - (Tend t - Tstart t)) / 2)%Q).
  { unfold Qeq, Qminus, Qplus, Qopp, Qdiv, Qmult, Qinv, inject_Z. cbn [Qnum Qden]. lia. }
  rewrite E1, (double_half (2 * Tother t - (Tend t - Tstart t))) by lia.
  rewrite (double_integer (Tstart t)) by lia.
  assert (E2 : (inject_Z (Tstart t)
                - inject_Z (2 * Tother t - (Tend t - Tstart t)) / 2
                == inject_Z (2 * Tstart t - 2 * Tother t + (Tend t - Tstart t)) / 2)%Q).
  { unfold Qeq, Qminus, Qplus, Qopp, Qdiv, Qmult, Qinv, inject_Z. cbn [Qnum Qden]. lia. }
  rewrite E2. apply double_half. lia.
Qed.

Lemma offsetSample_formula (t : trial) :
  smallReadings t ->
  (offsetSample t
   == inject_Z (Tstart t)
      - (inject_Z (Tother t) - (inject_Z (Tend t) - inject_Z (Tstart t)) / 2))%Q /\
  (offsetSample t
   == inject_Z (Tstart t) - inject_Z (Tother t)
      + (inject_Z (Tend t) - inject_Z (Tstart t)) / 2)%Q.
Proof.
  intros Hsmall. rewrite (offsetSample_exact t Hsmall).
  split; unfold Qeq, Qminus, Qplus, Qopp, Qdiv, Qmult, Qinv, inject_Z;
    cbn [Qnum Qden]; lia.
Qed.

(** Past [2^52] they do: three trials and what the code computes for them. *)
Lemma offsetSample_rounds :
  (offsetSample (mkTrial (2 ^ 53 + 1) (2 ^ 53) (2 ^ 53 + 1)) == 0)%Q /\
  (offsetSample (mkTrial (2 ^ 52) (2 ^ 52 + 2) (2 ^ 52 + 1)) == inject_Z (- 2))%Q /\
  (offsetSample (mkTrial (2 ^ 53 + 1) (2 ^ 53 + 3) (2 ^ 53 + 3)) == inject_Z (- 4))%Q.
Proof. vm_compute. repeat split. Qed.

(** [Qtrunc] drops the fraction: the result is the integer next to the
    argument on the side of zero. *)
Lemma Qtrunc_bounds (q : Q) :
  ((0 <= q -> inject_Z (Qtrunc q) <= q /\ q < inject_Z (Qtrunc q) + 1) /\
   (q <= 0 -> inject_Z (Qtrunc q) - 1 < q /\ q <= inject_Z (Qtrunc q)))%Q.
Proof.
  destruct q as [a b]. unfold Qtrunc, Qle, Qlt, Qminus, Qplus, Qopp, inject_Z.
  cbn [Qnum Qden].
  pose proof (Z.quot_rem' a (Z.pos b)) as Hqr.
  split; intros Ha.
  - pose proof (Z.rem_bound_pos a (Z.pos b) ltac:(lia) ltac:(lia)) as Hr.
    split; nia.
  - pose proof (Z.rem_bound_pos_neg a (Z.pos b) ltac:(lia) ltac:(lia)) as Hr.
    split; nia.
Qed.

(** What a pass leaves in the cell of a peer. *)
Lemma computeClockOffset_peer (nThreads : Z) (obs : Z -> Z -> trial)
    (offsets : list Z) (other : Z) :
  1 <= other < nThreads -> nThreads <= Z.of_nat (length offsets) ->
  cells (computeClockOffset nThreads obs offsets) !! Z.to_nat other
  = Some (Qtrunc (getMean (clockTrials (obs other)))).
Proof.
  intros Hother Hlen.
  rewrite computeClockOffset_unfold. cbn [cells].
  rewrite fold_insert_visited.
  - rewrite Z2Nat.id by lia. reflexivity.
  - apply Forall_seqZ. lia.
  - apply NoDup_seqZ.
  - rewrite Z2Nat.id by lia. apply elem_of_seqZ. lia.
  - rewrite length_insert. lia.
Qed.

(** C4 (amended): for each peer [other] the sample of a trial whose readings
    are below [2^51] in size is [Tstart - (Tother - (Tend - Tstart)/2)],
    that is [Tstart - Tother + Tcomms] with [Tcomms = (Tend - Tstart)/2],
    computed without rounding; the first trial of the pass adds no sample;
    and what is stored in [offsets[other]] is the mean of the remaining
    [NumTests - 1] samples converted to [int64_t], that is with its fraction
    dropped, towards zero. *)
Theorem clock_offset_estimate (nThreads : Z) (obs : Z -> Z -> trial)
    (offsets : list Z) (other : Z) :
  1 <= other < nThreads -> nThreads <= Z.of_nat (length offsets) ->
  let stat := clockTrials (obs other) in
  let mean := getMean stat in
  let stored := Qtrunc mean in
  (forall t : trial,
     smallReadings t ->
     (offsetSample t
      == inject_Z (Tstart t)
         - (inject_Z (Tother t) - (inject_Z (Tend t) - inject_Z (Tstart t)) / 2))%Q /\
     (offsetSample t
      == inject_Z (Tstart t) - inject_Z (Tother t)
         + (inject_Z (Tend t) - inject_Z (Tstart t)) / 2)%Q) /\
  samples stat = (fun i => offsetSample (obs other i)) <$> seqZ 1 (NumTests - 1) /\
  (mean == Qsum (samples stat) / inject_Z (NumTests - 1))%Q /\
  cells (computeClockOffset nThreads obs offsets) !! Z.to_nat other
  = Some stored /\
  ((0 <= mean -> inject_Z stored <= mean /\ mean < inject_Z stored + 1) /\
   (mean <= 0 -> inject_Z stored - 1 < mean /\ mean <= inject_Z stored))%Q.
Proof.
  intros Hother Hlen stat mean stored.
  split; [exact offsetSample_formula |].
  split; [apply clockTrials_samples |].
  split.
  - subst mean. unfold getMean. subst stat.
    rewrite clockTrials_samples, length_fmap, length_seqZ.
    rewrite Z2Nat.id by (unfold NumTests; lia). reflexivity.
  - split; [| apply Qtrunc_bounds].
    apply computeClockOffset_peer; assumption.
Qed.

Lemma clock_offset_estimate_witness :
  let obs := fun _ _ : Z => mkTrial 20 30 29 in
  let stat := clockTrials (obs 1) in
  let mean := getMean stat in
  let stored := Qtrunc mean in
  (forall t : trial,
     smallReadings t ->
     (offsetSample t
      == inject_Z (Tstart t)
         - (inject_Z (Tother t) - (inject_Z (Tend t) - inject_Z (Tstart t)) / 2))%Q /\
     (offsetSample t
      == inject_Z (Tstart t) - inject_Z (Tother t)
         + (inject_Z (Tend t) - inject_Z (Tstart t)) / 2)%Q) /\
  samples stat = (fun i => offsetSample (obs 1 i)) <$> seqZ 1 (NumTests - 1) /\
  (mean == Qsum (samples stat) / inject_Z (NumTests - 1))%Q /\
  cells (computeClockOffset 2 obs [0; 0]) !! Z.to_nat 1 = Some stored /\
  ((0 <= mean -> inject_Z stored <= mean /\ mean < inject_Z stored + 1) /\
   (mean <= 0 -> inject_Z stored - 1 < mean /\ mean <= inject_Z stored))%Q.
Proof.
  assert (Hother : 1 <= 1 < 2) by lia.
  assert (Hlen : 2 <= Z.of_nat (length [0; 0])) by (simpl; lia).
  exact (clock_offset_estimate 2 (fun _ _ => mkTrial 20 30 29) [0; 0] 1
           Hother Hlen).
Defined.

Lemma Qsum_const (l : list Q) (c : Q) :
  Forall (fun x => x == c)%Q l ->
  (Qsum l == inject_Z (Z.of_nat (length l)) * c)%Q.
Proof.
  induction 1 as [| x l Hx Hl IH].
  - simpl. ring.
  - cbn [Qsum fold_right length]. fold (Qsum l). rewrite IH, Hx.
    rewrite Nat2Z.inj_succ. unfold Z.succ. rewrite inject_Z_plus. ring.
Qed.

Lemma mean_const (s : statistic) (c : Q) :
  samples s <> [] -> Forall (fun x => x == c)%Q (samples s) ->
  (getMean s == c)%Q.
Proof.
  intros Hne Hall. unfold getMean. rewrite (Qsum_const _ c Hall).
  assert (Hn : ~ (inject_Z (Z.of_nat (length (samples s))) == 0)%Q).
  { unfold Qeq. simpl. destruct (samples s); [contradiction | simpl; lia]. }
  field. exact Hn.
Qed.

(** When every trial gives the same sample, so does the mean. *)
Lemma clockTrials_const (obs : Z -> trial) (c : Q) :
  (forall i, 1 <= i < NumTests -> (offsetSample (obs i) == c)%Q) ->
  (getMean (clockTrials obs) == c)%Q.
Proof.
  intros Hc. apply mean_const.
  - rewrite clockTrials_samples. intros Habs.
    apply (f_equal length) in Habs.
    rewrite length_fmap, length_seqZ in Habs. unfold NumTests in Habs.
    simpl in Habs. lia.
  - rewrite clockTrials_samples. apply Forall_fmap, Forall_seqZ.
    intros i Hi. apply Hc. lia.
Qed.

(** C4 as stated fails: with [Tstart = 20], [Tother = 30], [Tend = 29] in
    every trial each sample is [-11/2], so is their mean, and the value
    stored in [offsets[1]] is [-5]. *)
Lemma clock_offset_stored_is_not_the_mean :
  let obs := fun _ _ : Z => mkTrial 20 30 29 in
  let mean := getMean (clockTrials (obs 1)) in
  (mean == -11 # 2)%Q /\
  cells (computeClockOffset 2 obs [0; 0]) !! 1%nat = Some (-5) /\
  ~ (inject_Z (-5) == mean)%Q.
Proof.
  assert (Hsample : (offsetSample (mkTrial 20 30 29) == -11 # 2)%Q).
  { assert (Hsmall : smallReadings (mkTrial 20 30 29))
      by (unfold smallReadings; simpl; lia).
    rewrite (offsetSample_exact _ Hsmall). reflexivity. }
  assert (Hmean : (getMean (clockTrials (fun _ => mkTrial 20 30 29)) == -11 # 2)%Q)
    by (apply clockTrials_const; intros i _; exact Hsample).
  split; [exact Hmean |]. split.
  - change 1%nat with (Z.to_nat 1).
    rewrite (computeClockOffset_peer 2 (fun _ _ => mkTrial 20 30 29) [0; 0] 1)
      by (simpl; lia).
    apply (f_equal Some).
    pose proof (Qtrunc_bounds (getMean (clockTrials (fun _ => mkTrial 20 30 29))))
      as (_ & Hneg).
    generalize dependent (Qtrunc (getMean (clockTrials (fun _ => mkTrial 20 30 29)))).
    intros z Hneg. rewrite Hmean in Hneg.
    destruct Hneg as (Hlo & Hhi); [discriminate |].
    unfold Qlt, Qle, Qminus, Qplus, Qopp, inject_Z in Hlo, Hhi.
    cbn [Qnum Qden] in Hlo, Hhi. lia.
  - intros Habs. rewrite Hmean in Habs. discriminate Habs.
Qed.

(** ** Visibility: which arrivals the elapsed value covers *)

(** With [n] the poller count, [longestInterval] ends at position [n - 1]:
    the arrival of the poller at position [n] is left out. *)
Lemma longestInterval_stops_short (array : list Z) (n : Z) :
  longestInterval array n = latestArrival array (n - 1) - array !!! 0%nat.
Proof.
  unfold longestInterval, latestArrival, later.
  replace (n - 1 - 1) with (n - 2) by lia. reflexivity.
Qed.

(** C1 at [nThreads = 3], [from = 0], [sharing = 2]: the source stores at
    tick 100, the pollers at positions 1 and 2 see the store at ticks 110
    and 150 (all clock offsets zero).  The latest arrival is 50 ticks after
    the store, but the elapsed value that is computed and recorded is 10. *)
Theorem visibility_elapsed_misses_last_poller :
  let now := fun me : Z => if me =? 0 then 100 else if me =? 1 then 110 else 150 in
  let st := mkVis [reset; reset; reset] (replicate (Z.to_nat MAX_THREADS) 0) [] in
  let times := observePhase 3 0 2 [0; 0; 0] now (threadTimes st) in
  Visibility.whatIDo (logicalPos 1 3 0) 2 = Visibility.polling /\
  Visibility.whatIDo (logicalPos 2 3 0) 2 = Visibility.polling /\
  times !! 0%nat = Some 100 /\ times !! 1%nat = Some 110 /\
  times !! 2%nat = Some 150 /\
  latestArrival times 2 - times !!! 0%nat = 50 /\
  longestInterval times 2 = 10 /\
  stats (visSample 3 0 2 [0; 0; 0] now st) !! 2%nat
  = Some (mkStat [inject_Z 10]).
Proof. vm_compute. repeat split; reflexivity. Qed.

(** ** Runs of the process *)

Lemma M_bind_inl {A B : Type} (out : list event) (a : A) (f : A -> M B) :
  ((out, inl a) : M A) ≫= f = (out ++ (f a).1, (f a).2).
Proof. unfold mbind, M_bind. destruct (f a). reflexivity. Qed.

Lemma M_bind_inr {A B : Type} (out : list event) (t : termination)
    (f : A -> M B) :
  ((out, inr t) : M A) ≫= f = (out, inr t).
Proof. reflexivity. Qed.

Lemma M_bind_ret {A B : Type} (a : A) (f : A -> M B) : mret a ≫= f = f a.
Proof. unfold mret, M_ret. rewrite M_bind_inl. destruct (f a). reflexivity. Qed.

Lemma returns_ret {A : Type} (P : event -> Prop) (a : A) : returns P (mret a) a.
Proof. exists []. split; [reflexivity | constructor]. Qed.

Lemma returns_emit (P : event -> Prop) (e : event) :
  P e -> returns P (emit e) tt.
Proof. intros He. exists [e]. split; [reflexivity | repeat constructor; exact He]. Qed.

Lemma returns_bind {A B : Type} (P : event -> Prop) (m : M A) (f : A -> M B)
    (a : A) (b : B) :
  returns P m a -> returns P (f a) b -> returns P (m ≫= f) b.
Proof.
  intros (out1 & -> & H1) (out2 & Hf & H2).
  exists (out1 ++ out2). rewrite M_bind_inl, Hf. split; [reflexivity |].
  apply Forall_app. split; assumption.
Qed.

Lemma ends_bind {A B : Type} (P : event -> Prop) (m : M A) (f : A -> M B)
    (a : A) (t : termination) :
  returns P m a -> ends P (f a) t -> ends P (m ≫= f) t.
Proof.
  intros (out1 & -> & H1) (out2 & Hf & H2).
  exists (out1 ++ out2). rewrite M_bind_inl, Hf. split; [reflexivity |].
  apply Forall_app. split; assumption.
Qed.

Lemma ends_first {A B : Type} (P : event -> Prop) (m : M A) (f : A -> M B)
    (t : termination) :
  ends P m t -> ends P (m ≫= f) t.
Proof. intros (out & -> & H). exists out. split; [reflexivity | exact H]. Qed.

Lemma ends_halt {A : Type} (P : event -> Prop) (t : termination) :
  ends P (halt t : M A) t.
Proof. exists []. split; [reflexivity | constructor]. Qed.

Lemma returns_when (P : event -> Prop) (b : bool) (m : M unit) :
  (b = true -> returns P m tt) -> returns P (when b m) tt.
Proof. destruct b; intros H; [apply H; reflexivity | apply returns_ret]. Qed.

Lemma returns_forM_ {A : Type} (P : event -> Prop) (l : list A)
    (f : A -> M unit) :
  (forall x, returns P (f x) tt) -> returns P (forM_ l f) tt.
Proof.
  intros Hf. induction l as [| x l IH]; simpl.
  - apply returns_ret.
  - eapply returns_bind; [apply Hf | exact IH].
Qed.

Lemma returns_weaken {A : Type} (P Q : event -> Prop) (m : M A) (a : A) :
  (forall e, P e -> Q e) -> returns P m a -> returns Q m a.
Proof.
  intros HPQ (out & -> & H). exists out. split; [reflexivity |].
  eapply Forall_impl; eassumption.
Qed.

Lemma print_notSamples (s : stream) (fmt : string) (args : list arg) :
  notSamples (Print s fmt args).
Proof. intros m. discriminate. Qed.

Lemma help_notSamples : notSamples Help.
Proof. intros m. discriminate. Qed.

Lemma affinityWarning_notSamples (e : event) : affinityWarning e -> notSamples e.
Proof. intros [me ->]. apply print_notSamples. Qed.

Lemma forceAffinity_returns (env : Env) (nThreads : Z) :
  returns affinityWarning (Driver.forceAffinity env nThreads) tt.
Proof.
  unfold Driver.forceAffinity. apply returns_forM_. intros me.
  apply returns_when. intros _. apply returns_emit. exists me. reflexivity.
Qed.

Lemma printStats_returns (line : bool) (base count offset : Z) :
  returns notSamples (Driver.printStats line base count offset) tt.
Proof.
  unfold Driver.printStats. apply returns_forM_. intros i.
  apply returns_emit, print_notSamples.
Qed.

(** *** The checks before the [switch] *)

Lemma startup_too_many (env : Env) (nThreads : Z) (argv : list string) :
  MAX_THREADS < nThreads ->
  startup env nThreads argv
  = ([Print Stdout "%d threads available, increase MAX_THREADS (%d)\n"
        [AInt nThreads; AInt MAX_THREADS]], inr (Return 1)).
Proof.
  intros H. unfold startup.
  rewrite (proj2 (Z.ltb_lt _ _) H). reflexivity.
Qed.

Lemma startup_too_few (env : Env) (nThreads : Z) (argv : list string) :
  nThreads < 2 ->
  startup env nThreads argv
  = ([Print Stdout "Need more than one thread\n" []], inr (Return 1)).
Proof.
  intros H. unfold startup.
  rewrite (proj2 (Z.ltb_ge MAX_THREADS nThreads)) by (unfold MAX_THREADS; lia).
  rewrite (proj2 (Z.ltb_lt nThreads 2) H). reflexivity.
Qed.

Lemma startup_no_argument (env : Env) (nThreads : Z) (argv : list string) :
  2 <= nThreads <= MAX_THREADS -> (length argv < 2)%nat ->
  startup env nThreads argv
  = ([Print Stdout "Need an argument\n" []; Help], inr (Return 1)).
Proof.
  intros Hn Hargc. unfold startup.
  rewrite (proj2 (Z.ltb_ge MAX_THREADS nThreads)) by lia.
  rewrite (proj2 (Z.ltb_ge nThreads 2)) by lia.
  rewrite (proj2 (Z.ltb_lt (Z.of_nat (length argv)) 2)) by lia.
  reflexivity.
Qed.

(** Past its three checks [startup] is the binding of the threads followed by
    the allocation of the measurement array. *)
Lemma startup_checks_pass (env : Env) (nThreads : Z) (argv : list string) :
  2 <= nThreads <= MAX_THREADS -> (2 <= length argv)%nat ->
  startup env nThreads argv
  = (Driver.forceAffinity env nThreads ;;
     Driver.new_ env MeasurementArray ;;
     Driver.checkCacheAligned env MeasurementArray 0 ;;
     Driver.checkCacheAligned env MeasurementArray 1).
Proof.
  intros Hn Hargc. unfold startup.
  rewrite (proj2 (Z.ltb_ge MAX_THREADS nThreads)) by lia.
  rewrite (proj2 (Z.ltb_ge nThreads 2)) by lia.
  rewrite (proj2 (Z.ltb_ge (Z.of_nat (length argv)) 2)) by lia.
  unfold when. rewrite !M_bind_ret. reflexivity.
Qed.

Lemma startup_returns (env : Env) (nThreads : Z) (argv : list string) :
  2 <= nThreads <= MAX_THREADS -> (2 <= length argv)%nat ->
  newFails env MeasurementArray = false ->
  misaligned env MeasurementArray 0 = false ->
  misaligned env MeasurementArray 1 = false ->
  returns affinityWarning (startup env nThreads argv) tt.
Proof.
  intros Hn Hargc Hnew Ha0 Ha1.
  rewrite startup_checks_pass by assumption.
  eapply returns_bind; [apply forceAffinity_returns |].
  unfold Driver.new_, Driver.checkCacheAligned. rewrite Hnew, Ha0, Ha1.
  unfold when. rewrite !M_bind_ret. apply returns_ret.
Qed.

Lemma startup_new_fails (env : Env) (nThreads : Z) (argv : list string) :
  2 <= nThreads <= MAX_THREADS -> (2 <= length argv)%nat ->
  newFails env MeasurementArray = true ->
  ends affinityWarning (startup env nThreads argv) Terminate.
Proof.
  intros Hn Hargc Hnew.
  rewrite startup_checks_pass by assumption.
  eapply ends_bind; [apply forceAffinity_returns |].
  unfold Driver.new_. rewrite Hnew.
  apply ends_first, ends_halt.
Qed.

Lemma main_startup_ends (env : Env) (nThreads : Z) (argv : list string)
    (out : list event) (t : termination) :
  startup env nThreads argv = (out, inr t) ->
  main env nThreads argv = (out, t).
Proof. intros H. unfold main, mainBody. rewrite H. reflexivity. Qed.

Lemma main_experiment_ends (env : Env) (nThreads : Z) (argv : list string)
    (pre out : list event) (t : termination) :
  startup env nThreads argv = (pre, inl tt) ->
  experiment env nThreads argv = (out, inr t) ->
  main env nThreads argv = (pre ++ out, t).
Proof.
  intros Hs He. unfold main, mainBody.
  rewrite Hs, M_bind_inl, He. reflexivity.
Qed.

(** *** The selectors *)

Lemma experiment_unknown (env : Env) (nThreads : Z) (argv : list string) :
  unknownExperiment (charAt (argvAt argv 1) 0) ->
  experiment env nThreads argv
  = ([Print Stdout "Unknown experiment\n" []; Help], inr (Return 1)).
Proof.
  intros Hc. unfold experiment. cbv zeta.
  generalize dependent (charAt (argvAt argv 1) 0). intros c Hc.
  absent_eqb c Hc. reflexivity.
Qed.

Lemma experiment_placement_sharing (env : Env) (nThreads : Z)
    (argv : list string) :
  In (charAt (argvAt argv 1) 0) ["P"; "S"]%char ->
  experiment env nThreads argv = casePS env nThreads argv.
Proof.
  intros Hc. unfold experiment. cbv zeta.
  destruct Hc as [Hc | [Hc | []]]; rewrite <- Hc; decide_eqb; reflexivity.
Qed.

Lemma casePS_unknown_operation (env : Env) (nThreads : Z) (argv : list string) :
  unknownOperation (charAt (argvAt argv 1) 1) ->
  casePS env nThreads argv
  = ([Print Stdout "*** Unknown second character in %s\n"
        [AStr (argvAt argv 1)]; Help], inr (Return 1)).
Proof.
  intros Hc. unfold casePS. cbv zeta.
  generalize dependent (charAt (argvAt argv 1) 1). intros c Hc.
  absent_eqb c Hc. reflexivity.
Qed.

Lemma casePS_unknown_line_state (env : Env) (nThreads : Z)
    (argv : list string) :
  In (charAt (argvAt argv 1) 1) ["r"; "w"; "a"]%char ->
  unknownLineState (charAt (argvAt argv 1) 2) ->
  casePS env nThreads argv
  = ([Print Stdout "*** Unkown third character in %s\n"
        [AStr (argvAt argv 1)]; Help], inr (Return 1)).
Proof.
  intros Hop Hc. unfold casePS. cbv zeta.
  generalize dependent (charAt (argvAt argv 1) 2). intros c Hc.
  destruct Hop as [Hop | [Hop | [Hop | []]]]; rewrite <- Hop; decide_eqb;
    rewrite M_bind_ret; absent_eqb c Hc; reflexivity.
Qed.

Lemma startup_misaligned (env : Env) (nThreads : Z) (argv : list string) :
  2 <= nThreads <= MAX_THREADS -> (2 <= length argv)%nat ->
  newFails env MeasurementArray = false ->
  misaligned env MeasurementArray 0 = true
  \/ misaligned env MeasurementArray 1 = true ->
  exists out, startup env nThreads argv = (out, inr (Exit 1)).
Proof.
  intros Hn Hargc Hnew Hmis.
  rewrite startup_checks_pass by assumption.
  destruct (forceAffinity_returns env nThreads) as (pre & Haff & _).
  rewrite Haff. unfold Driver.new_, Driver.checkCacheAligned. rewrite Hnew.
  destruct (misaligned env MeasurementArray 0) eqn:Ha0.
  - eexists. reflexivity.
  - destruct Hmis as [Hmis | Hmis]; [discriminate |].
    rewrite Hmis. eexists. reflexivity.
Qed.

(** C8 (amended): every configuration error that [main] checks for - a
    thread count above [MAX_THREADS] or below 2, a missing argument, an
    unknown experiment letter, or for placement and sharing an unknown
    operation or line-state letter - is fatal: the process never ends with
    status 0.  The diagnostic is printed on standard output, at most the help
    text follows it, and [main] returns status 1; nothing but the affinity
    warnings precedes the diagnostic.  (Only when the allocation or the
    alignment check of the measurement array fails before the selectors are
    looked at does the process end without that diagnostic.) *)
Theorem config_error_fatal (env : Env) (nThreads : Z) (argv : list string) :
  configError nThreads argv ->
  fatal (main env nThreads argv).2 /\
  (earlyError nThreads argv \/ startupOk env ->
   exists pre fmt args help,
     main env nThreads argv = (pre ++ Print Stdout fmt args :: help, Return 1) /\
     In fmt configDiagnostics /\
     Forall affinityWarning pre /\
     (help = [] \/ help = [Help])).
Proof.
  intros Herr.
  assert (Hdiag : forall pre fmt args help,
            main env nThreads argv
            = (pre ++ Print Stdout fmt args :: help, Return 1) ->
            In fmt configDiagnostics -> Forall affinityWarning pre ->
            help = [] \/ help = [Help] ->
            fatal (main env nThreads argv).2 /\
            (earlyError nThreads argv \/ startupOk env ->
             exists pre fmt args help,
               main env nThreads argv
               = (pre ++ Print Stdout fmt args :: help, Return 1) /\
               In fmt configDiagnostics /\
               Forall affinityWarning pre /\
               (help = [] \/ help = [Help]))).
  { intros pre fmt args help Hrun Hfmt Hpre Hhelp. split.
    - rewrite Hrun. discriminate.
    - intros _. exists pre, fmt, args, help. auto. }
  destruct (Z_lt_ge_dec MAX_THREADS nThreads) as [Hmany | Hmax].
  { apply (Hdiag [] _ _ []
             (main_startup_ends _ _ _ _ _ (startup_too_many env nThreads argv Hmany)));
      [simpl; tauto | constructor | left; reflexivity]. }
  destruct (Z_lt_ge_dec nThreads 2) as [Hfew | Hmin].
  { apply (Hdiag [] _ _ []
             (main_startup_ends _ _ _ _ _ (startup_too_few env nThreads argv Hfew)));
      [simpl; tauto | constructor | left; reflexivity]. }
  assert (Hn : 2 <= nThreads <= MAX_THREADS) by lia.
  destruct (Nat.lt_ge_cases (length argv) 2) as [Hnoarg | Hargc].
  { apply (Hdiag [] _ _ [Help]
             (main_startup_ends _ _ _ _ _
                (startup_no_argument env nThreads argv Hn Hnoarg)));
      [simpl; tauto | constructor | right; reflexivity]. }
  assert (Hearly : ~ earlyError nThreads argv) by (unfold earlyError; lia).
  destruct (newFails env MeasurementArray) eqn:Hnew.
  { destruct (startup_new_fails env nThreads argv Hn Hargc Hnew)
      as (out & Hstart & _).
    rewrite (main_startup_ends _ _ _ _ _ Hstart). split; [discriminate |].
    intros [He | (Hok & _)]; [contradiction | congruence]. }
  destruct (misaligned env MeasurementArray 0) eqn:Ha0.
  { destruct (startup_misaligned env nThreads argv Hn Hargc Hnew
                (or_introl Ha0)) as (out & Hstart).
    rewrite (main_startup_ends _ _ _ _ _ Hstart). split; [discriminate |].
    intros [He | (_ & Hok & _)]; [contradiction | congruence]. }
  destruct (misaligned env MeasurementArray 1) eqn:Ha1.
  { destruct (startup_misaligned env nThreads argv Hn Hargc Hnew
                (or_intror Ha1)) as (out & Hstart).
    rewrite (main_startup_ends _ _ _ _ _ Hstart). split; [discriminate |].
    intros [He | (_ & _ & Hok)]; [contradiction | congruence]. }
  destruct (startup_returns env nThreads argv Hn Hargc Hnew Ha0 Ha1)
    as (pre & Hstart & Hpre).
  unfold configError in Herr. cbv zeta in Herr.
  destruct Herr as [Herr | [Herr | [Herr | Herr]]]; try lia.
  destruct Herr as [Hexp | [Hps Hsel]].
  { apply (Hdiag pre _ _ [Help]
             (main_experiment_ends _ _ _ _ _ _ Hstart
                (experiment_unknown env nThreads argv Hexp)));
      [simpl; tauto | assumption | right; reflexivity]. }
  pose proof (experiment_placement_sharing env nThreads argv Hps) as Hcase.
  destruct (in_dec ascii_dec (charAt (argvAt argv 1) 1) ["r"; "w"; "a"]%char)
    as [Hop | Hop].
  - destruct Hsel as [Hbad | Hstate]; [contradiction |].
    rewrite (casePS_unknown_line_state env nThreads argv Hop Hstate) in Hcase.
    apply (Hdiag pre _ _ [Help]
             (main_experiment_ends _ _ _ _ _ _ Hstart Hcase));
      [simpl; tauto | assumption | right; reflexivity].
  - rewrite (casePS_unknown_operation env nThreads argv Hop) in Hcase.
    apply (Hdiag pre _ _ [Help]
             (main_experiment_ends _ _ _ _ _ _ Hstart Hcase));
      [simpl; tauto | assumption | right; reflexivity].
Qed.

Lemma config_error_fatal_witness :
  let run := main (plainEnv false) 1 ["loadsStores"; "M"]%string in
  configError 1 ["loadsStores"; "M"]%string /\
  fatal run.2 /\
  (earlyError 1 ["loadsStores"; "M"]%string \/ startupOk (plainEnv false) ->
   exists pre fmt args help,
     run = (pre ++ Print Stdout fmt args :: help, Return 1) /\
     In fmt configDiagnostics /\
     Forall affinityWarning pre /\
     (help = [] \/ help = [Help])).
Proof.
  assert (Herr : configError 1 ["loadsStores"; "M"]%string)
    by (right; left; lia).
  split; [exact Herr |].
  exact (config_error_fatal (plainEnv false) 1 ["loadsStores"; "M"]%string Herr).
Defined.

(** C8 as stated fails: with a single thread the run is a configuration
    error, the diagnostic goes to standard output and nothing at all is
    written to standard error. *)
Lemma config_diagnostic_not_on_stderr :
  let run := main (plainEnv false) 1 ["loadsStores"; "M"]%string in
  configError 1 ["loadsStores"; "M"]%string /\
  run = ([Print Stdout "Need more than one thread\n" []], Return 1) /\
  ~ (exists fmt args, In (Print Stderr fmt args) run.1).
Proof.
  split; [right; left; lia |].
  split; [reflexivity |].
  intros (fmt & args & [Habs | []]). discriminate Habs.
Qed.

(** ** Allocation failures *)

Lemma measureLinePlacement_malloc_fails (env : Env) (otherThread : Z) :
  mallocFails env = true ->
  Driver.measureLinePlacement env false otherThread
  = ([Print Stderr "Cannot allocate a page\n" []], inl false).
Proof.
  intros H. unfold Driver.measureLinePlacement, Driver.allocatePageOfChannels.
  rewrite H. reflexivity.
Qed.

Lemma linePlacementRuns_malloc_fails (env : Env) (testThread : Z)
    (runs : list Z) :
  mallocFails env = true ->
  returns notSamples (linePlacementRuns env testThread runs false) tt.
Proof.
  intros H. induction runs as [| i runs IH]; cbn [linePlacementRuns].
  - apply returns_ret.
  - rewrite measureLinePlacement_malloc_fails by assumption.
    eapply (returns_bind _ _ _ false).
    { eexists. split; [reflexivity |].
      repeat constructor. apply print_notSamples. }
    eapply returns_bind.
    { apply returns_when. intros _. apply returns_emit, print_notSamples. }
    eapply returns_bind; [apply returns_emit, print_notSamples |].
    eapply returns_bind; [apply printStats_returns | exact IH].
Qed.

Lemma caseL_malloc_fails (env : Env) (nThreads : Z) :
  mallocFails env = true ->
  exists rest,
    caseL env nThreads
    = (Print Stderr "Cannot allocate a page\n" [] :: rest, inr (Return 0)) /\
    Forall notSamples rest.
Proof.
  intros H. unfold caseL. cbv zeta.
  rewrite measureLinePlacement_malloc_fails by assumption.
  destruct (linePlacementRuns_malloc_fails env (nThreads - 1) (seqZ 0 5) H)
    as (out & Hruns & Hout).
  rewrite M_bind_inl, Hruns, M_bind_inl.
  exists (out ++ []). split; [reflexivity |].
  rewrite app_nil_r. exact Hout.
Qed.

Lemma experiment_line_placement (env : Env) (nThreads : Z) (argv : list string) :
  charAt (argvAt argv 1) 0 = "L"%char ->
  experiment env nThreads argv = caseL env nThreads.
Proof. intros Hc. unfold experiment. cbv zeta. rewrite Hc. reflexivity. Qed.

(** C6 (amended): a failed [new] ends the process, the exception being
    caught nowhere: so for the measurement array in [main], for the local
    array of the placement protocol, the channel of the round-trip protocol
    and the line of the visibility protocol.  A failed allocation of the
    page of channels is reported on standard error but is not fatal:
    [measureLinePlacement] returns without taking a sample, and [main] goes
    on, prints its report and returns 0. *)
Theorem allocation_failure_outcomes (env : Env) (nThreads : Z)
    (argv : list string) :
  2 <= nThreads <= MAX_THREADS -> (2 <= length argv)%nat ->
  (newFails env MeasurementArray = true ->
   (main env nThreads argv).2 = Terminate) /\
  (forall op modified from,
     inTeam nThreads from = true -> newFails env PlacementArray = true ->
     Driver.measurePlacementFrom env nThreads op modified from false
     = ([], inr Terminate)) /\
  (forall chan source,
     inTeam nThreads source = true ->
     newFails env RoundtripChannel = true ->
     Driver.measureRoundtripFrom chan env nThreads source
     = ([], inr Terminate)) /\
  (forall from,
     newFails env BroadcastLine = true ->
     Driver.measureVisibilityFrom env nThreads from = ([], inr Terminate)) /\
  (mallocFails env = true ->
   (forall otherThread,
      Driver.measureLinePlacement env false otherThread
      = ([Print Stderr "Cannot allocate a page\n" []], inl false)) /\
   (newFails env MeasurementArray = false ->
    misaligned env MeasurementArray 0 = false ->
    misaligned env MeasurementArray 1 = false ->
    charAt (argvAt argv 1) 0 = "L"%char ->
    let run := main env nThreads argv in
    run.2 = Return 0 /\
    In (Print Stderr "Cannot allocate a page\n" []) run.1 /\
    Forall notSamples run.1)).
Proof.
  intros Hn Hargc. split; [| split; [| split; [| split]]].
  - intros Hnew.
    destruct (startup_new_fails env nThreads argv Hn Hargc Hnew)
      as (out & Hstart & _).
    rewrite (main_startup_ends _ _ _ _ _ Hstart). reflexivity.
  - intros op modified from Hteam Hnew. unfold Driver.measurePlacementFrom.
    rewrite Hteam. unfold Driver.new_. rewrite Hnew. reflexivity.
  - intros chan source Hteam Hnew. unfold Driver.measureRoundtripFrom.
    rewrite Hteam. unfold Driver.new_. rewrite Hnew. reflexivity.
  - intros from Hnew. unfold Driver.measureVisibilityFrom, Driver.new_.
    rewrite Hnew. reflexivity.
  - intros Hmalloc. split.
    + intros otherThread. apply measureLinePlacement_malloc_fails. assumption.
    + intros Hnew Ha0 Ha1 HL run. subst run.
      destruct (startup_returns env nThreads argv Hn Hargc Hnew Ha0 Ha1)
        as (pre & Hstart & Hpre).
      destruct (caseL_malloc_fails env nThreads Hmalloc) as (rest & HcaseL & Hrest).
      rewrite (main_experiment_ends _ _ _ pre _ (Return 0) Hstart)
        by (rewrite experiment_line_placement by assumption; exact HcaseL).
      cbn [fst snd]. split; [reflexivity | split].
      * apply in_or_app. right. left. reflexivity.
      * apply Forall_app. split.
        -- eapply Forall_impl; [exact Hpre | apply affinityWarning_notSamples].
        -- constructor; [apply print_notSamples | exact Hrest].
Qed.

Lemma allocation_failure_outcomes_witness :
  let env := plainEnv true in
  let run := main env 4 ["loadsStores"; "L"]%string in
  run.2 = Return 0 /\
  In (Print Stderr "Cannot allocate a page\n" []) run.1 /\
  Forall notSamples run.1.
Proof.
  assert (Hn : 2 <= 4 <= MAX_THREADS) by (unfold MAX_THREADS; lia).
  assert (Hargc : (2 <= length ["loadsStores"; "L"]%string)%nat) by (simpl; lia).
  exact (proj2 (proj2 (proj2 (proj2 (proj2
           (allocation_failure_outcomes (plainEnv true) 4
              ["loadsStores"; "L"]%string Hn Hargc))))
           eq_refl) eq_refl eq_refl eq_refl eq_refl).
Defined.

(** C6 as stated fails: when the page of channels cannot be allocated the
    process does not abort; the message is the first thing written, the
    report is printed to its last line, and [main] returns 0. *)
Lemma page_allocation_failure_is_not_fatal :
  let run := main (plainEnv true) 4 ["loadsStores"; "L"]%string in
  head run.1 = Some (Print Stderr "Cannot allocate a page\n" []) /\
  last run.1 = Some (Print Stdout "%6d, %s\n" [AInt 63; AStat true 63]) /\
  run.2 = Return 0 /\
  ~ fatal run.2.
Proof.
  vm_compute. repeat split. intros Habs. apply Habs. reflexivity.
Qed.

(** * Further results *)

(** ** Addresses *)

Lemma land_low_mask (k x : Z) :
  0 <= k -> Z.land x (2 ^ k - 1) = x mod 2 ^ k.
Proof.
  intros Hk. rewrite <- Z.land_ones by assumption.
  rewrite Z.ones_equiv. reflexivity.
Qed.

(** Clearing the low [k] bits of a 64-bit value rounds it down to a multiple
    of [2^k]. *)
Lemma land_high_mask (k x : Z) :
  0 <= k -> 0 <= x < 2 ^ 64 ->
  Z.land x (uintptr_wrap (Z.lnot (2 ^ k - 1))) = 2 ^ k * (x / 2 ^ k).
Proof.
  intros Hk Hx. unfold uintptr_wrap.
  rewrite <- (Z.land_ones (Z.lnot (2 ^ k - 1)) 64) by lia.
  rewrite Z.land_assoc, (Z.land_comm x), <- Z.land_assoc.
  rewrite (Z.land_ones x 64), (Z.mod_small x) by lia.
  rewrite Z.land_comm, <- Z.ldiff_land.
  replace (2 ^ k - 1) with (Z.ones k) by (rewrite Z.ones_equiv; lia).
  rewrite Z.ldiff_ones_r by assumption.
  rewrite Z.shiftl_mul_pow2, Z.shiftr_div_pow2 by assumption. lia.
Qed.

(** The page lies at or after the start of the block. *)
Lemma pageOf_after (k space : Z) :
  0 <= k -> 0 < space -> space + 2 * 2 ^ k <= 2 ^ 64 ->
  space <= pageOf (2 ^ k) space.
Proof.
  intros Hk Hspace Hfit.
  assert (HP : 0 < 2 ^ k) by (apply Z.pow_pos_nonneg; lia).
  unfold pageOf. unfold uintptr_wrap at 1.
  rewrite (Z.mod_small (space + 2 ^ k - 1)) by lia.
  rewrite land_high_mask by lia.
  pose proof (Z.div_mod (space + 2 ^ k - 1) (2 ^ k) ltac:(lia)) as Hdm.
  pose proof (Z.mod_pos_bound (space + 2 ^ k - 1) (2 ^ k) HP) as Hmb.
  lia.
Qed.

(** X1: [allocatePageOfChannels] reports a null pointer and returns no page;
    otherwise the page it returns is a multiple of [PAGE_SIZE], lies at most
    [PAGE_SIZE - 1] bytes after the start of the block, leaves room for a
    whole page before the end of the [2 * PAGE_SIZE] bytes, and every channel
    it initialises lies inside the block. *)
Theorem allocatePageOfChannels_in_block (k channelSize space : Z) :
  0 <= k -> 0 < channelSize -> 0 < space -> space + 2 * 2 ^ k <= 2 ^ 64 ->
  let PAGE_SIZE := 2 ^ k in
  allocatePageOfChannels PAGE_SIZE channelSize 0
  = ([Print Stderr "Cannot allocate a page\n" []], inl None) /\
  exists page channels,
    allocatePageOfChannels PAGE_SIZE channelSize space
    = ([], inl (Some (page, channels))) /\
    page mod PAGE_SIZE = 0 /\
    space <= page < space + PAGE_SIZE /\
    page + PAGE_SIZE <= space + 2 * PAGE_SIZE /\
    length channels = Z.to_nat (PAGE_SIZE / channelSize) /\
    Forall (fun a => page <= a /\ a + channelSize <= page + PAGE_SIZE) channels.
Proof.
  intros Hk Hcs Hspace Hfit PAGE_SIZE.
  assert (HP : 0 < PAGE_SIZE) by (apply Z.pow_pos_nonneg; lia).
  split; [reflexivity |].
  exists (pageOf PAGE_SIZE space),
    (channelsOfPage PAGE_SIZE channelSize (pageOf PAGE_SIZE space)).
  assert (Hpage : pageOf PAGE_SIZE space
                  = PAGE_SIZE * ((space + PAGE_SIZE - 1) / PAGE_SIZE)).
  { unfold pageOf. unfold uintptr_wrap at 1.
    rewrite (Z.mod_small (space + PAGE_SIZE - 1)) by (fold PAGE_SIZE in Hfit; lia).
    apply land_high_mask; [assumption | fold PAGE_SIZE in Hfit; lia]. }
  pose proof (Z.div_mod (space + PAGE_SIZE - 1) PAGE_SIZE ltac:(lia)) as Hdm.
  pose proof (Z.mod_pos_bound (space + PAGE_SIZE - 1) PAGE_SIZE HP) as Hmb.
  split; [| split; [| split; [| split; [| split]]]].
  - unfold allocatePageOfChannels.
    destruct (Z.eqb_spec space 0) as [Hz | _]; [lia | reflexivity].
  - rewrite Hpage, Z.mul_comm. apply Z.mod_mul. lia.
  - rewrite Hpage. lia.
  - rewrite Hpage. lia.
  - unfold channelsOfPage. rewrite length_fmap. apply length_seqZ.
  - unfold channelsOfPage. apply Forall_fmap, Forall_seqZ.
    intros i Hi. simpl.
    pose proof (Z.mul_div_le PAGE_SIZE channelSize Hcs) as Hle.
    split; nia.
Qed.

Lemma allocatePageOfChannels_in_block_witness :
  let PAGE_SIZE := 2 ^ 12 in
  allocatePageOfChannels PAGE_SIZE 64 0
  = ([Print Stderr "Cannot allocate a page\n" []], inl None) /\
  exists page channels,
    allocatePageOfChannels PAGE_SIZE 64 4104
    = ([], inl (Some (page, channels))) /\
    page mod PAGE_SIZE = 0 /\
    4104 <= page < 4104 + PAGE_SIZE /\
    page + PAGE_SIZE <= 4104 + 2 * PAGE_SIZE /\
    length channels = Z.to_nat (PAGE_SIZE / 64) /\
    Forall (fun a => page <= a /\ a + 64 <= page + PAGE_SIZE) channels.
Proof.
  apply (allocatePageOfChannels_in_block 12 64 4104); lia.
Defined.

(** X2: for a cache line of [2^k] bytes [checkCacheAligned] lets an address
    pass in silence exactly when it is a multiple of the line size; any
    other address is reported on standard error and ends the process with
    [exit(1)]. *)
Theorem checkCacheAligned_multiple (k p : Z) :
  0 <= k -> 0 <= p < 2 ^ 64 ->
  let CACHELINE_SIZE := 2 ^ k in
  (p mod CACHELINE_SIZE = 0 ->
   checkCacheAligned CACHELINE_SIZE p = ([], inl tt)) /\
  (p mod CACHELINE_SIZE <> 0 ->
   checkCacheAligned CACHELINE_SIZE p
   = ([Print Stderr "Array is not aligned as required\n" []], inr (Exit 1))).
Proof.
  intros Hk Hp CACHELINE_SIZE. unfold checkCacheAligned, cacheAligned.
  unfold uintptr_wrap. rewrite (Z.mod_small p (2 ^ 64) Hp).
  subst CACHELINE_SIZE. rewrite land_low_mask by assumption.
  split; intros Hmod.
  - rewrite Hmod. reflexivity.
  - destruct (Z.eqb_spec (p mod 2 ^ k) 0) as [Heq | _]; [contradiction |].
    reflexivity.
Qed.

Lemma checkCacheAligned_multiple_witness :
  let CACHELINE_SIZE := 2 ^ 6 in
  (4160 mod CACHELINE_SIZE = 0 ->
   checkCacheAligned CACHELINE_SIZE 4160 = ([], inl tt)) /\
  (4160 mod CACHELINE_SIZE <> 0 ->
   checkCacheAligned CACHELINE_SIZE 4160
   = ([Print Stderr "Array is not aligned as required\n" []], inr (Exit 1))).
Proof. apply (checkCacheAligned_multiple 6 4160); lia. Defined.

(** ** Visibility: what a sample records *)

Lemma fold_max_spec (f : Z -> Z) (l : list Z) (m0 : Z) :
  let r := fold_left (fun m i => Z.max m (f i)) l m0 in
  m0 <= r /\ Forall (fun i => f i <= r) l /\
  (r = m0 \/ Exists (fun i => r = f i) l).
Proof.
  revert m0. induction l as [| i l IH]; intros m0; simpl.
  - repeat split; [lia | constructor | left; reflexivity].
  - destruct (IH (Z.max m0 (f i))) as (Hge & Hall & Hatt).
    repeat split.
    + lia.
    + constructor; [lia | exact Hall].
    + destruct Hatt as [Heq | Hex].
      * destruct (Z.max_spec m0 (f i)) as [[_ Hm] | [_ Hm]].
        -- right. constructor. congruence.
        -- left. congruence.
      * right. apply Exists_cons_tl. exact Hex.
Qed.

(** X3: [longestInterval(array, n)] is the distance from [array[0]] to the
    latest of [array[1] .. array[n-1]]: it is at least the distance to each
    of them and equal to one of them.  For [n <= 2] it is
    [array[1] - array[0]]: [array[1]] is read whatever [n] is. *)
Theorem longestInterval_latest (array : list Z) (n : Z) :
  (n <= 2 -> longestInterval array n = array !!! 1%nat - array !!! 0%nat) /\
  (forall i, 1 <= i < Z.max 2 n ->
     array !!! Z.to_nat i - array !!! 0%nat <= longestInterval array n) /\
  (exists i, 1 <= i < Z.max 2 n /\
     longestInterval array n = array !!! Z.to_nat i - array !!! 0%nat).
Proof.
  unfold longestInterval, later.
  destruct (fold_max_spec (fun i => array !!! Z.to_nat i) (seqZ 2 (n - 2))
              (array !!! 1%nat)) as (Hge & Hall & Hatt).
  cbv zeta in Hge, Hall, Hatt.
  set (r := fold_left (fun maxVal i => Z.max maxVal (array !!! Z.to_nat i))
              (seqZ 2 (n - 2)) (array !!! 1%nat)) in *.
  split; [| split].
  - intros Hn. subst r. rewrite seqZ_nil by lia. reflexivity.
  - intros i Hi. destruct (Z.eq_dec i 1) as [-> | Hne].
    + change (Z.to_nat 1) with 1%nat. lia.
    + rewrite Forall_seqZ in Hall. specialize (Hall i ltac:(lia)).
      simpl in Hall. lia.
  - destruct Hatt as [Heq | Hex].
    + exists 1. split; [lia |]. change (Z.to_nat 1) with 1%nat. lia.
    + apply Exists_exists in Hex as (i & Hin & Hi).
      apply elem_of_seqZ in Hin. exists i. split; [lia | lia].
Qed.

Lemma observePhase_fold (nThreads from sharing : Z) (clockOffset : list Z)
    (now : Z -> Z) (threadTimes : list Z) :
  observePhase nThreads from sharing clockOffset now threadTimes
  = fold_left (observeStep nThreads from sharing clockOffset now)
      (seqZ 0 nThreads) threadTimes.
Proof. reflexivity. Qed.

Lemma storeCell_length (i v : Z) (array : list Z) :
  length (storeCell i v array) = length array.
Proof. unfold storeCell. destruct (i <? 0); [| apply length_insert]; reflexivity. Qed.

Lemma observeStep_length (nThreads from sharing : Z) (clockOffset : list Z)
    (now : Z -> Z) (l : list Z) (tt : list Z) :
  length (fold_left (observeStep nThreads from sharing clockOffset now) l tt)
  = length tt.
Proof.
  revert tt. induction l as [| me l IH]; intros tt; simpl; [reflexivity |].
  rewrite IH. unfold observeStep.
  destruct (Visibility.whatIDo _ _);
    rewrite ?length_insert, ?storeCell_length; reflexivity.
Qed.

(** A thread writes the cell of its logical position, if it writes at all. *)
Lemma observeStep_cell (nThreads from sharing : Z) (clockOffset : list Z)
    (now : Z -> Z) (tt : list Z) (me : Z) :
  0 <= logicalPos me nThreads from ->
  observeStep nThreads from sharing clockOffset now tt me
  = match Visibility.whatIDo (logicalPos me nThreads from) sharing with
    | Visibility.nothing => tt
    | _ => <[Z.to_nat (logicalPos me nThreads from)
             := if logicalPos me nThreads from =? 0 then now me
                else now me + clockOffset !!! Z.to_nat me]> tt
    end.
Proof.
  intros Hpos. unfold observeStep, storeCell, Visibility.whatIDo.
  rewrite (proj2 (Z.ltb_ge (logicalPos me nThreads from) 0) Hpos).
  destruct (Z.eqb_spec (logicalPos me nThreads from) 0) as [-> | _];
    [reflexivity |].
  destruct (logicalPos me nThreads from <=? sharing); reflexivity.
Qed.

Lemma observeStep_miss (nThreads from sharing : Z) (clockOffset : list Z)
    (now : Z -> Z) (l : list Z) (tt : list Z) (k : nat) :
  (forall me, me ∈ l -> 0 <= logicalPos me nThreads from) ->
  (forall me, me ∈ l ->
     Visibility.whatIDo (logicalPos me nThreads from) sharing
     <> Visibility.nothing ->
     Z.to_nat (logicalPos me nThreads from) <> k) ->
  fold_left (observeStep nThreads from sharing clockOffset now) l tt !! k
  = tt !! k.
Proof.
  revert tt. induction l as [| me l IH]; intros tt Hpos Hmiss; simpl;
    [reflexivity |].
  rewrite IH by (intros me' Hin; first [apply Hpos | apply Hmiss]; right;
                 assumption).
  rewrite observeStep_cell by (apply Hpos; left).
  pose proof (Hmiss me ltac:(left)) as Hme.
  destruct (Visibility.whatIDo (logicalPos me nThreads from) sharing);
    try reflexivity;
    apply list_lookup_insert_ne, Hme; discriminate.
Qed.

Lemma observeStep_hit (nThreads from sharing : Z) (clockOffset : list Z)
    (now : Z -> Z) (l : list Z) (tt : list Z) (k : nat) (me0 : Z) :
  (forall me, me ∈ l -> 0 <= logicalPos me nThreads from) ->
  NoDup l -> me0 ∈ l ->
  Visibility.whatIDo (logicalPos me0 nThreads from) sharing
  <> Visibility.nothing ->
  Z.to_nat (logicalPos me0 nThreads from) = k ->
  (forall me, me ∈ l -> me <> me0 ->
     Z.to_nat (logicalPos me nThreads from) <> k) ->
  (k < length tt)%nat ->
  fold_left (observeStep nThreads from sharing clockOffset now) l tt !! k
  = Some (if logicalPos me0 nThreads from =? 0 then now me0
          else now me0 + clockOffset !!! Z.to_nat me0).
Proof.
  revert tt.
  induction l as [| me l IH]; intros tt Hpos Hnd Hin Hrole Hk Hothers Hlen.
  - apply elem_of_nil in Hin. contradiction.
  - apply NoDup_cons in Hnd as [Hni Hnd]. simpl.
    assert (Hpos' : forall me', me' ∈ l -> 0 <= logicalPos me' nThreads from)
      by (intros me' Hin'; apply Hpos; right; assumption).
    apply elem_of_cons in Hin as [-> | Hin].
    + rewrite observeStep_miss.
      * rewrite observeStep_cell by (apply Hpos; left).
        destruct (Visibility.whatIDo (logicalPos me nThreads from) sharing);
          try contradiction; rewrite Hk;
          apply list_lookup_insert_eq; assumption.
      * exact Hpos'.
      * intros me' Hin' _. apply Hothers; [right; assumption |].
        intros ->. contradiction.
    + apply IH; try assumption.
      * intros me' Hin' Hne. apply Hothers; [right; assumption | assumption].
      * rewrite observeStep_cell by (apply Hpos; left).
        destruct (Visibility.whatIDo (logicalPos me nThreads from) sharing);
          rewrite ?length_insert; assumption.
Qed.

Lemma threadAt_source (nThreads from : Z) :
  0 <= from < nThreads -> threadAt 0 nThreads from = from.
Proof. intros H. unfold threadAt. rewrite Z.add_0_l. apply Z.rem_small. lia. Qed.

(** X4: after the first phase of a visibility sample [threadTimes[0]] holds
    the reading of the source thread, uncorrected; for every position [p]
    in [1 .. sharing], [threadTimes[p]] holds the reading of the thread at
    that position plus that thread's clock offset; every cell beyond
    [sharing] is left as it was. *)
Theorem observePhase_contents (nThreads from sharing : Z)
    (clockOffset : list Z) (now : Z -> Z) (threadTimes : list Z) :
  0 <= from < nThreads -> 1 <= sharing < nThreads ->
  nThreads <= Z.of_nat (length threadTimes) ->
  let times := observePhase nThreads from sharing clockOffset now threadTimes in
  length times = length threadTimes /\
  times !! 0%nat = Some (now from) /\
  (forall p, 1 <= p <= sharing ->
     let me := threadAt p nThreads from in
     times !! Z.to_nat p = Some (now me + clockOffset !!! Z.to_nat me)) /\
  (forall k, sharing < Z.of_nat k -> times !! k = threadTimes !! k).
Proof.
  intros Hfrom Hs Hlen times. subst times. rewrite observePhase_fold.
  assert (Hpos : forall me, me ∈ seqZ 0 nThreads ->
            0 <= logicalPos me nThreads from).
  { intros me Hin. apply elem_of_seqZ in Hin.
    apply (logicalPos_range me nThreads from); lia. }
  assert (Hcell : forall p, 0 <= p <= sharing ->
            fold_left (observeStep nThreads from sharing clockOffset now)
              (seqZ 0 nThreads) threadTimes !! Z.to_nat p
            = Some (if p =? 0 then now (threadAt p nThreads from)
                    else now (threadAt p nThreads from)
                         + clockOffset !!! Z.to_nat (threadAt p nThreads from))).
  { intros p Hp.
    pose proof (threadAt_range p nThreads from ltac:(lia) Hfrom) as Hme.
    pose proof (logicalPos_threadAt p nThreads from ltac:(lia) Hfrom) as Hlp.
    rewrite (observeStep_hit _ _ _ _ _ _ _ (Z.to_nat p) (threadAt p nThreads from)).
    - rewrite Hlp. reflexivity.
    - exact Hpos.
    - apply NoDup_seqZ.
    - apply elem_of_seqZ. lia.
    - rewrite Hlp. unfold Visibility.whatIDo.
      destruct (p =? 0); [discriminate |].
      rewrite (proj2 (Z.leb_le p sharing)) by lia. discriminate.
    - rewrite Hlp. reflexivity.
    - intros me Hin Hne Heq. apply elem_of_seqZ in Hin.
      pose proof (logicalPos_range me nThreads from ltac:(lia) Hfrom) as Hr.
      apply Hne. apply (logicalPos_inj me _ nThreads from); lia.
    - lia. }
  split; [apply observeStep_length | split; [| split]].
  - pose proof (Hcell 0 ltac:(lia)) as H0. change (Z.to_nat 0) with 0%nat in H0.
    rewrite H0, threadAt_source by assumption. reflexivity.
  - intros p Hp me. rewrite Hcell by lia.
    destruct (Z.eqb_spec p 0); [lia | reflexivity].
  - intros k Hk. apply observeStep_miss; [exact Hpos |].
    intros me Hin Hrole Heq. apply elem_of_seqZ in Hin.
    pose proof (logicalPos_range me nThreads from ltac:(lia) Hfrom) as Hr.
    apply Hrole. unfold Visibility.whatIDo.
    destruct (Z.eqb_spec (logicalPos me nThreads from) 0); [lia |].
    destruct (Z.leb_spec (logicalPos me nThreads from) sharing); [lia |].
    reflexivity.
Qed.

Lemma observePhase_contents_witness :
  let now := fun me : Z => 100 + 10 * me in
  let times := observePhase 4 1 2 [5; 6; 7; 8] now [0; 0; 0; 0] in
  length times = length [0; 0; 0; 0] /\
  times !! 0%nat = Some (now 1) /\
  (forall p, 1 <= p <= 2 ->
     let me := threadAt p 4 1 in
     times !! Z.to_nat p = Some (now me + [5; 6; 7; 8] !!! Z.to_nat me)) /\
  (forall k, 2 < Z.of_nat k -> times !! k = [0; 0; 0; 0] !! k).
Proof.
  apply (observePhase_contents 4 1 2 [5; 6; 7; 8] (fun me => 100 + 10 * me)
           [0; 0; 0; 0]).
  - lia.
  - lia.
  - simpl. lia.
Defined.

(** ** Visibility: what the statistics can hold *)

Lemma grewBy_refl (k : nat) (a : list statistic) : grewBy 0 k a a.
Proof.
  repeat split; try reflexivity.
  intros s Hs. exists []. rewrite app_nil_r. destruct s.
  repeat split; [exact Hs | constructor | simpl; lia].
Qed.

Lemma grewBy_trans (n m k : nat) (a b c : list statistic) :
  grewBy n k a b -> grewBy m k b c -> grewBy (n + m) k a c.
Proof.
  intros (Hl1 & Ho1 & Hk1) (Hl2 & Ho2 & Hk2). repeat split.
  - congruence.
  - intros j Hj. rewrite Ho2, Ho1 by assumption. reflexivity.
  - intros s Hs. destruct (Hk1 s Hs) as (e1 & Hb & Hp1 & Hn1).
    destruct (Hk2 _ Hb) as (e2 & Hc & Hp2 & Hn2). simpl in Hc.
    exists (e1 ++ e2). rewrite app_assoc. repeat split.
    + exact Hc.
    + apply Forall_app. split; assumption.
    + rewrite length_app. lia.
Qed.

Lemma grewBy_weaken (n m k : nat) (a b : list statistic) :
  (n <= m)%nat -> grewBy n k a b -> grewBy m k a b.
Proof.
  intros Hnm (Hl & Ho & Hk). repeat split; try assumption.
  intros s Hs. destruct (Hk s Hs) as (e & Hb & Hp & Hn).
  exists e. repeat split; [assumption | assumption | lia].
Qed.

Lemma recordPhase_grewBy (sharing : Z) (st : visState) :
  grewBy 1 (Z.to_nat sharing) (stats st) (stats (recordPhase sharing st)).
Proof.
  unfold recordPhase.
  destruct (Z.ltb_spec 0 (longestInterval (threadTimes st) sharing))
    as [Hpos | Hneg]; cbn [stats].
  - repeat split.
    + apply length_alter.
    + intros j Hj. apply list_lookup_alter_ne. congruence.
    + intros s Hs. eexists. rewrite list_lookup_alter_eq, Hs. simpl.
      repeat split.
      * repeat constructor. unfold Qlt. simpl. lia.
      * simpl. lia.
  - apply (grewBy_weaken 0); [lia | apply grewBy_refl].
Qed.

Lemma visSample_grewBy (nThreads from sharing : Z) (clockOffset : list Z)
    (now : Z -> Z) (st : visState) :
  grewBy 1 (Z.to_nat sharing) (stats st)
    (stats (visSample nThreads from sharing clockOffset now st)).
Proof. unfold visSample. apply (recordPhase_grewBy sharing (mkVis _ _ _)). Qed.

Lemma visSamples_grewBy (nThreads from sharing : Z) (clockOffset : list Z)
    (now : Z -> Z -> Z) (l : list Z) (st : visState) :
  grewBy (length l) (Z.to_nat sharing) (stats st)
    (stats (fold_left
              (fun st i => visSample nThreads from sharing clockOffset (now i) st)
              l st)).
Proof.
  revert st. induction l as [| i l IH]; intros st; simpl.
  - apply grewBy_refl.
  - apply (grewBy_trans 1 (length l) _ _
             (stats (visSample nThreads from sharing clockOffset (now i) st))).
    + apply visSample_grewBy.
    + apply IH.
Qed.

(** Over a sweep every statistic grows by at most [NumSamples] positive
    samples, and only those of the poller counts grow at all. *)
Lemma visSweep_grows (NumSamples nThreads from : Z) (clockOffset : list Z)
    (now : Z -> Z -> Z -> Z) (l : list Z) (st : visState) :
  NoDup l -> Forall (fun r => 0 <= r) l ->
  let st' :=
    fold_left
      (fun st sharing =>
         let st' :=
           fold_left
             (fun st i => visSample nThreads from sharing clockOffset
                            (now sharing i) st)
             (seqZ 0 NumSamples) st in
         mkVis (stats st') (threadTimes st') (errOut st' ++ ["."%string]))
      l st in
  length (stats st') = length (stats st) /\
  forall k s, stats st !! k = Some s ->
    exists extra, stats st' !! k = Some (mkStat (samples s ++ extra)) /\
      Forall (fun x => 0 < x)%Q extra /\
      (length extra <= Z.to_nat NumSamples)%nat /\
      (Z.of_nat k ∉ l -> extra = []).
Proof.
  revert st. induction l as [| r l IH]; intros st Hnd Hpos; cbn [fold_left].
  - split; [reflexivity |]. intros k s Hs. exists [].
    rewrite app_nil_r. destruct s.
    repeat split; [exact Hs | constructor | simpl; lia].
  - apply NoDup_cons in Hnd as [Hni Hnd]. apply Forall_cons in Hpos as [Hr Hpos].
    pose proof (visSamples_grewBy nThreads from r clockOffset (now r)
                  (seqZ 0 NumSamples) st) as (Hl1 & Ho1 & Hk1).
    rewrite length_seqZ in Hk1.
    set (st1 := fold_left _ (seqZ 0 NumSamples) st) in *.
    specialize (IH (mkVis (stats st1) (threadTimes st1)
                      (errOut st1 ++ ["."%string])) Hnd Hpos).
    cbv zeta in IH. destruct IH as (Hl2 & Hk2). cbn [stats] in Hl2, Hk2.
    split; [congruence |].
    intros k s Hs. destruct (decide (k = Z.to_nat r)) as [-> | Hne].
    + destruct (Hk1 s Hs) as (e1 & Hb & Hp1 & Hn1).
      destruct (Hk2 _ _ Hb) as (e2 & Hc & Hp2 & Hn2 & He2).
      rewrite He2 in Hc
        by (rewrite Z2Nat.id by assumption; exact Hni).
      simpl in Hc. rewrite app_nil_r in Hc.
      exists e1. repeat split; try assumption.
      intros Hout. exfalso. apply Hout, elem_of_cons. left. lia.
    + rewrite <- Ho1 in Hs by assumption.
      destruct (Hk2 _ _ Hs) as (e2 & Hc & Hp2 & Hn2 & He2).
      exists e2. repeat split; try assumption.
      intros Hout. apply He2. intros Hin. apply Hout, elem_of_cons.
      right. exact Hin.
Qed.

Lemma forEachIndex_length {A : Type} (F : Z -> A -> A) (idxs : list Z)
    (l : list A) :
  length (forEachIndex F idxs l) = length l.
Proof.
  revert l. induction idxs as [| i idxs IH]; intros l; [reflexivity |].
  rewrite forEachIndex_cons, IH. apply length_alter.
Qed.

Lemma Qdiv_pos (x : Q) (d : Z) : (0 < x)%Q -> 0 < d -> (0 < x / inject_Z d)%Q.
Proof.
  intros Hx Hd. unfold Qdiv. apply Qmult_lt_0_compat; [exact Hx |].
  apply Qinv_lt_0_compat. unfold Qlt. simpl. lia.
Qed.

(** X5: when the statistics handed to [measureVisibilityFrom] are empty,
    every sample it reports is strictly positive, no statistic holds more
    than [NumSamples] samples, and no statistic other than those of the
    poller counts [1 .. nThreads - 1] holds any. *)
Theorem visibility_samples_positive
    (measurementArraySize NumSamples nThreads from : Z)
    (obs : Z -> Z -> trial) (now : Z -> Z -> Z -> Z)
    (threadTimes0 clockOffset0 : list Z) (stats0 : list statistic) :
  0 < measurementArraySize ->
  Forall (fun s => samples s = []) stats0 ->
  forall k s,
    stats (measureVisibilityFrom measurementArraySize NumSamples nThreads from
             obs now threadTimes0 clockOffset0 stats0) !! k = Some s ->
    Forall (fun x => 0 < x)%Q (samples s) /\
    (length (samples s) <= Z.to_nat NumSamples)%nat /\
    (~ 1 <= Z.of_nat k < nThreads -> samples s = []).
Proof.
  intros Hmas Hempty k s Hs.
  unfold measureVisibilityFrom in Hs. cbn [stats] in Hs.
  unfold visSweep in Hs.
  pose proof (visSweep_grows NumSamples nThreads from
                (cells (computeClockOffset nThreads obs clockOffset0)) now
                (seqZ 1 (nThreads - 1)) (mkVis stats0 threadTimes0 [])
                (NoDup_seqZ _ _)) as Hsweep.
  cbv zeta in Hsweep.
  destruct Hsweep as (Hlen & Hgrow); [apply Forall_seqZ; lia |].
  cbn [stats] in Hlen, Hgrow.
  set (acc := stats (fold_left _ (seqZ 1 (nThreads - 1))
                       (mkVis stats0 threadTimes0 []))) in *.
  assert (Hk : (k < length stats0)%nat).
  { apply lookup_lt_Some in Hs. rewrite forEachIndex_length in Hs. lia. }
  destruct (lookup_lt_is_Some_2 stats0 k Hk) as (s0 & Hs0).
  assert (Hnil : samples s0 = []).
  { rewrite Forall_forall in Hempty. apply Hempty.
    eapply list_elem_of_lookup_2. exact Hs0. }
  destruct (Hgrow k s0 Hs0) as (extra & Hacc & Hpos & Hn & Hout).
  rewrite Hnil in Hacc. simpl in Hacc.
  destruct (decide (1 <= Z.of_nat k < nThreads)) as [Hin | Hnot].
  - rewrite <- (Nat2Z.id k) in Hs. rewrite forEachIndex_visited in Hs.
    + rewrite Nat2Z.id, Hacc in Hs. injection Hs as <-. simpl.
      repeat split.
      * apply Forall_fmap. eapply Forall_impl; [exact Hpos |].
        intros x Hx. simpl. apply Qdiv_pos; assumption.
      * rewrite length_fmap. exact Hn.
      * intros Habs. contradiction.
    + apply Forall_seqZ. lia.
    + apply NoDup_seqZ.
    + rewrite Nat2Z.id. apply elem_of_seqZ. lia.
  - rewrite forEachIndex_untouched in Hs.
    + rewrite Hacc in Hs. injection Hs as <-. simpl.
      rewrite Hout by (rewrite elem_of_seqZ; lia).
      repeat split; [constructor | simpl; lia].
    + apply Forall_seqZ. lia.
    + rewrite elem_of_seqZ. lia.
Qed.

Lemma visibility_samples_positive_witness :
  exists s,
    stats (measureVisibilityFrom 256 2 3 0 (fun _ _ => mkTrial 20 30 30)
             (fun _ _ me => 100 + 10 * me) [0; 0; 0] [0; 0; 0]
             [reset; reset; reset]) !! 1%nat = Some s /\
    Forall (fun x => 0 < x)%Q (samples s) /\
    (length (samples s) <= Z.to_nat 2)%nat /\
    (~ 1 <= Z.of_nat 1 < 3 -> samples s = []).
Proof.
  assert (Hmas : 0 < 256) by lia.
  assert (Hempty : Forall (fun s => samples s = []) [reset; reset; reset])
    by (repeat constructor).
  assert (Hidx : Forall (fun r => 0 <= r) (seqZ 1 (3 - 1)))
    by (apply Forall_seqZ; lia).
  assert (Hthree : (1 < length [reset; reset; reset])%nat)
    by (simpl; lia).
  assert (Hsome : is_Some
            (stats (measureVisibilityFrom 256 2 3 0 (fun _ _ => mkTrial 20 30 30)
                      (fun _ _ me => 100 + 10 * me) [0; 0; 0] [0; 0; 0]
                      [reset; reset; reset]) !! 1%nat)).
  { apply lookup_lt_is_Some_2. unfold measureVisibilityFrom. cbn [stats].
    rewrite forEachIndex_length. unfold visSweep.
    rewrite (proj1 (visSweep_grows 2 3 0 _ _ (seqZ 1 (3 - 1))
                      (mkVis [reset; reset; reset] [0; 0; 0] [])
                      (NoDup_seqZ _ _) Hidx)).
    exact Hthree. }
  destruct Hsome as (s & Hs). exists s. split; [exact Hs |].
  exact (visibility_samples_positive 256 2 3 0 (fun _ _ => mkTrial 20 30 30)
           (fun _ _ me => 100 + 10 * me) [0; 0; 0] [0; 0; 0]
           [reset; reset; reset] Hmas Hempty 1%nat s Hs).
Defined.

(** ** Clock offsets: what the estimate is worth *)

(** A rational that is an integer is its own truncation. *)
Lemma Qtrunc_integer (q : Q) (z : Z) : (q == inject_Z z)%Q -> Qtrunc q = z.
Proof.
  destruct q as [a b]. unfold Qeq, Qtrunc. simpl. intros H.
  replace a with (z * Z.pos b) by lia. apply Z.quot_mul. lia.
Qed.

(** X6: when the readings of every trial that counts are below [2^51] in
    size, the round trip takes [2 * d] ticks and the peer's reading is [k]
    ticks ahead of thread zero's clock at the middle of the round trip
    ([Tother = Tstart + d + k]), the offset stored for the peer is exactly
    [- k]: adding it to a reading of the peer gives the time on thread
    zero's clock.  (The bound on [k] is not needed for the mean as the
    statistic is modelled here; it keeps every sum of up to [NumTests]
    samples a [double], so that the mean is [- k] however the statistic of
    [stats-timing.h] adds its samples up.) *)
Theorem clock_offset_exact (nThreads : Z) (obs : Z -> Z -> trial)
    (offsets : list Z) (other d k : Z) :
  1 <= other < nThreads -> nThreads <= Z.of_nat (length offsets) ->
  Z.abs k < 2 ^ 40 ->
  (forall i, 1 <= i < NumTests ->
     smallReadings (obs other i) /\
     Tend (obs other i) - Tstart (obs other i) = 2 * d /\
     Tother (obs other i) = Tstart (obs other i) + d + k) ->
  cells (computeClockOffset nThreads obs offsets) !! Z.to_nat other
  = Some (- k).
Proof.
  intros Hother Hlen _ Hsym.
  rewrite computeClockOffset_peer by assumption. apply (f_equal Some).
  apply Qtrunc_integer, clockTrials_const.
  intros i Hi. destruct (Hsym i Hi) as (Hsmall & Hrt & Hpeer).
  rewrite (offsetSample_exact _ Hsmall), Hrt, Hpeer.
  unfold Qeq, Qdiv, Qmult, Qinv, inject_Z. cbn [Qnum Qden]. lia.
Qed.

Lemma clock_offset_exact_witness :
  cells (computeClockOffset 2 (fun _ _ => mkTrial 20 30 30) [0; 0])
    !! Z.to_nat 1
  = Some (- 5).
Proof.
  assert (Hother : 1 <= 1 < 2) by lia.
  assert (Hlen : 2 <= Z.of_nat (length [0; 0])) by (simpl; lia).
  assert (Hk : Z.abs 5 < 2 ^ 40) by (simpl; lia).
  apply (clock_offset_exact 2 (fun _ _ => mkTrial 20 30 30) [0; 0] 1 5 5
           Hother Hlen Hk).
  intros i Hi. unfold smallReadings. simpl. lia.
Defined.

(** ** Sharing: who holds the line when the operation is timed *)

Lemma touches_roles (modified : bool) (op : operation) (f : Z -> Sharing.role)
    (l : list Z) :
  length (filter (fun me => touches (sharingPhases modified op (f me)) = true) l)
  = (countRole Sharing.setup (f <$> l)
     + countRole Sharing.setupOwner (f <$> l))%nat.
Proof.
  unfold countRole. induction l as [| me l IH]; [reflexivity |].
  rewrite fmap_cons. destruct (f me) eqn:Hf.
  - rewrite filter_cons_False by (rewrite Hf; simpl; discriminate).
    rewrite !(filter_cons_False _ Sharing.active) by discriminate. exact IH.
  - rewrite filter_cons_True by (rewrite Hf; reflexivity).
    rewrite (filter_cons_True _ Sharing.setup) by reflexivity.
    rewrite (filter_cons_False _ Sharing.setup) by discriminate.
    cbn [length]. rewrite IH. lia.
  - rewrite filter_cons_True by (rewrite Hf; destruct modified; reflexivity).
    rewrite (filter_cons_False _ Sharing.setupOwner) by discriminate.
    rewrite (filter_cons_True _ Sharing.setupOwner) by reflexivity.
    cbn [length]. rewrite IH. lia.
  - rewrite filter_cons_False by (rewrite Hf; simpl; discriminate).
    rewrite !(filter_cons_False _ Sharing.nothing) by discriminate. exact IH.
Qed.

(** X7: in every sample of [measureSharingFrom] the source thread flushes
    the array in the first phase, stays idle in the two set-up phases and
    times the operation in the last; no other thread flushes or times; the
    thread at position [sharing] touches the array first (with stores if
    [modified], with loads if not), the threads at positions
    [1 .. sharing - 1] load it afterwards; so exactly [sharing] threads,
    the source not among them, have touched the array when the operation is
    timed. *)
Theorem sharing_sample_holders (nThreads from sharing : Z) (modified : bool)
    (op : operation) :
  0 <= from < nThreads -> 1 <= sharing < nThreads ->
  let phases := sharingThread nThreads from sharing modified op in
  phases from = [Some Flush; None; None; Some (Timed op)] /\
  (forall me, 0 <= me < nThreads -> me <> from ->
     exists second third, phases me = [None; second; third; None]) /\
  phases (threadAt sharing nThreads from)
  = [None; Some (Touch (if modified then doStores else doLoads)); None; None] /\
  (forall me, 0 <= me < nThreads ->
     1 <= logicalPos me nThreads from < sharing ->
     phases me = [None; None; Some (Touch doLoads); None]) /\
  length (filter (fun me => touches (phases me) = true) (seqZ 0 nThreads))
  = Z.to_nat sharing /\
  touches (phases from) = false.
Proof.
  intros Hfrom Hs phases. subst phases. unfold sharingThread.
  assert (Hsrc : logicalPos from nThreads from = 0)
    by (rewrite logicalPos_cases, Z.leb_refl by lia; lia).
  split; [| split; [| split; [| split; [| split]]]].
  - rewrite Hsrc. reflexivity.
  - intros me Hme Hne.
    assert (Hlp : logicalPos me nThreads from <> 0).
    { intros Hz. apply Hne.
      apply (logicalPos_inj me from nThreads from); lia. }
    unfold Sharing.whatIDo.
    destruct (Z.eqb_spec (logicalPos me nThreads from) 0); [contradiction |].
    destruct (_ <? _); [do 2 eexists; reflexivity |].
    destruct (_ =? _); do 2 eexists; reflexivity.
  - rewrite logicalPos_threadAt by lia.
    destruct (whatIDo_table sharing sharing ltac:(lia)) as (_ & _ & Hown & _).
    rewrite Hown by reflexivity. reflexivity.
  - intros me Hme Hlp.
    destruct (whatIDo_table (logicalPos me nThreads from) sharing ltac:(lia))
      as (_ & Hsetup & _).
    rewrite Hsetup by lia. reflexivity.
  - rewrite (touches_roles modified op
               (fun me => Sharing.whatIDo (logicalPos me nThreads from) sharing)).
    fold (Sharing.teamRoles nThreads from sharing).
    rewrite !countRole_team by assumption. lia.
  - rewrite Hsrc. reflexivity.
Qed.

Lemma sharing_sample_holders_witness :
  let phases := sharingThread 4 1 2 true doLoads in
  phases 1 = [Some Flush; None; None; Some (Timed doLoads)] /\
  (forall me, 0 <= me < 4 -> me <> 1 ->
     exists second third, phases me = [None; second; third; None]) /\
  phases (threadAt 2 4 1)
  = [None; Some (Touch (if true then doStores else doLoads)); None; None] /\
  (forall me, 0 <= me < 4 -> 1 <= logicalPos me 4 1 < 2 ->
     phases me = [None; None; Some (Touch doLoads); None]) /\
  length (filter (fun me => touches (phases me) = true) (seqZ 0 4))
  = Z.to_nat 2 /\
  touches (phases 1) = false.
Proof. apply (sharing_sample_holders 4 1 2 true doLoads); lia. Defined.

(** ** The statistics of the other protocols *)

(** X8: [measureSharingFrom] adds to the statistic of every sharing degree
    [r] in [1, nThreads) exactly the [NumSamples] timed values of that
    degree, and then divides by [measurementArraySize] every statistic below
    [nThreads]; statistic 0 is divided too although nothing is ever measured
    into it, and the statistics from [nThreads] on are not touched. *)
Theorem measureSharingFrom_statistics
    (measurementArraySize NumSamples nThreads : Z) (ticks : Z -> Z -> Z)
    (stats : list statistic) :
  let reported :=
    measureSharingFrom measurementArraySize NumSamples nThreads ticks stats in
  (forall r, 1 <= r < nThreads ->
     reported !! Z.to_nat r
     = (fun s => scaleDown measurementArraySize
                   (mkStat (samples s ++
                      ((fun i => inject_Z (ticks r i)) <$> seqZ 0 NumSamples))))
         <$> stats !! Z.to_nat r) /\
  (0 < nThreads ->
   reported !! 0%nat = scaleDown measurementArraySize <$> stats !! 0%nat) /\
  (forall k, nThreads <= Z.of_nat k -> reported !! k = stats !! k) /\
  length reported = length stats.
Proof.
  intros reported. subst reported. unfold measureSharingFrom, sharingSamples.
  rewrite (fold_left_pointwise _
             (fun st sharing =>
                alter (fun s => mkStat (samples s ++
                         ((fun i => inject_Z (ticks sharing i))
                            <$> seqZ 0 NumSamples)))
                  (Z.to_nat sharing) st))
    by (intros st r; apply (timed_samples_cell (ticks r))).
  change (fold_left _ (seqZ 1 (nThreads - 1)) stats)
    with (forEachIndex
            (fun sharing s => mkStat (samples s ++
               ((fun i => inject_Z (ticks sharing i)) <$> seqZ 0 NumSamples)))
            (seqZ 1 (nThreads - 1)) stats).
  assert (H1 : Forall (fun i => 0 <= i) (seqZ 1 (nThreads - 1)))
    by (apply Forall_seqZ; lia).
  assert (H0 : Forall (fun i => 0 <= i) (seqZ 0 nThreads))
    by (apply Forall_seqZ; lia).
  split; [| split; [| split]].
  - intros r Hr.
    rewrite forEachIndex_visited, forEachIndex_visited;
      try assumption; try apply NoDup_seqZ;
      try (rewrite Z2Nat.id by lia; apply elem_of_seqZ; lia).
    rewrite Z2Nat.id by lia.
    destruct (stats !! Z.to_nat r); reflexivity.
  - intros Hn.
    rewrite (forEachIndex_visited _ _ _ 0%nat), forEachIndex_untouched;
      try assumption; try apply NoDup_seqZ.
    + reflexivity.
    + rewrite elem_of_seqZ. lia.
    + apply elem_of_seqZ. lia.
  - intros k Hk.
    rewrite !forEachIndex_untouched; try assumption;
      try (rewrite elem_of_seqZ; lia).
    reflexivity.
  - rewrite !forEachIndex_length. reflexivity.
Qed.

(** X9: [measurePlacementFrom], run from a thread [from] of the team,
    returns; it adds to the statistic of every other thread exactly the
    [NumSamples] timed values of that placement and nothing to the
    statistic of [from] itself; it then divides by [measurementArraySize]
    every statistic below [nThreads], that of [from] included. *)
Theorem measurePlacementFrom_statistics
    (measurementArraySize NumSamples nThreads from : Z) (ticks : Z -> Z -> Z)
    (stats : list statistic) :
  0 <= from < nThreads ->
  exists reported,
    measurePlacementFrom measurementArraySize NumSamples nThreads from ticks
      stats = Some reported /\
    (forall placement, 0 <= placement < nThreads -> placement <> from ->
       reported !! Z.to_nat placement
       = (fun s => scaleDown measurementArraySize
                     (mkStat (samples s ++
                        ((fun i => inject_Z (ticks placement i))
                           <$> seqZ 0 NumSamples))))
           <$> stats !! Z.to_nat placement) /\
    reported !! Z.to_nat from
    = scaleDown measurementArraySize <$> stats !! Z.to_nat from /\
    (forall k, nThreads <= Z.of_nat k -> reported !! k = stats !! k).
Proof.
  intros Hfrom. unfold measurePlacementFrom, placementSamples.
  assert (Hteam : inTeam nThreads from = true)
    by (unfold inTeam; apply andb_true_intro; split; lia).
  rewrite Hteam. eexists. split; [reflexivity |].
  pose (F := fun placement (s : statistic) =>
    if placement =? from then s
    else mkStat (samples s ++
           ((fun i => inject_Z (ticks placement i)) <$> seqZ 0 NumSamples))).
  rewrite (fold_left_pointwise _
             (fun st placement => alter (F placement) (Z.to_nat placement) st)).
  2:{ intros st c. unfold F. destruct (c =? from).
      - symmetry. apply list_alter_id. reflexivity.
      - apply (timed_samples_cell (ticks c)). }
  change (fold_left _ (seqZ 0 nThreads) stats)
    with (forEachIndex F (seqZ 0 nThreads) stats).
  assert (H0 : Forall (fun i => 0 <= i) (seqZ 0 nThreads))
    by (apply Forall_seqZ; lia).
  split; [| split].
  - intros c Hc Hne.
    rewrite forEachIndex_visited, forEachIndex_visited;
      try assumption; try apply NoDup_seqZ;
      try (rewrite Z2Nat.id by lia; apply elem_of_seqZ; lia).
    rewrite Z2Nat.id by lia. unfold F.
    destruct (Z.eqb_spec c from); [contradiction |].
    destruct (stats !! Z.to_nat c); reflexivity.
  - rewrite forEachIndex_visited, forEachIndex_visited;
      try assumption; try apply NoDup_seqZ;
      try (rewrite Z2Nat.id by lia; apply elem_of_seqZ; lia).
    rewrite Z2Nat.id by lia. unfold F. rewrite Z.eqb_refl.
    destruct (stats !! Z.to_nat from); reflexivity.
  - intros k Hk.
    rewrite !forEachIndex_untouched; try assumption;
      try (rewrite elem_of_seqZ; lia).
    reflexivity.
Qed.

Lemma measurePlacementFrom_statistics_witness :
  let ticks := fun c i : Z => 1000 * c + i in
  let stats := [reset; reset; reset] in
  exists reported,
    measurePlacementFrom 256 2 3 1 ticks stats = Some reported /\
    (forall placement, 0 <= placement < 3 -> placement <> 1 ->
       reported !! Z.to_nat placement
       = (fun s => scaleDown 256
                     (mkStat (samples s ++
                        ((fun i => inject_Z (ticks placement i)) <$> seqZ 0 2))))
           <$> stats !! Z.to_nat placement) /\
    reported !! Z.to_nat 1 = scaleDown 256 <$> stats !! Z.to_nat 1 /\
    (forall k, 3 <= Z.of_nat k -> reported !! k = stats !! k).
Proof.
  apply (measurePlacementFrom_statistics 256 2 3 1 (fun c i => 1000 * c + i)
           [reset; reset; reset]).
  lia.
Defined.

Lemma reverse_seqZ_indices (n : Z) :
  Forall (fun i => 0 <= i) (reverse (seqZ 0 n)) /\
  NoDup (reverse (seqZ 0 n)) /\
  (forall i, i ∈ reverse (seqZ 0 n) <-> 0 <= i < n).
Proof.
  split; [| split].
  - apply Forall_reverse, Forall_seqZ. lia.
  - rewrite reverse_Permutation. apply NoDup_seqZ.
  - intros i. rewrite elem_of_reverse, elem_of_seqZ. lia.
Qed.

(** X10: when [measureLinePlacement] has a page, kept from an earlier call
    or obtained in this one, it resets the statistic of every channel
    before it times it: whatever the statistics held before the call,
    statistic [chanIdx] holds afterwards exactly the [NumSamples] burst
    times of that channel, each divided by [2 * 10]; statistics from
    [numChannels] on are not touched.  When it has none and [malloc] gives
    none, it writes the message of [allocatePageOfChannels] and returns with
    every statistic as it was. *)
Theorem measureLinePlacement_forgets (k channelSize NumSamples : Z)
    (ticks : Z -> Z -> Z) (page space : Z) (stats : list statistic) :
  0 <= k -> 0 < channelSize -> 0 <= space -> space + 2 * 2 ^ k <= 2 ^ 64 ->
  let PAGE_SIZE := 2 ^ k in
  let numChannels := PAGE_SIZE / channelSize in
  let run :=
    measureLinePlacement PAGE_SIZE channelSize NumSamples ticks page space
      stats in
  (page = 0 -> space = 0 ->
   run = ([Print Stderr "Cannot allocate a page\n" []], inl (0, stats))) /\
  (page <> 0 \/ space <> 0 ->
   exists out reported,
     run = (out, inl (if page =? 0 then pageOf PAGE_SIZE space else page,
                      reported)) /\
     (page = 0 -> pageOf PAGE_SIZE space <> 0) /\
     (forall chanIdx, 0 <= chanIdx < numChannels ->
        (Z.to_nat chanIdx < length stats)%nat ->
        reported !! Z.to_nat chanIdx
        = Some (mkStat ((fun i => inject_Z (ticks chanIdx i) / inject_Z 20)%Q
                          <$> seqZ 0 NumSamples))) /\
     (forall j, numChannels <= Z.of_nat j -> reported !! j = stats !! j)).
Proof.
  intros Hk _ Hspace Hfit PAGE_SIZE numChannels run. subst run.
  unfold measureLinePlacement, allocatePageOfChannels. split.
  { intros -> ->. reflexivity. }
  intros Hpage.
  set (page' := if page =? 0 then pageOf PAGE_SIZE space else page).
  assert (Hnew : page = 0 -> pageOf PAGE_SIZE space <> 0).
  { intros Hz. destruct Hpage as [Hp | Hs]; [contradiction |].
    pose proof (pageOf_after k space Hk ltac:(lia) Hfit). fold PAGE_SIZE in H.
    lia. }
  assert (Hpage' : page' <> 0).
  { unfold page'. destruct (Z.eqb_spec page 0); [apply Hnew |]; assumption. }
  assert (Hfirst :
    (if page =? 0
     then got ← (if space =? 0
                 then eprintf "Cannot allocate a page\n" [] ;; mret None
                 else mret (Some (pageOf PAGE_SIZE space,
                                  channelsOfPage PAGE_SIZE channelSize
                                    (pageOf PAGE_SIZE space)))) ;
          mret (match got with Some (p, _) => p | None => 0 end)
     else mret page) = mret page').
  { unfold page'. destruct (Z.eqb_spec page 0) as [Hz | Hnz]; [| reflexivity].
    destruct (Z.eqb_spec space 0) as [Hs | Hs].
    - destruct Hpage; contradiction.
    - rewrite M_bind_ret. reflexivity. }
  rewrite Hfirst, M_bind_ret.
  destruct (Z.eqb_spec page' 0) as [Habs | _]; [contradiction |].
  fold numChannels.
  destruct (returns_forM_ anyEvent (reverse (seqZ 0 numChannels))
              (fun _ : Z => eprintf "." []))
    as (dots & Hdots & _).
  { intros _. apply returns_emit. exact I. }
  rewrite Hdots, M_bind_inl. unfold eprintf, emit. rewrite M_bind_inl.
  cbn [fst snd mret M_ret].
  do 2 eexists. split; [reflexivity |]. split; [exact Hnew |].
  unfold lineSamples.
  pose (F := fun chanIdx (_ : statistic) =>
    mkStat ((fun i => inject_Z (ticks chanIdx i)) <$> seqZ 0 NumSamples)).
  rewrite (fold_left_pointwise _
             (fun st chanIdx => alter (F chanIdx) (Z.to_nat chanIdx) st)).
  2:{ intros st c. rewrite (timed_samples_cell (ticks c)).
      rewrite list_alter_alter_eq. reflexivity. }
  change (fold_left _ (reverse (seqZ 0 numChannels)) stats)
    with (forEachIndex F (reverse (seqZ 0 numChannels)) stats).
  assert (H0 : Forall (fun i => 0 <= i) (seqZ 0 numChannels))
    by (apply Forall_seqZ; lia).
  destruct (reverse_seqZ_indices numChannels) as (Hr & Hnd & Hin).
  split.
  - intros c Hc Hlen.
    destruct (lookup_lt_is_Some_2 stats (Z.to_nat c) Hlen) as (s & Hs).
    rewrite forEachIndex_visited.
    + rewrite forEachIndex_visited.
      * rewrite Hs, Z2Nat.id by lia. simpl. unfold scaleDown, F. simpl.
        rewrite <- list_fmap_compose. reflexivity.
      * exact Hr.
      * exact Hnd.
      * apply Hin. lia.
    + exact H0.
    + apply NoDup_seqZ.
    + apply elem_of_seqZ. lia.
  - intros j Hj.
    rewrite !forEachIndex_untouched; try assumption.
    + reflexivity.
    + rewrite Hin. lia.
    + rewrite elem_of_seqZ. lia.
Qed.

Lemma measureLinePlacement_forgets_witness :
  let ticks := fun c i : Z => 1000 * c + i in
  let stats := [mkStat [7%Q; 8%Q]; reset; reset] in
  measureLinePlacement (2 ^ 12) 64 2 ticks 0 0 stats
  = ([Print Stderr "Cannot allocate a page\n" []], inl (0, stats)) /\
  exists out reported,
    measureLinePlacement (2 ^ 12) 64 2 ticks 0 4104 stats
    = (out, inl (if 0 =? 0 then pageOf (2 ^ 12) 4104 else 0, reported)) /\
    reported !! Z.to_nat 0
    = Some (mkStat ((fun i => inject_Z (ticks 0%Z i) / inject_Z 20)%Q
                      <$> seqZ 0 2)).
Proof.
  assert (Hk : 0 <= 12) by lia.
  assert (Hsize : 0 < 64) by lia.
  assert (H0 : 0 <= 0) by lia.
  assert (Hfit0 : 0 + 2 * 2 ^ 12 <= 2 ^ 64) by lia.
  assert (Hs : 0 <= 4104) by lia.
  assert (Hfit : 4104 + 2 * 2 ^ 12 <= 2 ^ 64) by lia.
  assert (Hc : 0 <= 0 < 2 ^ 12 / 64) by (split; [lia | reflexivity]).
  assert (Hlen : (Z.to_nat 0 < length [mkStat [7%Q; 8%Q]; reset; reset])%nat)
    by (simpl; lia).
  split.
  - exact (proj1 (measureLinePlacement_forgets 12 64 2
                    (fun c i => 1000 * c + i) 0 0
                    [mkStat [7%Q; 8%Q]; reset; reset] Hk Hsize H0 Hfit0)
             eq_refl eq_refl).
  - destruct (proj2 (measureLinePlacement_forgets 12 64 2
                       (fun c i => 1000 * c + i) 0 4104
                       [mkStat [7%Q; 8%Q]; reset; reset] Hk Hsize Hs Hfit))
      as (out & reported & Hrun & _ & Hcells & _);
      [right; discriminate |].
    exists out, reported. split; [exact Hrun |].
    exact (Hcells 0 Hc Hlen).
Defined.

Lemma measureSharingFrom_statistics_witness :
  let ticks := fun r i : Z => 1000 * r + i in
  let stats := [reset; reset; reset] in
  1 <= 2 < 3 /\
  measureSharingFrom 256 2 3 ticks stats !! Z.to_nat 2
  = (fun s => scaleDown 256
                (mkStat (samples s ++
                   ((fun i => inject_Z (ticks 2 i)) <$> seqZ 0 2))))
      <$> stats !! Z.to_nat 2.
Proof.
  assert (Hr : 1 <= 2 < 3) by lia.
  split; [exact Hr |].
  exact (proj1 (measureSharingFrom_statistics 256 2 3
                  (fun r i => 1000 * r + i) [reset; reset; reset]) 2 Hr).
Defined.

(** ** Runs that [main] accepts *)

Lemma succeeds_returns {A : Type} (P : event -> Prop) (m : M A) (a : A) :
  returns P m a -> succeeds m.
Proof. intros (out & -> & _). left. eauto. Qed.

Lemma succeeds_ends {A : Type} (P : event -> Prop) (m : M A) :
  ends P m (Return 0) -> succeeds m.
Proof. intros (out & -> & _). right. eauto. Qed.

Lemma succeeds_bind {A B : Type} (P : event -> Prop) (m : M A) (f : A -> M B)
    (a : A) :
  returns P m a -> succeeds (f a) -> succeeds (m ≫= f).
Proof.
  intros (out & -> & _) [(out' & b & Hf) | (out' & Hf)];
    rewrite M_bind_inl, Hf; [left | right]; eauto.
Qed.

Lemma succeeds_main (env : Env) (nThreads : Z) (argv : list string) :
  returns affinityWarning (startup env nThreads argv) tt ->
  succeeds (experiment env nThreads argv) ->
  (main env nThreads argv).2 = Return 0.
Proof.
  intros (pre & Hstart & _) Hexp. unfold main, mainBody.
  rewrite Hstart, M_bind_inl.
  destruct Hexp as [(out & [i n] & Hexp) | (out & Hexp)]; rewrite Hexp.
  - rewrite M_bind_inl.
    destruct (printStats_returns false i n i) as (rows & Hrows & _).
    rewrite Hrows. reflexivity.
  - reflexivity.
Qed.

Lemma returns_forM_in {A : Type} (P : event -> Prop) (l : list A)
    (f : A -> M unit) :
  (forall x, x ∈ l -> returns P (f x) tt) -> returns P (forM_ l f) tt.
Proof.
  intros Hf. induction l as [| x l IH]; simpl.
  - apply returns_ret.
  - eapply returns_bind; [apply Hf; left |].
    apply IH. intros y Hy. apply Hf. right. exact Hy.
Qed.

Lemma inTeam_range (nThreads t : Z) : inTeam nThreads t = true <-> 0 <= t < nThreads.
Proof. unfold inTeam. rewrite andb_true_iff, Z.leb_le, Z.ltb_lt. reflexivity. Qed.

Lemma outside_team (nThreads t : Z) :
  0 <= t -> nThreads <= t -> inTeam nThreads t = false.
Proof.
  intros H0 Hn. destruct (inTeam nThreads t) eqn:H; [| reflexivity].
  apply inTeam_range in H. lia.
Qed.

(** With the source in the team every logical position is one of the
    array. *)
Lemma belowArray_inTeam (nThreads from : Z) :
  0 <= from < nThreads -> belowArray nThreads from = false.
Proof.
  intros Hfrom. unfold belowArray.
  destruct (existsb _ _) eqn:Hex; [| reflexivity].
  apply existsb_exists in Hex as (me & Hin & Hneg).
  apply list_elem_of_In, elem_of_seqZ in Hin. apply Z.ltb_lt in Hneg.
  pose proof (logicalPos_range me nThreads from ltac:(lia) Hfrom). lia.
Qed.

(** A team of four: a source thread up to 4 keeps every position in the
    array, one beyond does not. *)
Lemma belowArray_of_four :
  belowArray 4 3 = false /\ belowArray 4 4 = false /\
  belowArray 4 5 = true /\ belowArray 4 8 = true.
Proof. repeat split. Qed.

Lemma new_returns (P : event -> Prop) (env : Env) (site : allocSite) :
  newFails env site = false -> returns P (Driver.new_ env site) tt.
Proof. intros H. unfold Driver.new_. rewrite H. apply returns_ret. Qed.

Lemma measurePlacementFrom_returns (P : event -> Prop) (env : Env)
    (nThreads : Z) (op : operation) (modified : bool) (from : Z)
    (allocateInT0 : bool) :
  inTeam nThreads from = true ->
  newFails env PlacementArray = false ->
  misaligned env PlacementArray 0 = false ->
  (forall fmt args, P (Print Stderr fmt args)) ->
  (forall placement, placement <> from ->
     P (Samples (MPlacement op modified from placement allocateInT0))) ->
  returns P
    (Driver.measurePlacementFrom env nThreads op modified from allocateInT0) tt.
Proof.
  intros Hteam Hnew Hal Hprint Hsamples. unfold Driver.measurePlacementFrom.
  rewrite Hteam. cbn [negb].
  eapply returns_bind.
  { apply returns_when. intros _.
    eapply returns_bind; [apply new_returns; assumption |].
    unfold Driver.checkCacheAligned. rewrite Hal. apply returns_ret. }
  eapply returns_bind.
  { apply returns_forM_. intros placement. apply returns_when. intros Hc.
    apply negb_true_iff, Z.eqb_neq in Hc.
    eapply returns_bind; apply returns_emit; auto. }
  apply returns_emit. apply Hprint.
Qed.

Lemma measureSharingFrom_returns (P : event -> Prop) (env : Env)
    (nThreads : Z) (op : operation) (modified : bool) (from : Z) (b : bool) :
  (forall fmt args, P (Print Stderr fmt args)) ->
  (forall sharing, P (Samples (MSharing op modified from sharing))) ->
  returns P (Driver.measureSharingFrom env nThreads op modified from b) tt.
Proof.
  intros Hprint Hsamples. unfold Driver.measureSharingFrom.
  eapply returns_bind; [| apply returns_emit, Hprint].
  apply returns_forM_. intros sharing.
  eapply returns_bind; apply returns_emit; auto.
Qed.

Lemma measureRoundtripFrom_returns (P : event -> Prop) (chan : channelClass)
    (env : Env) (nThreads source : Z) :
  inTeam nThreads source = true ->
  newFails env RoundtripChannel = false ->
  (forall fmt args, P (Print Stderr fmt args)) ->
  (forall other, P (Samples (MRoundtrip chan source other))) ->
  returns P (Driver.measureRoundtripFrom chan env nThreads source) tt.
Proof.
  intros Hteam Hnew Hprint Hsamples. unfold Driver.measureRoundtripFrom.
  rewrite Hteam. cbn [negb].
  eapply returns_bind; [apply new_returns; assumption |].
  eapply returns_bind; [| apply returns_emit, Hprint].
  apply returns_forM_. intros other. apply returns_when. intros _.
  eapply returns_bind; apply returns_emit; auto.
Qed.

Lemma measureVisibilityFrom_returns (P : event -> Prop) (env : Env)
    (nThreads from : Z) :
  belowArray nThreads from = false ->
  newFails env BroadcastLine = false ->
  (forall fmt args, P (Print Stderr fmt args)) ->
  (forall sharing, P (Samples (MVisibility from sharing))) ->
  returns P (Driver.measureVisibilityFrom env nThreads from) tt.
Proof.
  intros Hin Hnew Hprint Hsamples. unfold Driver.measureVisibilityFrom.
  rewrite Hin.
  eapply returns_bind; [apply new_returns; assumption |].
  eapply returns_bind; [| apply returns_emit, Hprint].
  apply returns_forM_. intros sharing.
  eapply returns_bind; apply returns_emit; auto.
Qed.

Lemma measureLinePlacement_returns (env : Env) (page : bool) (otherThread : Z) :
  exists page',
    returns anyEvent (Driver.measureLinePlacement env page otherThread) page'.
Proof.
  unfold Driver.measureLinePlacement, Driver.allocatePageOfChannels.
  assert (Hrun : returns anyEvent
            (forM_ (reverse (seqZ 0 (numChannels env)))
               (fun chanIdx =>
                  emit (Samples (MLinePlacement otherThread chanIdx)) ;;
                  eprintf "." []) ;;
             eprintf "\n" [] ;; mret true) true).
  { eapply returns_bind.
    { apply returns_forM_. intros c.
      eapply returns_bind; apply returns_emit; exact I. }
    eapply returns_bind; [apply returns_emit; exact I | apply returns_ret]. }
  destruct page.
  - exists true. rewrite M_bind_ret. exact Hrun.
  - destruct (mallocFails env).
    + exists false. eexists. split; [reflexivity | repeat constructor].
    + exists true. rewrite M_bind_ret. exact Hrun.
Qed.

Lemma linePlacementRuns_returns (env : Env) (testThread : Z) (runs : list Z)
    (page : bool) :
  returns anyEvent (linePlacementRuns env testThread runs page) tt.
Proof.
  revert page. induction runs as [| i runs IH]; intros page;
    cbn [linePlacementRuns].
  - apply returns_ret.
  - destruct (measureLinePlacement_returns env page testThread) as (page' & Hm).
    eapply returns_bind; [exact Hm |].
    eapply returns_bind.
    { apply returns_when. intros _. apply returns_emit. exact I. }
    eapply returns_bind; [apply returns_emit; exact I |].
    eapply returns_bind; [| apply IH].
    eapply returns_weaken; [| apply printStats_returns]. intros e _. exact I.
Qed.

Lemma caseL_succeeds (env : Env) (nThreads : Z) : succeeds (caseL env nThreads).
Proof.
  unfold caseL. cbv zeta.
  destruct (measureLinePlacement_returns env false (nThreads - 1))
    as (page & Hm).
  eapply (succeeds_bind anyEvent); [exact Hm |].
  eapply (succeeds_bind anyEvent); [apply linePlacementRuns_returns |].
  right. exists []. reflexivity.
Qed.

Lemma casePS_succeeds (env : Env) (nThreads : Z) (argv : list string) :
  allocationsOk env ->
  In (charAt (argvAt argv 1) 1) ["r"; "w"; "a"]%char ->
  In (charAt (argvAt argv 1) 2) ["u"; "m"]%char ->
  let from :=
    if 2 <? Z.of_nat (length argv) then atoi (argvAt argv 2) else 0 in
  (charAt (argvAt argv 1) 0 = "P"%char -> from < nThreads) ->
  succeeds (casePS env nThreads argv).
Proof.
  intros (Hnew & Hal) Hop Hstate from Hfrom. unfold casePS. cbv zeta. fold from.
  assert (Hfn : forall op modified from a,
            inTeam nThreads from = true
            \/ Ascii.eqb (charAt (argvAt argv 1) 0) "P" = false ->
            returns anyEvent
              ((if Ascii.eqb (charAt (argvAt argv 1) 0) "P"
                then Driver.measurePlacementFrom
                else Driver.measureSharingFrom)
                 env nThreads op modified from a) tt).
  { intros op modified from' a Hok. destruct (Ascii.eqb _ _).
    - destruct Hok as [Hteam | Hno]; [| discriminate].
      apply measurePlacementFrom_returns; auto; intros; exact I.
    - apply measureSharingFrom_returns; intros; exact I. }
  assert (Hfixed : (from <? 0) = false ->
            inTeam nThreads from = true
            \/ Ascii.eqb (charAt (argvAt argv 1) 0) "P" = false).
  { intros Hge. apply Z.ltb_ge in Hge.
    destruct (Ascii.eqb_spec (charAt (argvAt argv 1) 0) "P") as [HP | HnP];
      [left | right; reflexivity].
    apply inTeam_range. specialize (Hfrom HP). lia. }
  destruct Hop as [Hop | [Hop | [Hop | []]]]; rewrite <- Hop; decide_eqb;
    rewrite M_bind_ret;
    (destruct Hstate as [Hst | [Hst | []]]; rewrite <- Hst; decide_eqb;
     rewrite M_bind_ret);
    (destruct (from <? 0) eqn:Hneg;
     [ eapply (succeeds_bind anyEvent);
       [ apply returns_forM_in; intros from' Hin;
         apply elem_of_seqZ in Hin;
         eapply returns_bind;
           [apply Hfn; left; apply inTeam_range; lia |];
         eapply returns_bind;
           [apply returns_when; intros _; apply returns_emit; exact I |];
         eapply returns_bind; [apply returns_emit; exact I |];
         apply returns_forM_; intros i;
         apply returns_when; intros _; apply returns_emit; exact I
       | right; exists []; reflexivity ]
     | eapply (succeeds_bind anyEvent); [apply Hfn, Hfixed; reflexivity |];
       eapply (succeeds_bind anyEvent); [apply returns_emit; exact I |];
       left; do 2 eexists; reflexivity ]).
Qed.

Lemma caseR_succeeds (env : Env) (nThreads : Z) (argv : list string) :
  newFails env RoundtripChannel = false ->
  let from :=
    if 2 <? Z.of_nat (length argv) then atoi (argvAt argv 2) else 0 in
  from < nThreads ->
  succeeds (caseR env nThreads argv).
Proof.
  intros Hnew from Hfrom. unfold caseR. cbv zeta. fold from.
  assert (Hfn : forall chan from,
            0 <= from < nThreads ->
            returns anyEvent
              (Driver.measureRoundtripFrom chan env nThreads from) tt).
  { intros chan from' Hin. apply measureRoundtripFrom_returns; auto.
    - apply inTeam_range. exact Hin.
    - intros; exact I.
    - intros; exact I. }
  destruct (Z.ltb_spec from 0) as [Hneg | Hpos].
  - eapply (succeeds_bind anyEvent); [| right; exists []; reflexivity].
    apply returns_forM_in. intros from' Hin. apply elem_of_seqZ in Hin.
    eapply returns_bind; [apply Hfn; lia |].
    eapply returns_bind;
      [apply returns_when; intros _; apply returns_emit; exact I |].
    eapply returns_bind; [apply returns_emit; exact I |].
    apply returns_forM_. intros i.
    apply returns_when. intros _. apply returns_emit. exact I.
  - eapply (succeeds_bind anyEvent); [apply Hfn; lia |].
    eapply (succeeds_bind anyEvent); [apply returns_emit; exact I |].
    left. do 2 eexists. reflexivity.
Qed.

Lemma caseV_succeeds (env : Env) (nThreads : Z) (argv : list string) :
  newFails env BroadcastLine = false ->
  let from :=
    if 2 <? Z.of_nat (length argv) then atoi (argvAt argv 2) else 0 in
  from < nThreads ->
  succeeds (caseV env nThreads argv).
Proof.
  intros Hnew from Hfrom. unfold caseV. cbv zeta. fold from.
  assert (Hfn : forall from,
            0 <= from < nThreads ->
            returns anyEvent (Driver.measureVisibilityFrom env nThreads from) tt).
  { intros from' Hin. apply measureVisibilityFrom_returns; auto.
    - apply belowArray_inTeam. exact Hin.
    - intros; exact I.
    - intros; exact I. }
  destruct (Z.ltb_spec from 0) as [Hneg | Hpos].
  - eapply (succeeds_bind anyEvent); [| right; exists []; reflexivity].
    apply returns_forM_in. intros from' Hin. apply elem_of_seqZ in Hin.
    eapply returns_bind; [apply Hfn; lia |].
    eapply returns_bind;
      [apply returns_when; intros _; apply returns_emit; exact I |].
    eapply returns_bind; [apply returns_emit; exact I |].
    apply returns_forM_. intros i. apply returns_emit. exact I.
  - eapply (succeeds_bind anyEvent); [apply Hfn; lia |].
    eapply (succeeds_bind anyEvent); [apply returns_emit; exact I |].
    left. do 2 eexists. reflexivity.
Qed.

(** X11: a run that [main] has no configuration error to report, on a
    platform where the measurement array is aligned and every [new]
    succeeds, ends with status 0, provided that for the placement,
    round-trip and visibility experiments the source thread asked for is
    below [nThreads] (a negative one asks for every thread in turn); so
    whatever the experiment and the outcome of the allocation of the page
    of channels. *)
Theorem main_accepts (env : Env) (nThreads : Z) (argv : list string) :
  startupOk env -> allocationsOk env ->
  ~ configError nThreads argv ->
  let from :=
    if 2 <? Z.of_nat (length argv) then atoi (argvAt argv 2) else 0 in
  (In (charAt (argvAt argv 1) 0) ["P"; "R"; "V"]%char -> from < nThreads) ->
  (main env nThreads argv).2 = Return 0.
Proof.
  intros (Hnew0 & Ha0 & Ha1) Halloc Hok from Hfrom.
  pose proof Halloc as (Hnew & Hal).
  unfold configError in Hok. cbv zeta in Hok.
  assert (Hn : 2 <= nThreads <= MAX_THREADS) by lia.
  assert (Hargc : (2 <= length argv)%nat) by lia.
  apply succeeds_main; [apply startup_returns; assumption |].
  destruct (in_dec ascii_dec (charAt (argvAt argv 1) 0)
              ["L"; "M"; "N"; "P"; "S"; "R"; "V"]%char) as [Hexp | Hexp];
    [| exfalso; apply Hok; do 3 right; left; exact Hexp].
  destruct (in_dec ascii_dec (charAt (argvAt argv 1) 0) ["P"; "S"]%char)
    as [Hps | Hps].
  { rewrite experiment_placement_sharing by assumption.
    apply casePS_succeeds; [assumption | | |].
    - destruct (in_dec ascii_dec (charAt (argvAt argv 1) 1)
                  ["r"; "w"; "a"]%char) as [H | H]; [exact H |].
      exfalso. apply Hok. do 4 right. split; [exact Hps | left; exact H].
    - destruct (in_dec ascii_dec (charAt (argvAt argv 1) 2) ["u"; "m"]%char)
        as [H | H]; [exact H |].
      exfalso. apply Hok. do 4 right. split; [exact Hps | right; exact H].
    - intros HP. apply Hfrom. rewrite HP. simpl. tauto. }
  unfold experiment. cbv zeta.
  destruct Hexp as [H | [H | [H | [H | [H | [H | [H | []]]]]]]];
    rewrite <- H in *; decide_eqb.
  - apply caseL_succeeds.
  - right. eexists. reflexivity.
  - left. do 2 eexists. reflexivity.
  - exfalso. apply Hps. simpl. tauto.
  - exfalso. apply Hps. simpl. tauto.
  - simpl. apply caseR_succeeds; [apply Hnew | apply Hfrom; simpl; tauto].
  - simpl. apply caseV_succeeds; [apply Hnew | apply Hfrom; simpl; tauto].
Qed.

Lemma main_accepts_witness :
  (main (plainEnv false) 4 ["loadsStores"; "Pwm"; "2"]%string).2 = Return 0.
Proof.
  apply (main_accepts (plainEnv false) 4 ["loadsStores"; "Pwm"; "2"]%string).
  - repeat split.
  - repeat split.
  - unfold configError. cbv zeta.
    intros [H | [H | [H | [H | (_ & [H | H])]]]].
    + unfold MAX_THREADS in H. lia.
    + lia.
    + simpl in H. lia.
    + apply H. simpl. tauto.
    + apply H. simpl. tauto.
    + apply H. simpl. tauto.
  - intros _. reflexivity.
Defined.

(** ** Round trips: the channel a run uses *)

Lemma main_events (P : event -> Prop) (env : Env) (nThreads : Z)
    (argv : list string) :
  (forall e, affinityWarning e -> P e) ->
  (forall fmt args, P (Print Stdout fmt args)) ->
  returns affinityWarning (startup env nThreads argv) tt ->
  (exists r, returns P (experiment env nThreads argv) r)
  \/ ends P (experiment env nThreads argv) (Return 0) ->
  (main env nThreads argv).2 = Return 0 /\
  Forall P (main env nThreads argv).1.
Proof.
  intros Haff Hprint (pre & Hstart & Hpre) Hexp. unfold main, mainBody.
  rewrite Hstart, M_bind_inl.
  assert (HPpre : Forall P pre) by (eapply Forall_impl; eauto).
  destruct Hexp as [([i n] & out & Hexp & Hout) | (out & Hexp & Hout)];
    rewrite Hexp.
  - rewrite M_bind_inl.
    assert (Hrows : returns P (Driver.printStats false i n i) tt).
    { unfold Driver.printStats. apply returns_forM_. intros j.
      apply returns_emit, Hprint. }
    destruct Hrows as (rows & Hrows & HProws). rewrite Hrows. simpl.
    split; [reflexivity |].
    rewrite app_nil_r. repeat (apply Forall_app; split); assumption.
  - simpl. split; [reflexivity |]. apply Forall_app. split; assumption.
Qed.

(** X12: the round-trip experiment rejects no operation letter.  With ['R']
    as first letter and a source thread below [nThreads] the run ends with
    status 0, every measurement of the run is a round trip, and the channel
    is the atomic one when the second letter is ['a'] and the write-based
    one for every other letter, also for none.  With a source thread that
    the team does not have, the run leaves the language before it measures
    or prints anything. *)
Theorem roundtrip_selector (env : Env) (nThreads : Z) (argv : list string) :
  2 <= nThreads <= MAX_THREADS -> (2 <= length argv)%nat ->
  startupOk env -> newFails env RoundtripChannel = false ->
  charAt (argvAt argv 1) 0 = "R"%char ->
  let from :=
    if 2 <? Z.of_nat (length argv) then atoi (argvAt argv 2) else 0 in
  let chan :=
    if Ascii.eqb (charAt (argvAt argv 1) 1) "a"
    then atomicSyncOnlyChannel else syncOnlyChannel in
  let run := main env nThreads argv in
  (from < nThreads ->
   run.2 = Return 0 /\ Forall (roundtripOn chan) run.1) /\
  (nThreads <= from ->
   run.2 = Undefined /\ Forall affinityWarning run.1).
Proof.
  intros Hn Hargc (Hnew0 & Ha0 & Ha1) Hnew Hc from chan run. subst run.
  pose proof (startup_returns env nThreads argv Hn Hargc Hnew0 Ha0 Ha1)
    as Hstart.
  assert (Hexp : experiment env nThreads argv = caseR env nThreads argv).
  { unfold experiment. cbv zeta. rewrite Hc. decide_eqb. reflexivity. }
  split.
  - intros Hfrom. apply main_events.
    + intros e [me ->]. exact I.
    + intros fmt args. exact I.
    + exact Hstart.
    + rewrite Hexp. unfold caseR. cbv zeta. fold from. fold chan.
      assert (Hfn : forall from,
                0 <= from < nThreads ->
                returns (roundtripOn chan)
                  (Driver.measureRoundtripFrom chan env nThreads from) tt).
      { intros from' Hin. apply measureRoundtripFrom_returns.
        - apply inTeam_range. exact Hin.
        - assumption.
        - intros fmt args. exact I.
        - intros other. reflexivity. }
      destruct (Z.ltb_spec from 0) as [Hneg | Hpos].
      * right. eapply ends_bind; [| apply ends_halt].
        apply returns_forM_in. intros from' Hin. apply elem_of_seqZ in Hin.
        eapply returns_bind; [apply Hfn; lia |].
        eapply returns_bind;
          [apply returns_when; intros _; apply returns_emit; exact I |].
        eapply returns_bind; [apply returns_emit; exact I |].
        apply returns_forM_. intros i.
        apply returns_when. intros _. apply returns_emit. exact I.
      * left. eexists.
        eapply returns_bind; [apply Hfn; lia |].
        eapply returns_bind; [apply returns_emit; exact I | apply returns_ret].
  - intros Hfrom. destruct Hstart as (pre & Hstart & Hpre).
    assert (Hcase : caseR env nThreads argv = ([], inr Undefined)).
    { unfold caseR. cbv zeta. fold from.
      rewrite (proj2 (Z.ltb_ge from 0)) by lia.
      unfold Driver.measureRoundtripFrom.
      rewrite outside_team by lia. reflexivity. }
    rewrite Hcase in Hexp.
    rewrite (main_experiment_ends _ _ _ pre _ _ Hstart Hexp).
    cbn [fst snd]. rewrite app_nil_r. split; [reflexivity | exact Hpre].
Qed.

Lemma roundtrip_selector_witness :
  let chan :=
    if Ascii.eqb (charAt (argvAt ["loadsStores"; "Rz"; "1"]%string 1) 1) "a"
    then atomicSyncOnlyChannel else syncOnlyChannel in
  chan = syncOnlyChannel /\
  (main (plainEnv false) 3 ["loadsStores"; "Rz"; "1"]%string).2 = Return 0 /\
  Forall (roundtripOn chan)
    (main (plainEnv false) 3 ["loadsStores"; "Rz"; "1"]%string).1 /\
  (main (plainEnv false) 3 ["loadsStores"; "Rz"; "7"]%string).2 = Undefined.
Proof.
  assert (Hn : 2 <= 3 <= MAX_THREADS) by (unfold MAX_THREADS; lia).
  assert (Hargc : (2 <= length ["loadsStores"; "Rz"; "1"]%string)%nat)
    by (simpl; lia).
  assert (Hargc7 : (2 <= length ["loadsStores"; "Rz"; "7"]%string)%nat)
    by (simpl; lia).
  assert (Hok : startupOk (plainEnv false)) by (repeat split).
  assert (Hin : 1 < 3) by lia.
  assert (Hout : 3 <= 7) by lia.
  split; [reflexivity |].
  destruct (proj1 (roundtrip_selector (plainEnv false) 3
                     ["loadsStores"; "Rz"; "1"]%string
                     Hn Hargc Hok eq_refl eq_refl) Hin) as (Hstatus & Hevents).
  split; [exact Hstatus |]. split; [exact Hevents |].
  exact (proj1 (proj2 (roundtrip_selector (plainEnv false) 3
                         ["loadsStores"; "Rz"; "7"]%string
                         Hn Hargc7 Hok eq_refl eq_refl) Hout)).
Defined.

(** ** Placement: the rows of the report *)

Lemma forM__events {A : Type} (l : list A) (f : A -> M unit)
    (g : A -> list event) :
  (forall x, f x = (g x, inl tt)) -> forM_ l f = (l ≫= g, inl tt).
Proof.
  intros Hf. induction l as [| x l IH]; [reflexivity |].
  cbn [forM_]. rewrite Hf, M_bind_inl, IH. reflexivity.
Qed.

Lemma printStats_events (base count offset : Z) :
  Driver.printStats false base count offset
  = ((fun i => Print Stdout "%6d, %s\n" [AInt (i + offset); AStat false (base + i)])
       <$> seqZ 0 count, inl tt).
Proof.
  unfold Driver.printStats.
  rewrite (forM__events _ _
             (fun i => [Print Stdout "%6d, %s\n"
                          [AInt (i + offset); AStat false (base + i)]]))
    by reflexivity.
  apply (f_equal (fun out => (out, inl tt))).
  induction (seqZ 0 count) as [| i l IH]; [reflexivity |].
  cbn. apply (f_equal (cons _)). exact IH.
Qed.

(** What [measurePlacementFrom] writes when its allocation succeeds. *)
Lemma measurePlacementFrom_events (env : Env) (nThreads : Z) (op : operation)
    (modified : bool) (from : Z) (allocateInT0 : bool) :
  allocationsOk env -> 0 <= from < nThreads ->
  Driver.measurePlacementFrom env nThreads op modified from allocateInT0
  = ((seqZ 0 nThreads ≫= fun placement =>
        if negb (placement =? from)
        then [Samples (MPlacement op modified from placement allocateInT0);
              Print Stderr "." []]
        else []) ++ [Print Stderr "\n" []], inl tt).
Proof.
  intros (Hnew & Hal) Hfrom. unfold Driver.measurePlacementFrom.
  rewrite (proj2 (inTeam_range nThreads from) Hfrom). cbn [negb].
  assert (Halloc : when (negb allocateInT0)
                     (Driver.new_ env PlacementArray ;;
                      Driver.checkCacheAligned env PlacementArray 0)
                   = mret tt).
  { destruct (negb allocateInT0); [| reflexivity].
    unfold when, Driver.new_, Driver.checkCacheAligned.
    rewrite Hnew, Hal. reflexivity. }
  rewrite Halloc, M_bind_ret.
  rewrite (forM__events _ _
             (fun placement =>
                if negb (placement =? from)
                then [Samples (MPlacement op modified from placement allocateInT0);
                      Print Stderr "." []]
                else [])).
  - rewrite M_bind_inl. reflexivity.
  - intros placement. destruct (negb (placement =? from)); reflexivity.
Qed.

(** [case 'P'] with a given active thread: the operation and the line
    state are read, the measurement is made and the header is printed. *)
Lemma casePS_placement (env : Env) (nThreads : Z) (argv : list string) :
  charAt (argvAt argv 1) 0 = "P"%char ->
  In (charAt (argvAt argv 1) 1) ["r"; "w"; "a"]%char ->
  In (charAt (argvAt argv 1) 2) ["u"; "m"]%char ->
  let from :=
    if 2 <? Z.of_nat (length argv) then atoi (argvAt argv 2) else 0 in
  0 <= from ->
  exists op modified allocateInT0 header,
    casePS env nThreads argv
    = (Driver.measurePlacementFrom env nThreads op modified from allocateInT0 ;;
       printf placementSharingHeader header ;;
       mret (1, nThreads - 1)).
Proof.
  intros Hc Hop Hstate from Hfrom.
  unfold casePS. cbv zeta. fold from. rewrite Hc. decide_eqb.
  assert (Hneg : (from <? 0) = false) by (apply Z.ltb_ge; exact Hfrom).
  rewrite Hneg.
  destruct Hop as [Hop | [Hop | [Hop | []]]]; rewrite <- Hop; decide_eqb;
    rewrite M_bind_ret;
    (destruct Hstate as [Hst | [Hst | []]]; rewrite <- Hst; decide_eqb;
     rewrite M_bind_ret);
    do 4 eexists; reflexivity.
Qed.

(** The events of a placement run with a given active thread of the team. *)
Lemma main_placement_events (env : Env) (nThreads : Z) (argv : list string) :
  2 <= nThreads <= MAX_THREADS -> (2 <= length argv)%nat ->
  startupOk env -> allocationsOk env ->
  charAt (argvAt argv 1) 0 = "P"%char ->
  In (charAt (argvAt argv 1) 1) ["r"; "w"; "a"]%char ->
  In (charAt (argvAt argv 1) 2) ["u"; "m"]%char ->
  let from :=
    if 2 <? Z.of_nat (length argv) then atoi (argvAt argv 2) else 0 in
  0 <= from < nThreads ->
  exists pre op modified allocateInT0 header,
    Forall affinityWarning pre /\
    main env nThreads argv
    = (pre ++
       ((seqZ 0 nThreads ≫= fun placement =>
           if negb (placement =? from)
           then [Samples (MPlacement op modified from placement allocateInT0);
                 Print Stderr "." []]
           else []) ++ [Print Stderr "\n" []]) ++
       [Print Stdout placementSharingHeader header] ++
       (reportLine <$> seqZ 1 (nThreads - 1)),
       Return 0).
Proof.
  intros Hn Hargc (Hnew0 & Ha0 & Ha1) Halloc Hc Hop Hstate from Hfrom.
  destruct (startup_returns env nThreads argv Hn Hargc Hnew0 Ha0 Ha1)
    as (pre & Hstart & Hpre).
  destruct (casePS_placement env nThreads argv Hc Hop Hstate (proj1 Hfrom))
    as (op & modified & a & header & Hexp).
  fold from in Hexp.
  rewrite measurePlacementFrom_events in Hexp by assumption.
  assert (Hrows : Driver.printStats false 1 (nThreads - 1) 1
                  = (reportLine <$> seqZ 1 (nThreads - 1), inl tt)).
  { rewrite printStats_events.
    apply (f_equal (fun out => (out, inl tt))).
    change (seqZ 1 (nThreads - 1)) with (seqZ (1 + 0) (nThreads - 1)).
    rewrite <- (fmap_add_seqZ 1 0 (nThreads - 1)), <- list_fmap_compose.
    apply list_fmap_ext. intros _ i _. unfold reportLine. cbn.
    rewrite (Z.add_comm i 1). reflexivity. }
  exists pre, op, modified, a, header. split; [exact Hpre |].
  unfold main, mainBody.
  rewrite experiment_placement_sharing by (rewrite Hc; simpl; tauto).
  rewrite Hstart, M_bind_inl, Hexp, M_bind_inl.
  unfold printf, emit. rewrite M_bind_inl. cbn [fst snd mret M_ret].
  rewrite M_bind_inl. cbn beta iota.
  rewrite Hrows, M_bind_inl. cbn [fst snd halt].
  rewrite !app_nil_r, <- !app_assoc. reflexivity.
Qed.

(** X13: a placement run with a given active thread [from] of the team ends
    with status 0; it takes samples for every thread of the team other than
    [from], with [from] as the active thread, and its report has the rows 1
    to [nThreads - 1] whatever [from] is.  So for [from] in [1, nThreads)
    the report has a row for [from], for which nothing was measured, and
    none for the placement in thread 0.  With an active thread that the team
    does not have the run never ends: nothing is measured and nothing is
    printed. *)
Theorem placement_report (env : Env) (nThreads : Z) (argv : list string) :
  2 <= nThreads <= MAX_THREADS -> (2 <= length argv)%nat ->
  startupOk env -> allocationsOk env ->
  charAt (argvAt argv 1) 0 = "P"%char ->
  In (charAt (argvAt argv 1) 1) ["r"; "w"; "a"]%char ->
  In (charAt (argvAt argv 1) 2) ["u"; "m"]%char ->
  let from :=
    if 2 <? Z.of_nat (length argv) then atoi (argvAt argv 2) else 0 in
  0 <= from ->
  let run := main env nThreads argv in
  (from < nThreads ->
   run.2 = Return 0 /\
   (forall active placement,
      sampledPlacement run.1 active placement <->
      active = from /\ 0 <= placement < nThreads /\ placement <> from) /\
   (forall i, reportLine i ∈ run.1 <-> 1 <= i < nThreads)) /\
  (nThreads <= from ->
   run.2 = Hang /\ Forall affinityWarning run.1).
Proof.
  intros Hn Hargc Hstart Halloc Hc Hop Hstate from Hfrom run. subst run.
  split.
  - intros Hlt.
    destruct (main_placement_events env nThreads argv Hn Hargc Hstart Halloc Hc
                Hop Hstate (conj Hfrom Hlt))
      as (pre & op & modified & a & header & Hpre & Hmain).
    fold from in Hmain. rewrite Hmain. cbn [fst snd].
    assert (Hwarn : forall e, e ∈ pre -> exists me,
              e = Print Stderr "Failed to force affinity for thread %d\n"
                    [AInt me]).
    { intros e He. rewrite Forall_forall in Hpre. exact (Hpre e He). }
    split; [reflexivity |]. split.
    + intros active placement. unfold sampledPlacement. split.
      * intros (op' & m' & a' & Hin).
        rewrite !elem_of_app in Hin.
        destruct Hin as [Hin | [[Hin | Hin] | [Hin | Hin]]].
        -- apply Hwarn in Hin as (me & Hin). discriminate.
        -- apply list_elem_of_bind in Hin as (p & Hin & Hp).
           apply elem_of_seqZ in Hp.
           destruct (negb (p =? from)) eqn:Hcond; [| inversion Hin].
           apply negb_true_iff, Z.eqb_neq in Hcond.
           apply elem_of_cons in Hin as [Hin | Hin].
           ++ injection Hin as -> -> -> -> ->. lia.
           ++ apply list_elem_of_singleton in Hin. discriminate.
        -- apply list_elem_of_singleton in Hin. discriminate.
        -- apply list_elem_of_singleton in Hin. discriminate.
        -- apply list_elem_of_fmap in Hin as (i & Hin & _). discriminate.
      * intros (-> & Hp & Hne). exists op, modified, a.
        rewrite !elem_of_app. right. left. left.
        apply list_elem_of_bind. exists placement.
        split; [| apply elem_of_seqZ; lia].
        rewrite (proj2 (negb_true_iff _) (proj2 (Z.eqb_neq _ _) Hne)).
        apply elem_of_cons. left. reflexivity.
    + intros i. rewrite !elem_of_app. split.
      * intros [Hin | [[Hin | Hin] | [Hin | Hin]]].
        -- apply Hwarn in Hin as (me & Hin). discriminate.
        -- apply list_elem_of_bind in Hin as (p & Hin & _).
           destruct (negb (p =? from)); [| inversion Hin].
           apply elem_of_cons in Hin as [Hin | Hin]; [discriminate |].
           apply list_elem_of_singleton in Hin. discriminate.
        -- apply list_elem_of_singleton in Hin. discriminate.
        -- apply list_elem_of_singleton in Hin. discriminate.
        -- apply list_elem_of_fmap in Hin as (j & Hin & Hj).
           apply elem_of_seqZ in Hj. injection Hin as ->. lia.
      * intros Hi. right. right. right.
        apply list_elem_of_fmap. exists i. split; [reflexivity |].
        apply elem_of_seqZ. lia.
  - intros Hout. destruct Hstart as (Hnew0 & Ha0 & Ha1).
    destruct (startup_returns env nThreads argv Hn Hargc Hnew0 Ha0 Ha1)
      as (pre & Hstart & Hpre).
    destruct (casePS_placement env nThreads argv Hc Hop Hstate Hfrom)
      as (op & modified & a & header & Hexp).
    fold from in Hexp.
    assert (Hhang : Driver.measurePlacementFrom env nThreads op modified from a
                    = ([], inr Hang)).
    { unfold Driver.measurePlacementFrom.
      rewrite outside_team by lia. reflexivity. }
    rewrite Hhang, M_bind_inr in Hexp.
    rewrite <- experiment_placement_sharing in Hexp
      by (rewrite Hc; simpl; tauto).
    rewrite (main_experiment_ends _ _ _ pre _ _ Hstart Hexp).
    cbn [fst snd]. rewrite app_nil_r. split; [reflexivity | exact Hpre].
Qed.

Lemma placement_report_witness :
  let run := main (plainEnv false) 4 ["loadsStores"; "Pru"; "1"]%string in
  (forall active placement,
     sampledPlacement run.1 active placement <->
     active = 1 /\ 0 <= placement < 4 /\ placement <> 1) /\
  (forall i, reportLine i ∈ run.1 <-> 1 <= i < 4) /\
  (main (plainEnv false) 4 ["loadsStores"; "Pru"; "7"]%string).2 = Hang.
Proof.
  assert (Hn : 2 <= 4 <= MAX_THREADS) by (unfold MAX_THREADS; lia).
  assert (Hargc : (2 <= length ["loadsStores"; "Pru"; "1"]%string)%nat)
    by (simpl; lia).
  assert (Hargc7 : (2 <= length ["loadsStores"; "Pru"; "7"]%string)%nat)
    by (simpl; lia).
  assert (Hstart : startupOk (plainEnv false)) by (repeat split).
  assert (Halloc : allocationsOk (plainEnv false)) by (repeat split).
  assert (Hop : In (charAt (argvAt ["loadsStores"; "Pru"; "1"]%string 1) 1)
                  ["r"; "w"; "a"]%char) by (simpl; tauto).
  assert (Hstate : In (charAt (argvAt ["loadsStores"; "Pru"; "1"]%string 1) 2)
                     ["u"; "m"]%char) by (simpl; tauto).
  assert (Hop7 : In (charAt (argvAt ["loadsStores"; "Pru"; "7"]%string 1) 1)
                   ["r"; "w"; "a"]%char) by (simpl; tauto).
  assert (Hstate7 : In (charAt (argvAt ["loadsStores"; "Pru"; "7"]%string 1) 2)
                      ["u"; "m"]%char) by (simpl; tauto).
  assert (Hfrom : 0 <= 1) by lia.
  assert (Hfrom7 : 0 <= 7) by lia.
  assert (Hin : 1 < 4) by lia.
  assert (Hout : 4 <= 7) by lia.
  destruct (proj1 (placement_report (plainEnv false) 4
                     ["loadsStores"; "Pru"; "1"]%string
                     Hn Hargc Hstart Halloc eq_refl Hop Hstate Hfrom) Hin)
    as (_ & Hsampled & Hrows).
  split; [exact Hsampled |]. split; [exact Hrows |].
  exact (proj1 (proj2 (placement_report (plainEnv false) 4
                         ["loadsStores"; "Pru"; "7"]%string
                         Hn Hargc7 Hstart Halloc eq_refl Hop7 Hstate7 Hfrom7)
                  Hout)).
Defined.

(** ** [delay]: how long the active thread waits *)

Lemma delayLoop_some (end_ : Z) (readings : list Z) (r : Z) (rest : list Z) :
  delayLoop end_ readings = Some (r, rest) <->
  exists skipped,
    readings = skipped ++ r :: rest /\
    Forall (fun x => x < end_) skipped /\ end_ <= r.
Proof.
  induction readings as [| x readings IH]; cbn [delayLoop].
  - split; [discriminate |].
    intros (skipped & Heq & _). destruct skipped; discriminate.
  - destruct (Z.ltb_spec x end_) as [Hlt | Hge].
    + rewrite IH. split.
      * intros (skipped & -> & Hall & Hr). exists (x :: skipped).
        split; [reflexivity |]. split; [constructor; assumption | exact Hr].
      * intros (skipped & Heq & Hall & Hr).
        destruct skipped as [| y skipped]; cbn in Heq.
        -- injection Heq as -> ->. lia.
        -- injection Heq as -> ->. exists skipped.
           apply Forall_cons in Hall as (_ & Hall). auto.
    + split.
      * intros [= -> ->]. exists []. split; [reflexivity |].
        split; [constructor | exact Hge].
      * intros (skipped & Heq & Hall & Hr).
        destruct skipped as [| y skipped]; cbn in Heq.
        -- injection Heq as -> ->. reflexivity.
        -- injection Heq as -> ->.
           apply Forall_cons in Hall as (Hy & _). lia.
Qed.

Lemma delayLoop_none (end_ : Z) (readings : list Z) :
  delayLoop end_ readings = None <-> Forall (fun x => x < end_) readings.
Proof.
  induction readings as [| x readings IH]; cbn [delayLoop].
  - split; [constructor | reflexivity].
  - destruct (Z.ltb_spec x end_) as [Hlt | Hge].
    + rewrite IH. split.
      * intros Hall. constructor; assumption.
      * intros Hall. apply Forall_cons in Hall as (_ & Hall). exact Hall.
    + split; [discriminate |].
      intros Hall. apply Forall_cons in Hall as (Hx & _). lia.
Qed.

(** X14: [delay(ticks)] reads the clock once for its start and then until a
    reading is not before [start + ticks]: it returns at the first such
    reading, so never less than [ticks] ticks after its start, and it does
    not return as long as every reading stays before that bound. *)
Theorem delay_waits (ticks start : Z) (readings : list Z) :
  0 <= ticks < 2 ^ 32 ->
  (forall r rest,
     delay ticks (start :: readings) = Some (r, rest) <->
     exists skipped,
       readings = skipped ++ r :: rest /\
       Forall (fun x => x < start + ticks) skipped /\ start + ticks <= r) /\
  (delay ticks (start :: readings) = None <->
   Forall (fun x => x < start + ticks) readings).
Proof.
  intros Hticks. unfold delay, uint32_wrap.
  rewrite (Z.mod_small ticks (2 ^ 32) Hticks).
  split.
  - intros r rest. apply delayLoop_some.
  - apply delayLoop_none.
Qed.

Lemma delay_waits_witness :
  delay 5000 [100; 2000; 5099; 5100; 5200] = Some (5100, [5200]) /\
  (delay 5000 [100; 2000; 5099] = None <->
   Forall (fun x => x < 100 + 5000) [2000; 5099]).
Proof.
  assert (Hticks : 0 <= 5000 < 2 ^ 32) by lia.
  split.
  - apply (proj1 (delay_waits 5000 100 [2000; 5099; 5100; 5200] Hticks)).
    exists [2000; 5099]. split; [reflexivity |].
    split; [repeat constructor; lia | lia].
  - exact (proj2 (delay_waits 5000 100 [2000; 5099] Hticks)).
Defined.

(** ** Cells *)

(** X15: a cell counts modulo [2 ^ 32]: after [store v] and [n] calls of
    [atomicInc] it holds [v + n] reduced to a [uint32_t], whatever it held
    before. *)
Theorem atomicInc_counts (n : nat) (v : Z) (c : alignedUint32) :
  Cell.load (Nat.iter n Cell.atomicInc (Cell.store v c))
  = uint32_wrap (v + Z.of_nat n).
Proof.
  induction n as [| n IH].
  - cbn. rewrite Z.add_0_r. reflexivity.
  - change (Nat.iter (S n) Cell.atomicInc (Cell.store v c))
      with (Cell.atomicInc (Nat.iter n Cell.atomicInc (Cell.store v c))).
    unfold Cell.load in *. unfold Cell.atomicInc at 1. cbn [value].
    rewrite IH. unfold uint32_wrap.
    rewrite Zplus_mod_idemp_l. apply (f_equal (fun z => z mod 2 ^ 32)). lia.
Qed.

(** ** [measureMemory]: what the reported mean is *)

Lemma Qsum_scale (l : list Q) (d : Q) :
  (Qsum ((fun x => x / d) <$> l) == Qsum l / d)%Q.
Proof.
  induction l as [| x l IH].
  - cbn. unfold Qdiv. ring.
  - cbn [fmap list_fmap Qsum fold_right]. fold (Qsum l).
    change (fold_right Qplus 0%Q (list_fmap Q Q (fun x => (x / d)%Q) l))
      with (Qsum ((fun x => x / d)%Q <$> l)).
    rewrite IH. unfold Qdiv. ring.
Qed.

Lemma getMean_scaleDown (d : Z) (s : statistic) :
  (getMean (scaleDown d s) == getMean s / inject_Z d)%Q.
Proof.
  unfold getMean, scaleDown. cbn [samples].
  rewrite Qsum_scale, length_fmap. unfold Qdiv. ring.
Qed.

(** X16: [measureMemory] adds to its statistic one sample per timed
    operation, [NumSamples] in all, and the mean it leaves is the mean of
    the raw times, those the statistic held before included, divided by
    [measurementArraySize]; for a fresh statistic that is the sum of the
    timed values over [NumSamples * measurementArraySize]. *)
Theorem measureMemory_mean (measurementArraySize NumSamples : Z)
    (ticks : Z -> Z) (stat : statistic) :
  0 < measurementArraySize -> 0 < NumSamples ->
  let raw := (fun i => inject_Z (ticks i)) <$> seqZ 0 NumSamples in
  let reported := measureMemory measurementArraySize NumSamples ticks stat in
  length (samples reported) = (length (samples stat) + Z.to_nat NumSamples)%nat /\
  (getMean reported
   == getMean (mkStat (samples stat ++ raw)) / inject_Z measurementArraySize)%Q /\
  (samples stat = [] ->
   getMean reported
   == Qsum raw / inject_Z (NumSamples * measurementArraySize))%Q.
Proof.
  intros Hmas HN raw reported. subst reported. unfold measureMemory.
  assert (Hloop : fold_left (fun st i => BlockTimer (ticks i) st)
                    (seqZ 0 NumSamples) stat
                  = mkStat (samples stat ++ raw))
    by (apply (fold_addSample (fun i => inject_Z (ticks i)))).
  rewrite Hloop.
  assert (Hraw : length raw = Z.to_nat NumSamples)
    by (unfold raw; rewrite length_fmap, length_seqZ; reflexivity).
  split; [| split].
  - unfold scaleDown. cbn [samples].
    rewrite length_fmap, length_app, Hraw. reflexivity.
  - apply getMean_scaleDown.
  - intros Hfresh. rewrite getMean_scaleDown, Hfresh. cbn [app].
    unfold getMean. cbn [samples]. rewrite Hraw, Z2Nat.id by lia.
    rewrite inject_Z_mult.
    field. split; unfold Qeq; cbn; lia.
Qed.

Lemma measureMemory_mean_witness :
  let reported := measureMemory 256 2 (fun i => 512 + 512 * i) reset in
  length (samples reported) = 2%nat /\
  (getMean reported == 3)%Q.
Proof.
  assert (Hmas : 0 < 256) by lia.
  assert (HN : 0 < 2) by lia.
  destruct (measureMemory_mean 256 2 (fun i => 512 + 512 * i) reset Hmas HN)
    as (Hlen & _ & Hmean).
  split; [exact Hlen |].
  rewrite (Hmean eq_refl). reflexivity.
Defined.
